(** * The Quran audio downloader ([scripts/download_full_quran.py])

    A shallow embedding of the bulk downloader: the address model
    ([calculate_global_verse_number], [get_download_path]), the transfer
    unit ([download_verse]), the per-surah orchestration ([download_surah]),
    the whole run ([download_all], [main]) and the counting semaphore that
    bounds the requests in flight.

    Python integers are [Z]; the local mirror is a finite map from paths to
    nodes; the remote endpoint is a function from URLs to responses; every
    effect the script performs is recorded, in program order, in a trace. *)

From Stdlib Require Import ZArith QArith Lia List Ascii.
From stdpp Require Import base tactics option list gmap strings pretty.

Local Open Scope Z_scope.

(** ** Python list primitives used by the script *)

Module Py.

(** [l[:k]]: a negative bound counts from the end, and bounds past either
    end are clipped. *)
Definition slice_to {A} (l : list A) (k : Z) : list A :=
  if decide (0 <= k) then take (Z.to_nat k) l
  else take (Z.to_nat (Z.of_nat (length l) + k)) l.

(** [l[i]]: a negative index counts from the end; [None] is IndexError. *)
Definition index {A} (l : list A) (i : Z) : option A :=
  if decide (0 <= i) then l !! Z.to_nat i
  else if decide (- Z.of_nat (length l) <= i)
       then l !! Z.to_nat (Z.of_nat (length l) + i)
       else None.

(** [sum(l)] *)
Definition sum (l : list Z) : Z := foldr Z.add 0 l.

(** [range(a, b)] *)
Definition range (a b : Z) : list Z :=
  (λ i : nat, a + Z.of_nat i) <$> seq 0 (Z.to_nat (b - a)).

(** [sum(1 for x in l if p x)] *)
Definition count {A} (p : A → bool) (l : list A) : Z :=
  sum ((λ x, if p x then 1 else 0) <$> l).

End Py.

(** ** Module-level constants (lines 15-47) *)

Definition VERSE_COUNTS : list Z :=
  [ 7; 286; 200; 176; 120; 165; 206; 75; 129; 109;
    123; 111; 43; 52; 99; 128; 111; 110; 98; 135;
    112; 78; 118; 64; 77; 227; 93; 88; 69; 60;
    34; 30; 73; 54; 45; 83; 182; 88; 75; 85;
    54; 53; 89; 59; 37; 35; 38; 29; 18; 45;
    60; 49; 62; 55; 78; 96; 29; 22; 24; 13;
    14; 11; 11; 18; 12; 12; 30; 52; 52; 44;
    28; 28; 20; 56; 40; 31; 50; 40; 46; 42;
    29; 19; 36; 25; 22; 17; 19; 26; 30; 20;
    15; 21; 11; 8; 8; 19; 5; 8; 8; 11;
    11; 8; 3; 9; 5; 4; 7; 3; 6; 3;
    5; 4; 5; 6 ].

Definition RECITERS : list string := [ "ar.alafasy"; "ar.husary" ]%string.

Definition BASE_URL : string := "https://cdn.islamic.network/quran/audio/128".

(** A [Path] is the list of its components. *)
Definition BASE_DIR : list string :=
  [ "/"; "Users"; "a21"; "Downloads"; "hikma_-quran-storyteller";
    "public"; "assets"; "quran"; "offline" ]%string.

Definition MAX_CONCURRENT : Z := 8.

Definition REQUEST_DELAY : Q := 1 # 10.

(** The pause of line 193. *)
Definition COOLDOWN : Q := 5 # 1.

(** ** Address model (lines 68-77) *)

Section Address.

(** The table of item counts; [VERSE_COUNTS] in the script. *)
Variable counts : list Z.

Definition global_number (surah_num verse_num : Z) : Z :=
  let verses_before := Py.sum (Py.slice_to counts (surah_num - 1)) in
  verses_before + verse_num.

(** The running sum over the first [m] collections. *)
Definition verses_before (m : nat) : Z := Py.sum (take m counts).

(** The spec's reading: the item count of a collection, and the sum of the
    item counts of all collections before [c], plus the item. *)
Definition item_count (c : Z) : Z := default 0 (Py.index counts (c - 1)).

Definition spec_global_index (c i : Z) : Z :=
  Py.sum (item_count <$> Py.range 1 c) + i.

Definition valid_pair (c i : Z) : Prop :=
  1 <= c <= Z.of_nat (length counts) ∧ 1 <= i <= item_count c.

(** The inverse of [global_number]: walk the table, subtracting counts. *)
Fixpoint locate_from (l : list Z) (c n : Z) : Z * Z :=
  match l with
  | [] => (c, n)
  | k :: l' => if decide (n <= k) then (c, n) else locate_from l' (c + 1) (n - k)
  end.

End Address.

Definition calculate_global_verse_number (surah_num verse_num : Z) : Z :=
  global_number VERSE_COUNTS surah_num verse_num.

Definition locate (n : Z) : Z * Z := locate_from VERSE_COUNTS 1 n.

(** [BASE_DIR / reciter / str(surah_num) / f"{verse_num}.mp3"] (line 77), for
    a reciter that is one path component, as the reciters of the script are:
    the three arguments are then the last three components of the path.
    What pathlib makes of an arbitrary string is [pathlib_download_path]
    below; the two agree on path components. *)
Definition get_download_path (reciter : string) (surah_num verse_num : Z) : list string :=
  BASE_DIR ++ [ reciter; pretty surah_num; pretty verse_num +:+ ".mp3" ]%string.

Definition surah_dir (reciter : string) (surah_num : Z) : list string :=
  BASE_DIR ++ [ reciter; pretty surah_num ]%string.

Definition verse_url (reciter : string) (global_verse_num : Z) : string :=
  BASE_URL +:+ "/" +:+ reciter +:+ "/" +:+ pretty global_verse_num +:+ ".mp3".

(** ** The world the script runs in *)

(** Exceptions, as far as the script tells them apart: [KeyboardInterrupt]
    is a [BaseException] and passes every [except Exception];
    [asyncio.TimeoutError] has a handler of its own (line 119); of any
    other [Exception] only [str(e)] is used. *)
Inductive exn :=
| KeyboardInterrupt
| TimeoutError
| Exception (msg : string).

(** What [await response.read()] yields. *)
Inductive body :=
| Body (content : list Byte.byte)
| BodyTimeout
| BodyError (msg : string).

(** What the remote endpoint does with one GET. *)
Inductive response :=
| Response (status : Z) (b : body)
| Timeout
| ClientError (msg : string).

(** The local file system: a finite map from paths to nodes. *)
Inductive node :=
| Dir
| File (content : list Byte.byte).

(** The effects of a run, in program order. *)
Inductive event :=
| EAcquire                                       (* enter [async with self.semaphore] *)
| ERelease                                       (* leave it *)
| EExists (p : list string) (b : bool)           (* [file_path.exists()] *)
| EMkdir (d : list string)                       (* [file_path.parent.mkdir(...)] *)
| ESleep (d : Q)                                 (* [await asyncio.sleep(d)] *)
| EGet (url : string)                            (* [self.session.get(url)] *)
| EWrite (p : list string) (content : list Byte.byte)
| EReturn (r : bool * string)                    (* [download_verse] returns [r] *)
| EProgress (surah_num : Z) (downloaded skipped failed total : Z)
| ESessionOpen
| ESessionClose
| ESummary (downloaded skipped failed total_verses : Z).

(** [self.session]: [None] until [create_session], then an open client
    session, then a closed one. *)
Inductive session_state :=
| NoSession
| Open
| Closed.

Definition is_open (s : session_state) : bool :=
  match s with Open => true | _ => false end.

(** The downloader object together with its environment. [sigint] is the
    number of transfer units that may still start before the operator's
    interrupt arrives ([None]: the run is never interrupted). *)
Record state := State {
  session : session_state;
  total_downloaded : Z;
  total_skipped : Z;
  total_failed : Z;
  fs : gmap (list string) node;
  trace : list event;
  sigint : option nat
}.

Definition set_session (b : session_state) (st : state) : state :=
  State b (total_downloaded st) (total_skipped st) (total_failed st)
        (fs st) (trace st) (sigint st).

Definition set_totals (d s f : Z) (st : state) : state :=
  State (session st) d s f (fs st) (trace st) (sigint st).

Definition set_fs (m : gmap (list string) node) (st : state) : state :=
  State (session st) (total_downloaded st) (total_skipped st) (total_failed st)
        m (trace st) (sigint st).

Definition set_trace (tr : list event) (st : state) : state :=
  State (session st) (total_downloaded st) (total_skipped st) (total_failed st)
        (fs st) tr (sigint st).

Definition set_sigint (n : option nat) (st : state) : state :=
  State (session st) (total_downloaded st) (total_skipped st) (total_failed st)
        (fs st) (trace st) n.

(** [QuranDownloader.__init__] (lines 51-56), in a given environment. *)
Definition init (mirror : gmap (list string) node) (interrupt : option nat) : state :=
  State NoSession 0 0 0 mirror [] interrupt.

(** ** The monad of the script: state and exceptions *)

Inductive res (A : Type) :=
| Ret (a : A)
| Raise (e : exn).
Arguments Ret {A} a.
Arguments Raise {A} e.

Definition M (A : Type) : Type := state → res A * state.

Definition ret {A} (a : A) : M A := λ st, (Ret a, st).

Definition bind {A B} (m : M A) (k : A → M B) : M B := λ st,
  match m st with
  | (Ret a, st') => k a st'
  | (Raise e, st') => (Raise e, st')
  end.

#[global] Instance M_ret : MRet M := @ret.
#[global] Instance M_bind : MBind M := λ A B k m, bind m k.

Definition raise {A} (e : exn) : M A := λ st, (Raise e, st).

Definition emit (e : event) : M unit := λ st,
  (Ret (), set_trace (trace st ++ [e]) st).

(** [try: m finally: fin] *)
Definition try_finally {A} (m : M A) (fin : M unit) : M A := λ st,
  match m st with
  | (r, st') =>
      match fin st' with
      | (Ret _, st'') => (r, st'')
      | (Raise e, st'') => (Raise e, st'')
      end
  end.

(** [try: m except asyncio.TimeoutError: h1 except Exception as e: h2 e] *)
Definition try_except {A} (m : M A) (on_timeout : M A) (on_exception : string → M A) : M A :=
  λ st,
  match m st with
  | (Ret a, st') => (Ret a, st')
  | (Raise TimeoutError, st') => on_timeout st'
  | (Raise (Exception msg), st') => on_exception msg st'
  | (Raise KeyboardInterrupt, st') => (Raise KeyboardInterrupt, st')
  end.

(** [async with self.semaphore: m]. The permit is given back however the
    block is left. *)
Definition async_with_semaphore {A} (m : M A) : M A :=
  emit EAcquire;; try_finally m (emit ERelease).

(** [for x in l: body x] *)
Fixpoint for_each {A} (l : list A) (body : A → M unit) : M unit :=
  match l with
  | [] => mret ()
  | x :: l' => body x;; for_each l' body
  end.

(** The operator's interrupt, delivered at the start of a transfer unit. *)
Definition checkpoint : M unit := λ st,
  match sigint st with
  | None => (Ret (), st)
  | Some O => (Raise KeyboardInterrupt, st)
  | Some (S n) => (Ret (), set_sigint (Some n) st)
  end.

(** [await asyncio.gather] over the tasks of one surah, taken in the order
    they were created; the first exception is the one [gather] raises. *)
Fixpoint gather {A} (tasks : list (M A)) : M (list A) :=
  match tasks with
  | [] => mret []
  | t :: tasks' =>
      checkpoint;;
      r ← t;
      rs ← gather tasks';
      mret (r :: rs)
  end.

(** ** File-system and network primitives *)

Definition parent (p : list string) : list string := removelast p.

(** [p.exists()] *)
Definition path_exists (p : list string) : M bool := λ st,
  let b := bool_decide (is_Some (fs st !! p)) in
  (Ret b, set_trace (trace st ++ [EExists p b]) st).

(** One level of [mkdir(exist_ok=True)]: an existing directory is kept, a
    regular file in the way is an error. *)
Definition mkdir1 (m : gmap (list string) node) (p : list string)
  : option (gmap (list string) node) :=
  match m !! p with
  | Some Dir => Some m
  | Some (File _) => None
  | None => Some (<[p := Dir]> m)
  end.

(** [mkdir(parents=True, exist_ok=True)] below the directory [above]: the
    components of [below] are created from the top down. *)
Fixpoint mkdirs (m : gmap (list string) node) (above below : list string)
  : option (gmap (list string) node) :=
  match below with
  | [] => Some m
  | c :: below' =>
      match mkdir1 m (above ++ [c]) with
      | Some m' => mkdirs m' (above ++ [c]) below'
      | None => None
      end
  end.

Definition mkdir_parents (d : list string) : M unit := λ st,
  let st1 := set_trace (trace st ++ [EMkdir d]) st in
  match mkdirs (fs st) [] d with
  | Some m' => (Ret (), set_fs m' st1)
  | None => (Raise (Exception "FileExistsError"), st1)
  end.

(** [with open(p, 'wb') as f: f.write(content)] *)
Definition write_file (p : list string) (content : list Byte.byte) : M unit := λ st,
  match fs st !! p, fs st !! parent p with
  | Some Dir, _ => (Raise (Exception "IsADirectoryError"), st)
  | _, Some Dir =>
      (Ret (), set_fs (<[p := File content]> (fs st))
                 (set_trace (trace st ++ [EWrite p content]) st))
  | _, _ => (Raise (Exception "FileNotFoundError"), st)
  end.

Definition sleep (d : Q) : M unit := emit (ESleep d).

(** ** The downloader (lines 50-238) *)

(** The dictionary [download_surah] returns. *)
Record surah_result := SurahResult {
  downloaded : Z;
  skipped : Z;
  failed : Z;
  total : Z
}.

(** The three conditions of lines 137-139 on a [(success, msg)] pair. *)
Definition is_downloaded (r : bool * string) : bool :=
  r.1 && bool_decide (r.2 = "downloaded"%string).

Definition is_skipped (r : bool * string) : bool :=
  r.1 && bool_decide (r.2 = "skipped"%string).

Definition is_failed (r : bool * string) : bool := negb r.1.

(** [result['failed'] > result['total'] * 0.5] (line 191). Both sides are
    small integers and halves, which binary floating point represents
    exactly, so the comparison is the one on rationals. *)
Definition too_many_failures (r : surah_result) : bool :=
  if Qlt_le_dec (inject_Z (total r) * (1 # 2)) (inject_Z (failed r)) then true else false.

Section Run.

(** The remote endpoint. *)
Variable server : string → response.

(** [create_session] (lines 58-61) *)
Definition create_session : M unit := λ st,
  (Ret (), set_session Open (set_trace (trace st ++ [ESessionOpen]) st)).

(** [close_session] (lines 63-66) *)
Definition close_session : M unit := λ st,
  match session st with
  | NoSession => (Ret (), st)
  | _ => (Ret (), set_session Closed (set_trace (trace st ++ [ESessionClose]) st))
  end.

(** [self.session.get(url)]; on [None] the attribute access raises, and a
    closed session refuses the request. *)
Definition session_get (url : string) : M (Z * body) := λ st,
  match session st with
  | Open =>
      let st1 := set_trace (trace st ++ [EGet url]) st in
      match server url with
      | Response status b => (Ret (status, b), st1)
      | Timeout => (Raise TimeoutError, st1)
      | ClientError msg => (Raise (Exception msg), st1)
      end
  | NoSession => (Raise (Exception "'NoneType' object has no attribute 'get'"), st)
  | Closed => (Raise (Exception "Session is closed"), st)
  end.

(** [await response.read()] *)
Definition response_read (b : body) : M (list Byte.byte) :=
  match b with
  | Body content => mret content
  | BodyTimeout => raise TimeoutError
  | BodyError msg => raise (Exception msg)
  end.

(** [download_verse] (lines 79-122) *)
Definition download_verse (reciter : string) (surah_num verse_num global_verse_num : Z)
  : M (bool * string) :=
  r ← async_with_semaphore (
    let file_path := get_download_path reciter surah_num verse_num in
    present ← path_exists file_path;
    if present : bool then mret (true, "skipped"%string)
    else
      mkdir_parents (parent file_path);;
      let url := verse_url reciter global_verse_num in
      try_except
        (sleep REQUEST_DELAY;;
         response ← session_get url;
         if decide (response.1 = 200) then
           content ← response_read response.2;
           write_file file_path content;;
           mret (true, "downloaded"%string)
         else
           mret (false, "HTTP " +:+ pretty response.1))
        (mret (false, "timeout"%string))
        (λ msg, mret (false, msg)));
  emit (EReturn r);;
  mret r.

(** [download_surah] (lines 124-146) *)
Definition download_surah (reciter : string) (surah_num : Z) : M surah_result :=
  verse_count ← match Py.index VERSE_COUNTS (surah_num - 1) with
                | Some n => mret n
                | None => raise (Exception "list index out of range")
                end;
  let tasks :=
    (λ verse_num,
       let global_verse_num := calculate_global_verse_number surah_num verse_num in
       download_verse reciter surah_num verse_num global_verse_num)
    <$> Py.range 1 (verse_count + 1) in
  results ← gather tasks;
  mret (SurahResult (Py.count is_downloaded results)
                    (Py.count is_skipped results)
                    (Py.count is_failed results)
                    verse_count).

(** Lines 176-178. *)
Definition update_totals (result : surah_result) : M unit := λ st,
  (Ret (), set_totals (total_downloaded st + downloaded result)
                      (total_skipped st + skipped result)
                      (total_failed st + failed result) st).

(** The body of the inner loop (lines 169-193); the wall-clock readings only
    feed the progress line and are left out. *)
Definition surah_iteration (reciter : string) (surah_num : Z) : M unit :=
  result ← download_surah reciter surah_num;
  update_totals result;;
  emit (EProgress surah_num (downloaded result) (skipped result)
                  (failed result) (total result));;
  if too_many_failures result then sleep COOLDOWN else mret ().

(** Lines 198-208. *)
Definition print_summary : M unit := λ st,
  emit (ESummary (total_downloaded st) (total_skipped st) (total_failed st)
                 (Py.sum VERSE_COUNTS * Z.of_nat (length RECITERS))) st.

(** [download_all] (lines 148-221); of the banner and the summary only the
    integer totals are kept. *)
Definition download_all : M unit :=
  create_session;;
  try_finally
    (for_each RECITERS (λ reciter,
       for_each (Py.range 1 115) (λ surah_num,
         surah_iteration reciter surah_num)))
    close_session;;
  print_summary.

(** How the process ends. *)
Inductive outcome :=
| Finished
| Interrupted (downloaded skipped failed : Z)   (* lines 230-235, exit status 1 *)
| Fatal (msg : string).                         (* lines 236-238, exit status 1 *)

(** [main] (lines 224-238), started on a mirror, with the operator's
    interrupt due after [interrupt] transfer units, if at all. *)
Definition main (mirror : gmap (list string) node) (interrupt : option nat)
  : outcome * state :=
  let downloader := init mirror interrupt in
  match download_all downloader with
  | (Ret _, st) => (Finished, st)
  | (Raise KeyboardInterrupt, st) =>
      (Interrupted (total_downloaded st) (total_skipped st) (total_failed st), st)
  | (Raise TimeoutError, st) => (Fatal "", st)
  | (Raise (Exception msg), st) => (Fatal msg, st)
  end.

(** The request of a unit brings back a body with status 200. *)
Definition delivers (st : state) (url : string) (content : list Byte.byte) : Prop :=
  session st = Open ∧ server url = Response 200 (Body content).

(** The four ways through [download_verse], each with its result, the
    mirror it leaves and the events it adds. *)
Inductive unit_path (st : state) (reciter : string)
  (surah_num verse_num global_verse_num : Z)
  : res (bool * string) → gmap (list string) node → list event → Prop :=
| path_skipped :
    is_Some (fs st !! get_download_path reciter surah_num verse_num) →
    unit_path st reciter surah_num verse_num global_verse_num
      (Ret (true, "skipped"%string)) (fs st)
      [ EAcquire; EExists (get_download_path reciter surah_num verse_num) true;
        ERelease; EReturn (true, "skipped"%string) ]
| path_mkdir_error :
    fs st !! get_download_path reciter surah_num verse_num = None →
    mkdirs (fs st) [] (surah_dir reciter surah_num) = None →
    unit_path st reciter surah_num verse_num global_verse_num
      (Raise (Exception "FileExistsError")) (fs st)
      [ EAcquire; EExists (get_download_path reciter surah_num verse_num) false;
        EMkdir (surah_dir reciter surah_num); ERelease ]
| path_downloaded m content :
    fs st !! get_download_path reciter surah_num verse_num = None →
    mkdirs (fs st) [] (surah_dir reciter surah_num) = Some m →
    delivers st (verse_url reciter global_verse_num) content →
    unit_path st reciter surah_num verse_num global_verse_num
      (Ret (true, "downloaded"%string))
      (<[get_download_path reciter surah_num verse_num := File content]> m)
      [ EAcquire; EExists (get_download_path reciter surah_num verse_num) false;
        EMkdir (surah_dir reciter surah_num); ESleep REQUEST_DELAY;
        EGet (verse_url reciter global_verse_num);
        EWrite (get_download_path reciter surah_num verse_num) content;
        ERelease; EReturn (true, "downloaded"%string) ]
| path_failed m msg :
    fs st !! get_download_path reciter surah_num verse_num = None →
    mkdirs (fs st) [] (surah_dir reciter surah_num) = Some m →
    (∀ content, ¬ delivers st (verse_url reciter global_verse_num) content) →
    unit_path st reciter surah_num verse_num global_verse_num
      (Ret (false, msg)) m
      ([ EAcquire; EExists (get_download_path reciter surah_num verse_num) false;
         EMkdir (surah_dir reciter surah_num); ESleep REQUEST_DELAY ]
       ++ (if is_open (session st)
           then [ EGet (verse_url reciter global_verse_num) ] else [])
       ++ [ ERelease; EReturn (false, msg) ]).

(** The tasks [download_surah] builds for the verses [vs] (lines 128-132). *)
Definition verse_tasks (reciter : string) (surah_num : Z) (vs : list Z)
  : list (M (bool * string)) :=
  (λ verse_num,
     let global_verse_num := calculate_global_verse_number surah_num verse_num in
     download_verse reciter surah_num verse_num global_verse_num)
  <$> vs.

(** What becomes of one verse of a surah between two states, read off the
    mirror before and the endpoint: skipped, downloaded or failed. *)
Definition unit_outcome (st st' : state) (reciter : string) (surah_num : Z)
  (verse_num : Z) (r : bool * string) : Prop :=
  let p := get_download_path reciter surah_num verse_num in
  let url := verse_url reciter (calculate_global_verse_number surah_num verse_num) in
  (is_Some (fs st !! p) ∧ r = (true, "skipped"%string))
  ∨ (fs st !! p = None ∧ r = (true, "downloaded"%string)
     ∧ ∃ content, delivers st url content ∧ fs st' !! p = Some (File content))
  ∨ (fs st !! p = None ∧ r.1 = false
     ∧ (∀ content, ¬ delivers st url content) ∧ fs st' !! p = None).

(** The events one call of [download_verse] adds to the trace. *)
Definition unit_events (st : state) (reciter : string)
  (surah_num verse_num global_verse_num : Z) : list event :=
  drop (length (trace st))
       (trace (download_verse reciter surah_num verse_num global_verse_num st).2).

End Run.

(** The state a step leaves: a new mirror, more events, the rest as before. *)
Definition after (st : state) (m : gmap (list string) node) (evs : list event) : state :=
  State (session st) (total_downloaded st) (total_skipped st) (total_failed st)
        m (trace st ++ evs) (sigint st).

Ltac unfold_script :=
  unfold async_with_semaphore, try_finally, try_except, path_exists,
    mkdir_parents, write_file, session_get, response_read, sleep, emit, raise,
    checkpoint, update_totals, create_session, close_session, print_summary,
    mbind, mret, M_bind, M_ret, bind, ret in *.

(** Membership in a list that is written out. *)
Ltac in_list H :=
  repeat (apply elem_of_cons in H as [H|H]);
  try (by apply elem_of_nil in H); try discriminate; simplify_eq.

Ltac list_has :=
  repeat first [ apply list_elem_of_here | apply list_elem_of_further ].

(** ** Reading a trace *)

(** The results of the transfer units that have resolved. *)
Definition returns (tr : list event) : list (bool * string) :=
  omap (λ e, match e with EReturn r => Some r | _ => None end) tr.

(** The results, split at the last progress line: the units of the surahs
    already accounted for, and the units resolved since. *)
Definition settle_step (acc : list (bool * string) * list (bool * string)) (e : event)
  : list (bool * string) * list (bool * string) :=
  match e with
  | EReturn r => (acc.1, acc.2 ++ [r])
  | EProgress _ _ _ _ _ => (acc.1 ++ acc.2, [])
  | _ => acc
  end.


Definition is_semaphore_event (e : event) : bool :=
  match e with EAcquire | ERelease => true | _ => false end.

Definition is_get (e : event) : bool :=
  match e with EGet _ => true | _ => false end.

Definition is_write (e : event) : bool :=
  match e with EWrite _ _ => true | _ => false end.

Definition is_mkdir (e : event) : bool :=
  match e with EMkdir _ => true | _ => false end.

(** The tallies of lines 137-139 over a list of results. *)
Definition tally (results : list (bool * string)) : Z * Z * Z :=
  (Py.count is_downloaded results, Py.count is_skipped results, Py.count is_failed results).

Definition totals (st : state) : Z * Z * Z :=
  (total_downloaded st, total_skipped st, total_failed st).

(** From [st] to [st'] the script went on: the events [evs] were added, the
    session and the totals are the same, and what was on the mirror is
    still there. *)
Definition extends (st st' : state) (evs : list event) : Prop :=
  session st' = session st ∧ totals st' = totals st
  ∧ trace st' = trace st ++ evs
  ∧ ∀ q x, fs st !! q = Some x → fs st' !! q = Some x.

(** The state one pass of the inner loop leaves once its surah has returned
    [r] in [st1] (lines 176-193). *)
Definition after_surah (surah_num : Z) (r : surah_result) (st1 : state) : state :=
  State (session st1)
        (total_downloaded st1 + downloaded r)
        (total_skipped st1 + skipped r)
        (total_failed st1 + failed r)
        (fs st1)
        (trace st1
         ++ EProgress surah_num (downloaded r) (skipped r) (failed r) (total r)
            :: (if too_many_failures r then [ESleep COOLDOWN] else []))
        (sigint st1).



(** Events that touch no permit; a unit's events: one acquire, one release,
    the request in between. *)
Definition quiet (l : list event) : Prop :=
  Forall (λ e, is_semaphore_event e = false) l.

Definition bracketed (tr : list event) : Prop :=
  ∃ mid tail,
    tr = EAcquire :: mid ++ ERelease :: tail
    ∧ quiet mid ∧ quiet tail ∧ Forall (λ e, is_get e = false) tail.

(** No regular file sits where the mirror needs a directory. *)
Definition dirs_free (m : gmap (list string) node) : Prop :=
  ∀ reciter surah_num q content,
    q `prefix_of` surah_dir reciter surah_num → m !! q ≠ Some (File content).

(** ** Endpoints and mirrors to try the script on *)

Definition always_200 (content : list Byte.byte) : string → response :=
  λ _, Response 200 (Body content).

Definition always_404 : string → response :=
  λ _, Response 404 (Body []).

(** An endpoint that refuses the very first verse and serves the rest. *)
Definition refuses_first : string → response :=
  λ url, if decide (url = verse_url "ar.alafasy" 1)
         then Response 404 (Body [])
         else Response 200 (Body []).

(** The mirror that holds [x] at [p], below the directories that lead there,
    and nothing else. *)
Definition mirror_with (p : list string) (x : node) : gmap (list string) node :=
  <[p := x]> (default ∅ (mkdirs ∅ [] (parent p))).

(** A mirror that already holds the first verse of the first reciter. *)
Definition one_file_mirror : gmap (list string) node :=
  mirror_with (get_download_path "ar.alafasy" 1 1) (File []).


(** A downloader with its session open, as inside [download_all]. *)
Definition ready (mirror : gmap (list string) node) : state :=
  set_session Open (init mirror None).

(** ** The semaphore under concurrent tasks *)

Module Limiter.

(** A task is the sequence of its effects: those done, those to come. *)
Record task := Task { done : list event; todo : list event }.

(** [asyncio.Semaphore]: the number of free permits; one value for the run. *)
Record sched := Sched { value : Z; tasks : list task }.

(** [self.semaphore = asyncio.Semaphore(MAX_CONCURRENT)] (line 56) and the
    tasks of the run, none started. *)
Definition start (traces : list (list event)) : sched :=
  Sched MAX_CONCURRENT (Task [] <$> traces).

(** The event loop resumes task [i] for one effect. Acquiring with no free
    permit blocks: the loop cannot resume that task. *)
Definition advance (s : sched) (i : nat) : option sched :=
  match tasks s !! i with
  | Some (Task d (e :: rest)) =>
      let ts := <[i := Task (d ++ [e]) rest]> (tasks s) in
      match e with
      | EAcquire =>
          if decide (0 < value s) then Some (Sched (value s - 1) ts) else None
      | ERelease => Some (Sched (value s + 1) ts)
      | _ => Some (Sched (value s) ts)
      end
  | _ => None
  end.

Fixpoint run (schedule : list nat) (s : sched) : option sched :=
  match schedule with
  | [] => Some s
  | i :: schedule' =>
      match advance s i with
      | Some s' => run schedule' s'
      | None => None
      end
  end.

(** A request is in flight from its GET until the task is resumed. *)
Definition in_flight (t : task) : bool :=
  match last (done t) with
  | Some (EGet _) => true
  | _ => false
  end.

Definition requests_in_flight (s : sched) : Z := Py.count in_flight (tasks s).

(** A task holds a permit from its acquire to its release. *)
Definition permits_held (t : task) : Z :=
  Py.count (λ e, match e with EAcquire => true | _ => false end) (done t)
  - Py.count (λ e, match e with ERelease => true | _ => false end) (done t).

(** Where a task stands: not started, between its acquire and its release,
    or past its release. *)
Definition phase_ok (t : task) : Prop :=
  (done t = [] ∧ bracketed (todo t))
  ∨ (∃ mid1 mid2 tail,
       done t = EAcquire :: mid1 ∧ todo t = mid2 ++ ERelease :: tail
       ∧ quiet mid1 ∧ quiet mid2 ∧ quiet tail
       ∧ Forall (λ e, is_get e = false) tail)
  ∨ (∃ mid tail1,
       done t = EAcquire :: mid ++ ERelease :: tail1
       ∧ quiet mid ∧ quiet tail1 ∧ quiet (todo t)
       ∧ Forall (λ e, is_get e = false) (tail1 ++ todo t)).

(** The permits are conserved: those free and those held add up to the
    limit. *)
Definition invariant (s : sched) : Prop :=
  0 <= value s
  ∧ value s + Py.sum (permits_held <$> tasks s) = MAX_CONCURRENT
  ∧ Forall phase_ok (tasks s).

End Limiter.

(** A transfer unit as a task: the state it finds, and its arguments. *)
Definition unit_trace (server : string → response)
  (u : state * string * Z * Z * Z) : list event :=
  match u with
  | (st, reciter, surah_num, verse_num, global_verse_num) =>
      unit_events server st reciter surah_num verse_num global_verse_num
  end.

(** ** Paths as pathlib builds them (line 77) *)

Module Pathlib.

(** [s.split('/')] *)
Fixpoint split_slash (s : string) : list string :=
  match s with
  | EmptyString => [EmptyString]
  | String c s' =>
      if Ascii.eqb c "/"%char then EmptyString :: split_slash s'
      else match split_slash s' with
           | x :: xs => String c x :: xs
           | [] => [String c EmptyString]
           end
  end.

(** The components [PurePosixPath] keeps of one argument: the empty ones
    and "." are dropped, ".." stays. *)
Definition components (s : string) : list string :=
  filter (λ x, x ≠ EmptyString ∧ x ≠ "."%string) (split_slash s).

(** The root of an argument: "/" for a leading slash, "//" for exactly two
    leading slashes, none otherwise. *)
Definition root (s : string) : option string :=
  if String.prefix "///"%string s then Some "/"%string
  else if String.prefix "//"%string s then Some "//"%string
  else if String.prefix "/"%string s then Some "/"%string
  else None.

(** [base / s]: an argument with a root replaces the base. *)
Definition joinpath (base : list string) (s : string) : list string :=
  match root s with
  | Some r => r :: components s
  | None => base ++ components s
  end.

End Pathlib.

(** Line 77 for an arbitrary reciter string. *)
Definition pathlib_download_path (reciter : string) (surah_num verse_num : Z)
  : list string :=
  Pathlib.joinpath
    (Pathlib.joinpath (Pathlib.joinpath BASE_DIR reciter) (pretty surah_num))
    (pretty verse_num +:+ ".mp3").

Fixpoint no_slash (s : string) : bool :=
  match s with
  | EmptyString => true
  | String c s' => negb (Ascii.eqb c "/"%char) && no_slash s'
  end.

(** A string that is one component of a path and stays one under pathlib:
    without a slash, and not empty, "." or "..". *)
Definition path_component (s : string) : bool :=
  no_slash s && negb (String.eqb s "") && negb (String.eqb s ".")
  && negb (String.eqb s "..").

(** The characters of [str(n)] for an integer [n]: digits and the sign. *)
Definition numeric_char (c : ascii) : bool :=
  Ascii.eqb c "-"%char || (Ascii.leb "0"%char c && Ascii.leb c "9"%char).

Fixpoint numeric (s : string) : bool :=
  match s with
  | EmptyString => true
  | String c s' => numeric_char c && numeric s'
  end.

(** ** What a run is expected to do, read off the mirror and the endpoint *)

(** The endpoint answers the URL with status 200 and a body that arrives. *)
Definition serves (server : string → response) (url : string) : bool :=
  match server url with
  | Response status (Body _) => bool_decide (status = 200)
  | _ => false
  end.

(** The three tags of lines 137-139. *)
Inductive tag :=
| Skipped
| Downloaded
| Failed.

#[global] Instance tag_eq_dec : EqDecision tag.
Proof. solve_decision. Defined.

(** The tag of a verse, from the mirror the run finds and the endpoint. *)
Definition expected (server : string → response) (m : gmap (list string) node)
  (reciter : string) (surah_num verse_num : Z) : tag :=
  if bool_decide (is_Some (m !! get_download_path reciter surah_num verse_num))
  then Skipped
  else if serves server
            (verse_url reciter (calculate_global_verse_number surah_num verse_num))
       then Downloaded
       else Failed.

Definition tag_count (t : tag) (l : list tag) : Z :=
  Py.count (λ x, bool_decide (x = t)) l.

(** [range(1, verse_count + 1)] for a surah (line 129). *)
Definition surah_verses (surah_num : Z) : list Z :=
  Py.range 1 (item_count VERSE_COUNTS surah_num + 1).

(** The tags of the verses in the order [download_all] visits them. *)
Definition surah_tags (server : string → response) (m : gmap (list string) node)
  (reciter : string) (surah_num : Z) : list tag :=
  expected server m reciter surah_num <$> surah_verses surah_num.

Definition surahs_tags (server : string → response) (m : gmap (list string) node)
  (reciter : string) (ss : list Z) : list tag :=
  concat (surah_tags server m reciter <$> ss).

Definition run_tags (server : string → response) (m : gmap (list string) node)
  (rs : list string) : list tag :=
  concat ((λ reciter, surahs_tags server m reciter (Py.range 1 115)) <$> rs).

(** The URLs requested, and the surah numbers of the progress lines. *)
Definition gets (tr : list event) : list string :=
  omap (λ e, match e with EGet url => Some url | _ => None end) tr.

Definition progress_surahs (tr : list event) : list Z :=
  omap (λ e, match e with EProgress s _ _ _ _ => Some s | _ => None end) tr.

(** The events of the loops of [download_all]: everything but the session
    events and the summary. *)
Definition is_loop_event (e : event) : bool :=
  match e with
  | ESessionOpen | ESessionClose | ESummary _ _ _ _ => false
  | _ => true
  end.

(** The events of the transfer units. *)
Definition is_unit_event (e : event) : bool :=
  match e with
  | ESessionOpen | ESessionClose | ESummary _ _ _ _ | EProgress _ _ _ _ _ => false
  | _ => true
  end.

(** From [st] to [st'] only events of the kind [P] were added, the session
    is as it was, nothing on the mirror was lost or changed, and what is new
    on the mirror lies on the way to some verse file. *)
Definition steps (P : event → bool) (st st' : state) : Prop :=
  session st' = session st
  ∧ (∀ q x, fs st !! q = Some x → fs st' !! q = Some x)
  ∧ (∀ q, fs st' !! q = fs st !! q
          ∨ (fs st !! q = None ∧ ∃ r s v, q `prefix_of` get_download_path r s v))
  ∧ ∃ evs, trace st' = trace st ++ evs ∧ Forall (λ e, P e = true) evs.

(** From [st] to [st'] the script went through units with the tags [tags]
    and printed the progress lines of the surahs [ss], in good order: no
    interrupt is due, the directories are free, the session is open, the
    totals have grown by the counts of the tags, nothing on the mirror was
    lost, and one request was sent for each unit that was not skipped. *)
Definition ran (st st' : state) (tags : list tag) (ss : list Z) : Prop :=
  sigint st' = None ∧ dirs_free (fs st') ∧ session st' = Open
  ∧ total_downloaded st' = total_downloaded st + tag_count Downloaded tags
  ∧ total_skipped st' = total_skipped st + tag_count Skipped tags
  ∧ total_failed st' = total_failed st + tag_count Failed tags
  ∧ (∀ q x, fs st !! q = Some x → fs st' !! q = Some x)
  ∧ ∃ evs, trace st' = trace st ++ evs
           ∧ Py.count is_get evs = tag_count Downloaded tags + tag_count Failed tags
           ∧ progress_surahs evs = ss.

(** The units of a run, in the order [download_all] visits them: reciters,
    then surahs 1 to 114, then the verses of the surah (lines 161-166 and
    129). *)
Definition run_units (rs : list string) : list (string * Z * Z) :=
  concat ((λ reciter,
             concat ((λ surah_num, (λ verse_num, (reciter, surah_num, verse_num))
                                   <$> surah_verses surah_num)
                     <$> Py.range 1 115)) <$> rs).

Definition unit_tag (server : string → response) (m : gmap (list string) node)
  (u : string * Z * Z) : tag :=
  expected server m u.1.1 u.1.2 u.2.

(** ** The tasks under the semaphore, to their end *)

(** Every task has run all its effects. *)
Definition all_done (s : Limiter.sched) : Prop :=
  Forall (λ t, Limiter.todo t = []) (Limiter.tasks s).

(** The effects still to come, over all tasks. *)
Definition pending (s : Limiter.sched) : Z :=
  Py.sum ((λ t, Z.of_nat (length (Limiter.todo t))) <$> Limiter.tasks s).

(** The effects of a task, done and to come. *)
Definition events_of (t : Limiter.task) : list event :=
  Limiter.done t ++ Limiter.todo t.

(** * Facts about the Python primitives *)

Lemma sum_app (l l' : list Z) : Py.sum (l ++ l') = Py.sum l + Py.sum l'.
Proof. unfold Py.sum. induction l as [|x l IH]; simpl; lia. Qed.

Lemma sum_cons (k : Z) (l : list Z) : Py.sum (k :: l) = k + Py.sum l.
Proof. reflexivity. Qed.

Lemma sum_nonneg (l : list Z) : Forall (λ k, 0 <= k) l → 0 <= Py.sum l.
Proof. unfold Py.sum. induction 1; simpl; lia. Qed.

Lemma slice_to_nonneg {A} (l : list A) (k : Z) :
  0 <= k → Py.slice_to l k = take (Z.to_nat k) l.
Proof. intros Hk. unfold Py.slice_to. by destruct (decide (0 <= k)). Qed.

Lemma index_nonneg {A} (l : list A) (i : Z) :
  0 <= i → Py.index l i = l !! Z.to_nat i.
Proof. intros Hi. unfold Py.index. by destruct (decide (0 <= i)). Qed.

Lemma range_length (a b : Z) : length (Py.range a b) = Z.to_nat (b - a).
Proof. unfold Py.range. by rewrite length_fmap, length_seq. Qed.

Lemma range_snoc (a b : Z) : a <= b → Py.range a (b + 1) = Py.range a b ++ [b].
Proof.
  intros Hab. unfold Py.range.
  replace (Z.to_nat (b + 1 - a)) with (S (Z.to_nat (b - a))) by lia.
  rewrite seq_S, fmap_app. simpl. do 2 f_equal. lia.
Qed.

Lemma elem_of_range (a b x : Z) : x ∈ Py.range a b ↔ a <= x < b.
Proof.
  unfold Py.range. rewrite list_elem_of_fmap. split.
  - intros (i & -> & Hi). apply elem_of_seq in Hi. lia.
  - intros Hx. exists (Z.to_nat (x - a)). split; [lia|]. apply elem_of_seq. lia.
Qed.

Lemma range_NoDup (a b : Z) : NoDup (Py.range a b).
Proof.
  unfold Py.range. apply NoDup_fmap_2; [|apply NoDup_seq].
  intros i j Hij. lia.
Qed.

Lemma count_app {A} (p : A → bool) (l l' : list A) :
  Py.count p (l ++ l') = Py.count p l + Py.count p l'.
Proof. unfold Py.count. by rewrite fmap_app, sum_app. Qed.

Lemma count_cons {A} (p : A → bool) (x : A) (l : list A) :
  Py.count p (x :: l) = (if p x then 1 else 0) + Py.count p l.
Proof. reflexivity. Qed.

Lemma count_bounds {A} (p : A → bool) (l : list A) :
  0 <= Py.count p l <= Z.of_nat (length l).
Proof.
  induction l as [|x l IH]; [done|].
  rewrite count_cons. simpl length. destruct (p x); lia.
Qed.

(** * The address model *)

Section AddressFacts.

Variable counts : list Z.
Hypothesis counts_pos : Forall (λ k, 0 < k) counts.

Lemma verses_before_S (m : nat) (k : Z) :
  counts !! m = Some k → verses_before counts (S m) = verses_before counts m + k.
Proof.
  intros Hk. unfold verses_before. erewrite take_S_r by done.
  rewrite sum_app. simpl. lia.
Qed.

Lemma counts_lookup_pos (m : nat) (k : Z) : counts !! m = Some k → 0 < k.
Proof. intros Hk. eapply (Forall_lookup_1 _ _ _ _ counts_pos Hk). Qed.

Lemma verses_before_mono (m m' : nat) :
  (m <= m')%nat → verses_before counts m <= verses_before counts m'.
Proof.
  induction 1 as [|m' _ IH]; [lia|].
  destruct (counts !! m') as [k|] eqn:Hk.
  - rewrite (verses_before_S _ _ Hk). pose proof (counts_lookup_pos _ _ Hk). lia.
  - unfold verses_before in *. apply lookup_ge_None in Hk.
    rewrite (take_ge counts (S m')) by lia.
    by rewrite (take_ge counts m') in IH by lia.
Qed.

Lemma verses_before_all (m : nat) : verses_before counts m <= Py.sum counts.
Proof.
  destruct (decide (m <= length counts)%nat) as [Hm|Hm].
  - etrans; [apply (verses_before_mono _ _ Hm)|]. unfold verses_before.
    by rewrite firstn_all.
  - unfold verses_before. rewrite take_ge by lia. done.
Qed.

Lemma item_count_lookup (c : Z) :
  1 <= c → item_count counts c = default 0 (counts !! Z.to_nat (c - 1)).
Proof. intros Hc. unfold item_count. by rewrite index_nonneg by lia. Qed.

Lemma valid_pair_lookup (c i : Z) :
  valid_pair counts c i →
  ∃ k, counts !! Z.to_nat (c - 1) = Some k ∧ item_count counts c = k ∧ 1 <= i <= k.
Proof.
  intros [[Hc1 Hc2] Hi]. rewrite item_count_lookup in Hi |- * by done.
  destruct (lookup_lt_is_Some_2 counts (Z.to_nat (c - 1))) as [k Hk]; [lia|].
  rewrite Hk in Hi |- *. eauto.
Qed.

Lemma global_number_prefix (c i : Z) :
  1 <= c → global_number counts c i = verses_before counts (Z.to_nat (c - 1)) + i.
Proof. intros Hc. unfold global_number. by rewrite slice_to_nonneg by lia. Qed.

(** The code's prefix sum is the spec's sum over the earlier collections. *)
Lemma verses_before_spec (m : nat) :
  (m <= length counts)%nat →
  verses_before counts m = Py.sum (item_count counts <$> Py.range 1 (Z.of_nat m + 1)).
Proof.
  induction m as [|m IH]; intros Hm; [done|].
  destruct (lookup_lt_is_Some_2 counts m) as [k Hk]; [lia|].
  rewrite (verses_before_S _ _ Hk), IH by lia.
  replace (Z.of_nat (S m) + 1) with ((Z.of_nat m + 1) + 1) by lia.
  rewrite (range_snoc 1 (Z.of_nat m + 1)), fmap_app, sum_app by lia. simpl.
  rewrite item_count_lookup by lia.
  replace (Z.to_nat (Z.of_nat m + 1 - 1)) with m by lia. rewrite Hk. simpl. lia.
Qed.

Lemma global_number_spec (c i : Z) :
  1 <= c <= Z.of_nat (length counts) →
  global_number counts c i = spec_global_index counts c i.
Proof.
  intros Hc. rewrite global_number_prefix by lia. unfold spec_global_index.
  rewrite verses_before_spec by lia.
  by replace (Z.of_nat (Z.to_nat (c - 1)) + 1) with c by lia.
Qed.

Lemma global_number_succ (c : Z) :
  1 <= c < Z.of_nat (length counts) →
  global_number counts (c + 1) 1 = 1 + global_number counts c (item_count counts c).
Proof.
  intros Hc. rewrite !global_number_prefix by lia.
  destruct (lookup_lt_is_Some_2 counts (Z.to_nat (c - 1))) as [k Hk]; [lia|].
  rewrite item_count_lookup by lia. rewrite Hk. simpl.
  replace (Z.to_nat (c + 1 - 1)) with (S (Z.to_nat (c - 1))) by lia.
  rewrite (verses_before_S _ _ Hk). lia.
Qed.

Lemma global_number_bounds (c i : Z) :
  valid_pair counts c i →
  verses_before counts (Z.to_nat (c - 1)) < global_number counts c i
  ∧ global_number counts c i <= verses_before counts (S (Z.to_nat (c - 1))).
Proof.
  intros Hv. pose proof Hv as [[Hc1 Hc2] _].
  destruct (valid_pair_lookup _ _ Hv) as (k & Hk & _ & Hi).
  rewrite global_number_prefix, (verses_before_S _ _ Hk) by lia. lia.
Qed.

Lemma global_number_range (c i : Z) :
  valid_pair counts c i → 1 <= global_number counts c i <= Py.sum counts.
Proof.
  intros Hv. destruct (global_number_bounds _ _ Hv) as [Hlo Hhi].
  pose proof (verses_before_mono 0 (Z.to_nat (c - 1)) ltac:(lia)) as H0.
  pose proof (verses_before_all (S (Z.to_nat (c - 1)))).
  unfold verses_before in H0 at 1. simpl in H0. lia.
Qed.

Lemma global_number_inj (c i c' i' : Z) :
  valid_pair counts c i → valid_pair counts c' i' →
  global_number counts c i = global_number counts c' i' → c = c' ∧ i = i'.
Proof.
  intros Hv Hv' Heq.
  destruct (global_number_bounds _ _ Hv) as [Hlo Hhi].
  destruct (global_number_bounds _ _ Hv') as [Hlo' Hhi'].
  pose proof Hv as [[Hc1 _] _]. pose proof Hv' as [[Hc1' _] _].
  assert (c = c') as ->.
  { destruct (Z.lt_trichotomy c c') as [Hlt|[->|Hlt]]; [|done|].
    - pose proof (verses_before_mono (S (Z.to_nat (c - 1))) (Z.to_nat (c' - 1)) ltac:(lia)). lia.
    - pose proof (verses_before_mono (S (Z.to_nat (c' - 1))) (Z.to_nat (c - 1)) ltac:(lia)). lia. }
  split; [done|]. rewrite !global_number_prefix in Heq by lia. lia.
Qed.

(** [locate_from] inverts the running sum. *)
Lemma locate_from_spec (l : list Z) (c0 n : Z) :
  Forall (λ k, 0 < k) l → 1 <= n <= Py.sum l →
  ∃ m : nat, ∃ k : Z,
    locate_from l c0 n = (c0 + Z.of_nat m, n - Py.sum (take m l))
    ∧ l !! m = Some k ∧ 1 <= n - Py.sum (take m l) <= k.
Proof.
  intros Hpos. revert c0 n.
  induction Hpos as [|k l Hk Hpos IH]; intros c0 n Hn.
  { change (Py.sum []) with 0 in Hn. lia. }
  rewrite sum_cons in Hn. cbn [locate_from].
  destruct (decide (n <= k)) as [Hle|Hgt].
  - exists 0%nat, k. change (Py.sum (take 0 (k :: l))) with 0.
    split_and!; [f_equal; lia|done|lia|lia].
  - destruct (IH (c0 + 1) (n - k)) as (m & k' & Hloc & Hlk & Hb); [lia|].
    exists (S m), k'. rewrite Hloc.
    change (take (S m) (k :: l)) with (k :: take m l). rewrite sum_cons.
    split_and!; [f_equal; lia|done|lia|lia].
Qed.

Lemma global_number_surj (n : Z) :
  1 <= n <= Py.sum counts →
  valid_pair counts (locate_from counts 1 n).1 (locate_from counts 1 n).2
  ∧ global_number counts (locate_from counts 1 n).1 (locate_from counts 1 n).2 = n.
Proof.
  intros Hn.
  destruct (locate_from_spec counts 1 n counts_pos Hn) as (m & k & -> & Hk & Hb).
  simpl. pose proof (lookup_lt_Some _ _ _ Hk) as Hm. split.
  - split; [lia|]. rewrite item_count_lookup by lia.
    replace (Z.to_nat (1 + Z.of_nat m - 1)) with m by lia. by rewrite Hk.
  - rewrite global_number_prefix by lia. unfold verses_before.
    replace (Z.to_nat (1 + Z.of_nat m - 1)) with m by lia. lia.
Qed.

End AddressFacts.

(** ** The table of the script *)

Lemma VERSE_COUNTS_pos : Forall (λ k, 0 < k) VERSE_COUNTS.
Proof. unfold VERSE_COUNTS. repeat (constructor; [reflexivity|]). constructor. Qed.

Lemma VERSE_COUNTS_length : length VERSE_COUNTS = 114%nat.
Proof. reflexivity. Qed.

Lemma VERSE_COUNTS_sum : Py.sum VERSE_COUNTS = 6236.
Proof. reflexivity. Qed.

Lemma valid_pair_VERSE_COUNTS (c i : Z) :
  1 <= c <= 114 → 1 <= i <= item_count VERSE_COUNTS c → valid_pair VERSE_COUNTS c i.
Proof. intros Hc Hi. split; [|done]. rewrite VERSE_COUNTS_length. lia. Qed.

(** C1. For a valid pair (collection [c] in 1..114, item [i] in
    1..item_count c) the global verse number is the sum of the item counts of
    the collections before [c], plus [i]; it grows strictly with the item
    inside a collection; the first number of collection [c + 1] is one more
    than the last number of collection [c]; and the numbers of the valid
    pairs are exactly 1..6236, each taken once. *)
Theorem global_verse_number_bijection (c i : Z) :
  1 <= c <= 114 → 1 <= i <= item_count VERSE_COUNTS c →
  calculate_global_verse_number c i = spec_global_index VERSE_COUNTS c i
  ∧ (∀ j, i < j <= item_count VERSE_COUNTS c →
       calculate_global_verse_number c i < calculate_global_verse_number c j)
  ∧ (c < 114 →
       calculate_global_verse_number (c + 1) 1
       = 1 + calculate_global_verse_number c (item_count VERSE_COUNTS c))
  ∧ 1 <= calculate_global_verse_number c i <= 6236
  ∧ (∀ c' i', 1 <= c' <= 114 → 1 <= i' <= item_count VERSE_COUNTS c' →
       calculate_global_verse_number c' i' = calculate_global_verse_number c i →
       c' = c ∧ i' = i)
  ∧ (∀ n, 1 <= n <= 6236 →
       ∃ c' i', (1 <= c' <= 114 ∧ 1 <= i' <= item_count VERSE_COUNTS c')
                ∧ calculate_global_verse_number c' i' = n).
Proof.
  intros Hc Hi. unfold calculate_global_verse_number.
  pose proof (valid_pair_VERSE_COUNTS c i Hc Hi) as Hv.
  split_and!.
  - apply global_number_spec. rewrite VERSE_COUNTS_length. lia.
  - intros j Hj. unfold global_number. lia.
  - intros Hlt. apply global_number_succ. rewrite VERSE_COUNTS_length. lia.
  - apply (global_number_range VERSE_COUNTS VERSE_COUNTS_pos c i Hv).
  - rewrite <- VERSE_COUNTS_sum.
    apply (global_number_range VERSE_COUNTS VERSE_COUNTS_pos c i Hv).
  - intros c' i' Hc' Hi' Heq.
    apply (global_number_inj VERSE_COUNTS VERSE_COUNTS_pos); [|done..].
    by apply valid_pair_VERSE_COUNTS.
  - intros n Hn. rewrite <- VERSE_COUNTS_sum in Hn.
    destruct (global_number_surj VERSE_COUNTS VERSE_COUNTS_pos n Hn) as [[Hc' Hi'] Hg].
    rewrite VERSE_COUNTS_length in Hc'.
    exists (locate_from VERSE_COUNTS 1 n).1, (locate_from VERSE_COUNTS 1 n).2.
    split_and!; try done; lia.
Qed.

Lemma global_verse_number_bijection_witness :
  calculate_global_verse_number 2 1 = spec_global_index VERSE_COUNTS 2 1
  ∧ calculate_global_verse_number 2 1 = 8
  ∧ calculate_global_verse_number 3 1
    = 1 + calculate_global_verse_number 2 (item_count VERSE_COUNTS 2).
Proof.
  assert (H1 : 1 <= 2 <= 114) by lia.
  assert (H2 : 1 <= 1 <= item_count VERSE_COUNTS 2) by (vm_compute; split; discriminate).
  destruct (global_verse_number_bijection 2 1 H1 H2) as (Hspec & _ & Hnext & _).
  split; [exact Hspec|]. split; [reflexivity|]. apply Hnext. lia.
Defined.

(** * The mirror: paths and directories *)

Lemma string_app_length (s t : string) :
  String.length (s +:+ t) = (String.length s + String.length t)%nat.
Proof. induction s as [|a s IH]; simpl; [done|]. by rewrite IH. Qed.

Lemma string_app_inv_tail (s1 s2 t : string) : s1 +:+ t = s2 +:+ t → s1 = s2.
Proof.
  revert s2. induction s1 as [|a s1 IH]; intros [|b s2] H.
  - done.
  - apply (f_equal String.length) in H.
    rewrite !string_app_length in H. simpl in H. lia.
  - apply (f_equal String.length) in H.
    rewrite !string_app_length in H. simpl in H. lia.
  - cbn in H. injection H as -> H. f_equal. by apply IH.
Qed.

Lemma download_path_length (reciter : string) (surah_num verse_num : Z) :
  length (get_download_path reciter surah_num verse_num) = 12%nat.
Proof. reflexivity. Qed.

Lemma surah_dir_length (reciter : string) (surah_num : Z) :
  length (surah_dir reciter surah_num) = 11%nat.
Proof. reflexivity. Qed.

Lemma parent_download_path (reciter : string) (surah_num verse_num : Z) :
  parent (get_download_path reciter surah_num verse_num) = surah_dir reciter surah_num.
Proof. reflexivity. Qed.

(** Distinct (reciter, surah, verse) triples have distinct files. *)
Lemma download_path_inj (r r' : string) (s s' v v' : Z) :
  get_download_path r s v = get_download_path r' s' v' → r = r' ∧ s = s' ∧ v = v'.
Proof.
  unfold get_download_path. intros H. apply app_inv_head in H.
  injection H as -> Hs Hv. split; [done|]. split.
  - by apply (inj pretty).
  - apply string_app_inv_tail in Hv. by apply (inj pretty).
Qed.

Lemma download_path_not_dir (r r' : string) (s s' v : Z) (q : list string) :
  q `prefix_of` surah_dir r' s' → q ≠ get_download_path r s v.
Proof.
  intros Hq ->. apply prefix_length in Hq.
  rewrite download_path_length, surah_dir_length in Hq. lia.
Qed.

Lemma mkdir1_Some (m m' : gmap (list string) node) (p : list string) :
  mkdir1 m p = Some m' →
  (m !! p = Some Dir ∧ m' = m) ∨ (m !! p = None ∧ m' = <[p := Dir]> m).
Proof.
  unfold mkdir1. destruct (m !! p) as [[|c]|]; intros H; simplify_eq; auto.
Qed.

(** [mkdirs] adds directories along its path, and nothing else. *)
Lemma mkdirs_lookup (m m' : gmap (list string) node) (above below q : list string) :
  mkdirs m above below = Some m' →
  m' !! q = m !! q
  ∨ (m !! q = None ∧ m' !! q = Some Dir
     ∧ ∃ n, (0 < n <= length below)%nat ∧ q = above ++ take n below).
Proof.
  revert m above. induction below as [|c below IH]; intros m above H; simpl in H.
  { simplify_eq. by left. }
  destruct (mkdir1 m (above ++ [c])) as [m1|] eqn:H1; [|done].
  assert (Hshift : ∀ n, (above ++ [c]) ++ take n below = above ++ take (S n) (c :: below)).
  { intros n. by rewrite <- app_assoc. }
  destruct (IH _ _ H) as [Heq|(Hnone & Hdir & n & Hn & ->)];
    destruct (mkdir1_Some _ _ _ H1) as [[Hd ->]|[Hd ->]].
  - by left.
  - destruct (decide (q = above ++ [c])) as [->|Hne].
    + right. rewrite Heq, lookup_insert_eq. split_and!; [done..|].
      exists 1%nat. simpl. split; [lia|]. by rewrite take_0.
    + left. by rewrite Heq, lookup_insert_ne.
  - right. split_and!; [done..|]. exists (S n). rewrite Hshift. simpl. split; [lia|done].
  - right. rewrite lookup_insert_None in Hnone. destruct Hnone as [Hnone Hne].
    split_and!; [done..|]. exists (S n). rewrite Hshift. simpl. split; [lia|done].
Qed.

Lemma mkdirs_keeps (m m' : gmap (list string) node) (above below q : list string) (x : node) :
  mkdirs m above below = Some m' → m !! q = Some x → m' !! q = Some x.
Proof.
  intros H Hq. destruct (mkdirs_lookup _ _ _ _ q H) as [Heq|(Hnone & _)]; congruence.
Qed.

Lemma mkdirs_makes (m m' : gmap (list string) node) (above below : list string) :
  mkdirs m above below = Some m' → below ≠ [] → m' !! (above ++ below) = Some Dir.
Proof.
  revert m above. induction below as [|c below IH]; intros m above H Hne; [done|].
  simpl in H. destruct (mkdir1 m (above ++ [c])) as [m1|] eqn:H1; [|done].
  assert (m1 !! (above ++ [c]) = Some Dir) as Hc.
  { destruct (mkdir1_Some _ _ _ H1) as [[Hd ->]|[Hd ->]]; [done|apply lookup_insert_eq]. }
  destruct below as [|c' below].
  - simpl in H. by simplify_eq.
  - rewrite (cons_middle c), app_assoc. by apply (IH m1).
Qed.

Lemma mkdirs_is_Some (m : gmap (list string) node) (above below : list string) :
  (∀ n content, (0 < n <= length below)%nat →
     m !! (above ++ take n below) ≠ Some (File content)) →
  is_Some (mkdirs m above below).
Proof.
  revert m above. induction below as [|c below IH]; intros m above Hfree; simpl; [done|].
  assert (Hc : ∀ content, m !! (above ++ [c]) ≠ Some (File content)).
  { intros content. apply (Hfree 1%nat). simpl. lia. }
  assert (∃ m1, mkdir1 m (above ++ [c]) = Some m1
                ∧ ∀ q content, m1 !! q = Some (File content) → m !! q = Some (File content))
    as (m1 & -> & Hm1).
  { unfold mkdir1. destruct (m !! (above ++ [c])) as [[|content]|] eqn:Hl.
    - eauto.
    - by destruct (Hc content).
    - eexists. split; [done|]. intros q content Hq.
      rewrite lookup_insert in Hq. by case_decide. }
  apply IH. intros n content Hn Hq. apply Hm1 in Hq.
  rewrite <- app_assoc in Hq. by apply (Hfree (S n) content); [simpl; lia|].
Qed.

Lemma dirs_free_mkdirs (m : gmap (list string) node) (reciter : string) (surah_num : Z) :
  dirs_free m → is_Some (mkdirs m [] (surah_dir reciter surah_num)).
Proof.
  intros Hfree. apply mkdirs_is_Some. intros n content _.
  apply (Hfree reciter surah_num). apply prefix_take.
Qed.

Lemma dirs_free_after_mkdirs (m m' : gmap (list string) node) (above below : list string) :
  dirs_free m → mkdirs m above below = Some m' → dirs_free m'.
Proof.
  intros Hfree H r s q content Hq Hl.
  destruct (mkdirs_lookup _ _ _ _ q H) as [Heq|(_ & Hdir & _)]; [|congruence].
  rewrite Heq in Hl. by apply (Hfree r s q content).
Qed.

Lemma dirs_free_after_write (m : gmap (list string) node)
  (reciter : string) (surah_num verse_num : Z) (x : node) :
  dirs_free m → dirs_free (<[get_download_path reciter surah_num verse_num := x]> m).
Proof.
  intros Hfree r s q content Hq.
  rewrite lookup_insert_ne; [by apply (Hfree r s)|].
  intros Heq. by apply (download_path_not_dir reciter r surah_num s verse_num q).
Qed.

Lemma dirs_free_empty : dirs_free ∅.
Proof. intros r s q content _. by rewrite lookup_empty. Qed.

(** Creating the surah directory leaves every file path as it was. *)
Lemma mkdirs_download_path (m m' : gmap (list string) node)
  (r r' : string) (s s' v : Z) :
  mkdirs m [] (surah_dir r' s') = Some m' →
  m' !! get_download_path r s v = m !! get_download_path r s v.
Proof.
  intros H. destruct (mkdirs_lookup _ _ _ _ (get_download_path r s v) H)
    as [Heq|(_ & _ & n & Hn & Hq)]; [done|].
  exfalso. apply (download_path_not_dir r r' s s' v (get_download_path r s v)); [|done].
  rewrite Hq. apply prefix_take.
Qed.

Lemma verse_url_inj (reciter : string) (g g' : Z) :
  verse_url reciter g = verse_url reciter g' → g = g'.
Proof.
  unfold verse_url. intros H.
  do 4 apply (inj (String.app _)) in H.
  apply string_app_inv_tail in H. by apply (inj pretty).
Qed.

(** * The transfer unit *)

#[local] Opaque get_download_path surah_dir verse_url.

(** Every call of [download_verse] takes one of the four paths. *)
Lemma download_verse_path (server : string → response) (st : state)
  (reciter : string) (surah_num verse_num global_verse_num : Z) :
  ∃ r m evs,
    download_verse server reciter surah_num verse_num global_verse_num st
    = (r, after st m evs)
    ∧ unit_path server st reciter surah_num verse_num global_verse_num r m evs.
Proof.
  unfold download_verse. unfold_script. rewrite !parent_download_path. simpl.
  destruct (fs st !! get_download_path reciter surah_num verse_num) as [x|] eqn:Hp.
  { rewrite bool_decide_eq_true_2 by eauto. simpl.
    eexists _, _, _. split; [|by apply path_skipped; eauto].
    unfold after. by rewrite <- !app_assoc. }
  rewrite bool_decide_eq_false_2 by (by intros [? ?]). simpl.
  destruct (mkdirs (fs st) [] (surah_dir reciter surah_num)) as [m|] eqn:Hm; simpl.
  2:{ eexists _, _, _. split; [|by apply path_mkdir_error].
      unfold after. by rewrite <- !app_assoc. }
  assert (Hfile : m !! get_download_path reciter surah_num verse_num = None).
  { by rewrite (mkdirs_download_path _ _ _ _ _ _ _ Hm). }
  assert (Hdir : m !! surah_dir reciter surah_num = Some Dir).
  { apply (mkdirs_makes _ _ [] _ Hm). by intros H%(f_equal length). }
  assert (Hfail : ∀ msg,
    (∀ content, ¬ delivers server st (verse_url reciter global_verse_num) content) →
    ∃ r m0 evs,
      (Ret (false, msg),
       after st m ([ EAcquire;
                     EExists (get_download_path reciter surah_num verse_num) false;
                     EMkdir (surah_dir reciter surah_num); ESleep REQUEST_DELAY ]
                   ++ (if is_open (session st)
                       then [ EGet (verse_url reciter global_verse_num) ] else [])
                   ++ [ ERelease; EReturn (false, msg) ]))
      = (r, after st m0 evs)
      ∧ unit_path server st reciter surah_num verse_num global_verse_num r m0 evs).
  { intros msg Hno. eexists _, _, _. split; [done|]. by apply path_failed. }
  destruct (session st) eqn:Hs; simpl.
  { destruct (Hfail "'NoneType' object has no attribute 'get'"%string)
      as (r & m0 & evs & Heq & Hpath).
    { intros content [? _]. congruence. }
    exists r, m0, evs. split; [|done]. rewrite <- Heq.
    unfold after. simpl. by rewrite <- !app_assoc. }
  2:{ destruct (Hfail "Session is closed"%string) as (r & m0 & evs & Heq & Hpath).
      { intros content [? _]. congruence. }
      exists r, m0, evs. split; [|done]. rewrite <- Heq.
      unfold after. simpl. by rewrite <- !app_assoc. }
  destruct (server (verse_url reciter global_verse_num)) as [status b| |msg] eqn:Hsrv; simpl.
  - destruct (decide (status = 200)) as [->|Hstatus]; simpl.
    + destruct b as [content| |msg]; simpl.
      * rewrite Hfile, Hdir. simpl.
        eexists _, _, _. split; [|by apply path_downloaded].
        unfold after. simpl. by rewrite <- !app_assoc.
      * destruct (Hfail "timeout"%string) as (r & m0 & evs & Heq & Hpath).
        { intros content [_ ?]. congruence. }
        exists r, m0, evs. split; [|done]. rewrite <- Heq.
        unfold after. simpl. by rewrite <- !app_assoc.
      * destruct (Hfail msg) as (r & m0 & evs & Heq & Hpath).
        { intros content [_ ?]. congruence. }
        exists r, m0, evs. split; [|done]. rewrite <- Heq.
        unfold after. simpl. by rewrite <- !app_assoc.
    + destruct (Hfail ("HTTP " +:+ pretty status)) as (r & m0 & evs & Heq & Hpath).
      { intros content [_ ?]. congruence. }
      exists r, m0, evs. split; [|done]. rewrite <- Heq.
      unfold after. simpl. by rewrite <- !app_assoc.
  - destruct (Hfail "timeout"%string) as (r & m0 & evs & Heq & Hpath).
    { intros content [_ ?]. congruence. }
    exists r, m0, evs. split; [|done]. rewrite <- Heq.
    unfold after. simpl. by rewrite <- !app_assoc.
  - destruct (Hfail msg) as (r & m0 & evs & Heq & Hpath).
    { intros content [_ ?]. congruence. }
    exists r, m0, evs. split; [|done]. rewrite <- Heq.
    unfold after. simpl. by rewrite <- !app_assoc.
Qed.

Lemma download_verse_inv (server : string → response) (st st' : state)
  (reciter : string) (surah_num verse_num global_verse_num : Z) (r : res (bool * string)) :
  download_verse server reciter surah_num verse_num global_verse_num st = (r, st') →
  ∃ m evs, st' = after st m evs
           ∧ unit_path server st reciter surah_num verse_num global_verse_num r m evs.
Proof.
  intros H.
  destruct (download_verse_path server st reciter surah_num verse_num global_verse_num)
    as (r0 & m & evs & Heq & Hpath).
  rewrite Heq in H. simplify_eq. eauto.
Qed.

Lemma drop_trace_after (st : state) (m : gmap (list string) node) (evs : list event) :
  drop (length (trace st)) (trace (after st m evs)) = evs.
Proof. simpl. by rewrite drop_app_length. Qed.

Lemma unit_events_path (server : string → response) (st : state)
  (reciter : string) (surah_num verse_num global_verse_num : Z) :
  ∃ r m,
    download_verse server reciter surah_num verse_num global_verse_num st
    = (r, after st m (unit_events server st reciter surah_num verse_num global_verse_num))
    ∧ unit_path server st reciter surah_num verse_num global_verse_num r m
        (unit_events server st reciter surah_num verse_num global_verse_num).
Proof.
  destruct (download_verse_path server st reciter surah_num verse_num global_verse_num)
    as (r & m & evs & Heq & Hpath).
  exists r, m. unfold unit_events. rewrite Heq. simpl. by rewrite drop_app_length.
Qed.

Section UnitPaths.

Variable server : string → response.
Variables (st : state) (reciter : string) (surah_num verse_num global_verse_num : Z).
Variables (r : res (bool * string)) (m : gmap (list string) node) (evs : list event).
Hypothesis Hpath : unit_path server st reciter surah_num verse_num global_verse_num r m evs.

(** What is on the mirror stays, with its content. *)
Lemma unit_path_keeps (q : list string) (x : node) :
  fs st !! q = Some x → m !! q = Some x.
Proof.
  intros Hq. destruct Hpath as [Hp|Hp Hm|m1 content Hp Hm Hd|m1 msg Hp Hm Hd];
    try done; try by eapply mkdirs_keeps.
  rewrite lookup_insert_ne; [by eapply mkdirs_keeps|]. congruence.
Qed.

(** Other files are not touched. *)
Lemma unit_path_frame (r' : string) (s' v' : Z) :
  get_download_path r' s' v' ≠ get_download_path reciter surah_num verse_num →
  m !! get_download_path r' s' v' = fs st !! get_download_path r' s' v'.
Proof.
  intros Hne. destruct Hpath as [Hp|Hp Hm|m1 content Hp Hm Hd|m1 msg Hp Hm Hd];
    try done.
  - rewrite lookup_insert_ne by done. by eapply mkdirs_download_path.
  - by eapply mkdirs_download_path.
Qed.

(** Every change is a new directory on the way to the file, or the file. *)
Lemma unit_path_changes (q : list string) :
  m !! q = fs st !! q
  ∨ (fs st !! q = None ∧ m !! q = Some Dir ∧ q `prefix_of` surah_dir reciter surah_num)
  ∨ (fs st !! q = None ∧ q = get_download_path reciter surah_num verse_num
     ∧ r = Ret (true, "downloaded"%string)).
Proof.
  assert (Hmk : ∀ m1, mkdirs (fs st) [] (surah_dir reciter surah_num) = Some m1 →
    m1 !! q = fs st !! q
    ∨ (fs st !! q = None ∧ m1 !! q = Some Dir ∧ q `prefix_of` surah_dir reciter surah_num)).
  { intros m1 Hm. destruct (mkdirs_lookup _ _ _ _ q Hm) as [?|(? & ? & n & _ & ->)]; [by left|].
    right. split_and!; [done..|]. apply prefix_take. }
  destruct Hpath as [Hp|Hp Hm|m1 content Hp Hm Hd|m1 msg Hp Hm Hd]; try by left.
  - destruct (decide (q = get_download_path reciter surah_num verse_num)) as [->|Hne].
    + right; right. done.
    + rewrite lookup_insert_ne by done. destruct (Hmk _ Hm) as [?|?]; auto.
  - destruct (Hmk _ Hm) as [?|?]; auto.
Qed.

Lemma unit_path_dirs_free : dirs_free (fs st) → dirs_free m.
Proof.
  intros Hfree. destruct Hpath as [Hp|Hp Hm|m1 content Hp Hm Hd|m1 msg Hp Hm Hd];
    try done.
  - apply dirs_free_after_write. by eapply dirs_free_after_mkdirs.
  - by eapply dirs_free_after_mkdirs.
Qed.

(** With the directories free the unit returns; nothing is raised. *)
Lemma unit_path_returns : dirs_free (fs st) → ∃ x, r = Ret x.
Proof.
  intros Hfree. destruct Hpath as [Hp|Hp Hm|m1 content Hp Hm Hd|m1 msg Hp Hm Hd]; eauto.
  destruct (dirs_free_mkdirs (fs st) reciter surah_num Hfree) as [? ?]. congruence.
Qed.

(** A returned pair carries exactly one of the three tags. *)
Lemma unit_path_tag (x : bool * string) :
  r = Ret x →
  (if is_downloaded x then 1 else 0) + (if is_skipped x then 1 else 0)
  + (if is_failed x then 1 else 0) = 1.
Proof.
  intros ->. inversion Hpath; subst; reflexivity.
Qed.

Lemma unit_path_bracketed : bracketed evs.
Proof.
  destruct Hpath as [Hp|Hp Hm|m1 content Hp Hm Hd|m1 msg Hp Hm Hd].
  - exists [EExists (get_download_path reciter surah_num verse_num) true],
           [EReturn (true, "skipped"%string)].
    split_and!; [done|..]; by repeat constructor.
  - exists [EExists (get_download_path reciter surah_num verse_num) false;
            EMkdir (surah_dir reciter surah_num)], [].
    split_and!; [done|..]; by repeat constructor.
  - exists [EExists (get_download_path reciter surah_num verse_num) false;
            EMkdir (surah_dir reciter surah_num); ESleep REQUEST_DELAY;
            EGet (verse_url reciter global_verse_num);
            EWrite (get_download_path reciter surah_num verse_num) content],
           [EReturn (true, "downloaded"%string)].
    split_and!; [done|..]; by repeat constructor.
  - exists ([EExists (get_download_path reciter surah_num verse_num) false;
             EMkdir (surah_dir reciter surah_num); ESleep REQUEST_DELAY]
            ++ (if is_open (session st)
                 then [EGet (verse_url reciter global_verse_num)] else [])),
           [EReturn (false, msg)].
    split_and!; [by destruct (session st)|..]; destruct (session st); by repeat constructor.
Qed.

(** In the split of the results at the progress lines, the unit adds its
    result to the open part, and only if it returns. *)
Lemma unit_path_settle (acc : list (bool * string) * list (bool * string)) :
  fold_left settle_step evs acc
  = match r with Ret x => (acc.1, acc.2 ++ [x]) | Raise _ => acc end.
Proof.
  destruct acc as [a b].
  destruct Hpath as [Hp|Hp Hm|m1 content Hp Hm Hd|m1 msg Hp Hm Hd]; try done.
  by destruct (session st).
Qed.

Lemma unit_path_present :
  is_Some (fs st !! get_download_path reciter surah_num verse_num) →
  r = Ret (true, "skipped"%string) ∧ m = fs st
  ∧ evs = [ EAcquire; EExists (get_download_path reciter surah_num verse_num) true;
            ERelease; EReturn (true, "skipped"%string) ].
Proof.
  intros [x Hx]. destruct Hpath as [Hp|Hp Hm|m1 content Hp Hm Hd|m1 msg Hp Hm Hd];
    [done|congruence..].
Qed.

Lemma unit_path_absent :
  fs st !! get_download_path reciter surah_num verse_num = None →
  dirs_free (fs st) →
  (r = Ret (true, "downloaded"%string)
   ∧ ∃ content, delivers server st (verse_url reciter global_verse_num) content
                ∧ m !! get_download_path reciter surah_num verse_num = Some (File content))
  ∨ ((∃ msg, r = Ret (false, msg))
     ∧ (∀ content, ¬ delivers server st (verse_url reciter global_verse_num) content)
     ∧ m !! get_download_path reciter surah_num verse_num = None).
Proof.
  intros Hnone Hfree.
  destruct Hpath as [Hp|Hp Hm|m1 content Hp Hm Hd|m1 msg Hp Hm Hd].
  - destruct Hp. congruence.
  - destruct (dirs_free_mkdirs (fs st) reciter surah_num Hfree) as [? ?]. congruence.
  - left. split; [done|]. exists content. split; [done|]. apply lookup_insert_eq.
  - right. split_and!; [eauto|done|]. by rewrite (mkdirs_download_path _ _ _ _ _ _ _ Hm).
Qed.

End UnitPaths.

(** * Properties of one transfer unit *)

Lemma count_nil {A} (p : A → bool) : Py.count p [] = 0.
Proof. reflexivity. Qed.

(** C2. If the target file exists when the transfer unit runs, the unit
    returns the skipped result, makes no network request and writes nothing
    (the mirror is unchanged, no directory is made). In every case the unit
    writes at most one file, writes it only where no file was, and leaves
    every entry that was on the mirror as it was. *)
Theorem existing_file_is_skipped (server : string → response) (st : state)
  (reciter : string) (surah_num verse_num global_verse_num : Z) :
  let p := get_download_path reciter surah_num verse_num in
  let run := download_verse server reciter surah_num verse_num global_verse_num st in
  let evs := unit_events server st reciter surah_num verse_num global_verse_num in
  (is_Some (fs st !! p) →
     run.1 = Ret (true, "skipped"%string) ∧ fs run.2 = fs st
     ∧ Forall (λ e, is_get e = false ∧ is_write e = false ∧ is_mkdir e = false) evs)
  ∧ Py.count is_write evs <= 1
  ∧ (∀ q content, EWrite q content ∈ evs → q = p ∧ fs st !! q = None)
  ∧ (∀ q x, fs st !! q = Some x → fs run.2 !! q = Some x).
Proof.
  intros p run evs.
  destruct (unit_events_path server st reciter surah_num verse_num global_verse_num)
    as (r & m & Hrun & Hpath).
  fold evs in Hrun, Hpath. fold run in Hrun. rewrite Hrun. simpl.
  split_and!.
  - intros Hp. destruct (unit_path_present _ _ _ _ _ _ _ _ _ Hpath Hp) as (-> & -> & ->).
    split_and!; [done..|]. by repeat constructor.
  - destruct Hpath; try done. by destruct (session st).
  - intros q content Hin.
    destruct Hpath as [Hp|Hp Hm|m1 c Hp Hm Hd|m1 msg Hp Hm Hd].
    + in_list Hin.
    + in_list Hin.
    + in_list Hin. done.
    + destruct (session st); in_list Hin.
  - intros q x. by apply (unit_path_keeps _ _ _ _ _ _ _ _ _ Hpath).
Qed.

Lemma existing_file_is_skipped_witness :
  (download_verse (always_200 []) "ar.alafasy" 1 1 1 (ready one_file_mirror)).1
  = Ret (true, "skipped"%string).
Proof.
  apply (existing_file_is_skipped (always_200 []) (ready one_file_mirror) "ar.alafasy" 1 1 1).
  unfold ready, one_file_mirror, mirror_with. simpl. rewrite lookup_insert_eq. eauto.
Defined.




(** C8, as the script has it. Every call takes a permit first and checks for
    the file while holding it; the permit is given back before the call
    returns; every GET lies between the two. When the file exists the call
    does nothing between taking the permit and giving it back but the check. *)
Theorem permit_taken_before_check (server : string → response) (st : state)
  (reciter : string) (surah_num verse_num global_verse_num : Z) :
  let p := get_download_path reciter surah_num verse_num in
  let evs := unit_events server st reciter surah_num verse_num global_verse_num in
  ∃ rest,
    evs = EAcquire :: EExists p (bool_decide (is_Some (fs st !! p))) :: rest
    ∧ ERelease ∈ rest
    ∧ bracketed evs
    ∧ (is_Some (fs st !! p) → rest = [ ERelease; EReturn (true, "skipped"%string) ]).
Proof.
  intros p evs.
  destruct (unit_events_path server st reciter surah_num verse_num global_verse_num)
    as (r & m & _ & Hpath).
  fold evs in Hpath. pose proof (unit_path_bracketed _ _ _ _ _ _ _ _ _ Hpath) as Hbr.
  destruct Hpath as [Hp|Hp Hm|m1 c Hp Hm Hd|m1 msg Hp Hm Hd]; fold p in Hp.
  - eexists. rewrite bool_decide_eq_true_2 by done.
    split_and!; [done| list_has | done | done].
  - eexists. rewrite bool_decide_eq_false_2 by (rewrite Hp; by intros [? ?]).
    split_and!; [done| list_has | done |]. rewrite Hp. by intros [? ?].
  - eexists. rewrite bool_decide_eq_false_2 by (rewrite Hp; by intros [? ?]).
    split_and!; [done| list_has | done |]. rewrite Hp. by intros [? ?].
  - eexists. rewrite bool_decide_eq_false_2 by (rewrite Hp; by intros [? ?]).
    split_and!; [done| destruct (session st); list_has | done |].
    rewrite Hp. by intros [? ?].
Qed.

Lemma permit_taken_before_check_witness :
  ∃ rest,
    unit_events (always_200 []) (ready one_file_mirror) "ar.alafasy" 1 1 1
    = EAcquire :: EExists (get_download_path "ar.alafasy" 1 1) true :: rest
    ∧ rest = [ ERelease; EReturn (true, "skipped"%string) ].
Proof.
  destruct (permit_taken_before_check (always_200 []) (ready one_file_mirror)
              "ar.alafasy" 1 1 1) as (rest & Hev & _ & _ & Hrest).
  assert (Hp : is_Some (fs (ready one_file_mirror) !! get_download_path "ar.alafasy" 1 1)).
  { unfold ready, one_file_mirror, mirror_with. simpl. rewrite lookup_insert_eq. eauto. }
  exists rest. rewrite bool_decide_eq_true_2 in Hev by exact Hp.
  split; [exact Hev|]. exact (Hrest Hp).
Defined.

(** The file is there, and the unit still takes a permit, before it looks. *)
Lemma permit_taken_for_existing_file :
  is_Some (fs (ready one_file_mirror) !! get_download_path "ar.alafasy" 1 1)
  ∧ unit_events (always_200 []) (ready one_file_mirror) "ar.alafasy" 1 1 1
    = [ EAcquire; EExists (get_download_path "ar.alafasy" 1 1) true;
        ERelease; EReturn (true, "skipped"%string) ].
Proof.
  split; [|by vm_compute].
  unfold ready, one_file_mirror, mirror_with. simpl. rewrite lookup_insert_eq. eauto.
Qed.

(** * One surah: [gather] and [download_surah] *)

Lemma extends_refl (st : state) : extends st st [].
Proof. unfold extends. by rewrite app_nil_r. Qed.

Lemma extends_trans (st st1 st2 : state) (evs1 evs2 : list event) :
  extends st st1 evs1 → extends st1 st2 evs2 → extends st st2 (evs1 ++ evs2).
Proof.
  intros (Hs1 & Ht1 & Htr1 & Hfs1) (Hs2 & Ht2 & Htr2 & Hfs2).
  split_and!; [congruence|congruence| |auto].
  by rewrite Htr2, Htr1, app_assoc.
Qed.

Lemma extends_set_sigint (st : state) (n : option nat) : extends st (set_sigint n st) [].
Proof. unfold extends. simpl. by rewrite app_nil_r. Qed.

Lemma extends_after (server : string → response) (st : state) (reciter : string)
  (surah_num verse_num global_verse_num : Z)
  (r : res (bool * string)) (m : gmap (list string) node) (evs : list event) :
  unit_path server st reciter surah_num verse_num global_verse_num r m evs →
  extends st (after st m evs) evs.
Proof.
  intros Hpath. split_and!; [done..|]. intros q x.
  by apply (unit_path_keeps _ _ _ _ _ _ _ _ _ Hpath).
Qed.

Lemma gather_cons {A} (t : M A) (tasks : list (M A)) (st : state) :
  gather (t :: tasks) st
  = match checkpoint st with
    | (Ret _, st0) =>
        match t st0 with
        | (Ret r, st1) =>
            match gather tasks st1 with
            | (Ret rs, st2) => (Ret (r :: rs), st2)
            | (Raise e, st2) => (Raise e, st2)
            end
        | (Raise e, st1) => (Raise e, st1)
        end
    | (Raise e, st0) => (Raise e, st0)
    end.
Proof.
  simpl. unfold mbind, M_bind, bind, mret, M_ret, ret.
  destruct (checkpoint st) as [[[]|e] st0]; [|done].
  destruct (t st0) as [[r|e] st1]; [|done].
  by destruct (gather tasks st1) as [[rs|e] st2].
Qed.

Lemma checkpoint_cases (st : state) :
  (∃ n, checkpoint st = (Ret (), set_sigint n st))
  ∨ checkpoint st = (Raise KeyboardInterrupt, st).
Proof.
  unfold checkpoint. destruct (sigint st) as [[|n]|] eqn:Hs; eauto.
  left. exists None. by destruct st; simpl in *; subst.
Qed.

Lemma tally_cons (x : bool * string) (rs : list (bool * string)) :
  Py.count is_downloaded (x :: rs) + Py.count is_skipped (x :: rs)
  + Py.count is_failed (x :: rs)
  = (if is_downloaded x then 1 else 0) + (if is_skipped x then 1 else 0)
    + (if is_failed x then 1 else 0)
    + (Py.count is_downloaded rs + Py.count is_skipped rs + Py.count is_failed rs).
Proof. rewrite !count_cons. lia. Qed.

(** Whatever the mirror, the endpoint and the interrupt: the units of a
    surah add events, and each unit that returns adds one result carrying
    one tag. *)
Lemma gather_units (server : string → response) (reciter : string) (surah_num : Z)
  (vs : list Z) (st st' : state) (res : res (list (bool * string))) :
  gather (verse_tasks server reciter surah_num vs) st = (res, st') →
  ∃ evs, extends st st' evs
    ∧ match res with
      | Ret rs =>
          length rs = length vs
          ∧ Py.count is_downloaded rs + Py.count is_skipped rs + Py.count is_failed rs
            = Z.of_nat (length vs)
          ∧ ∀ acc, fold_left settle_step evs acc = (acc.1, acc.2 ++ rs)
      | Raise _ => ∀ acc, (fold_left settle_step evs acc).1 = acc.1
      end.
Proof.
  revert st res st'. induction vs as [|v vs IH]; intros st res st' H.
  { simpl in H. unfold mret, M_ret, ret in H. simplify_eq.
    exists []. split; [apply extends_refl|]. split_and!; [done..|].
    intros [a b]. simpl. by rewrite app_nil_r. }
  change (verse_tasks server reciter surah_num (v :: vs))
    with (download_verse server reciter surah_num v
            (calculate_global_verse_number surah_num v)
          :: verse_tasks server reciter surah_num vs) in H.
  rewrite gather_cons in H.
  destruct (checkpoint_cases st) as [[n Hc]|Hc]; rewrite Hc in H.
  2:{ simplify_eq. exists []. split; [apply extends_refl|done]. }
  destruct (download_verse _ _ _ _ _ (set_sigint n st)) as [r st1] eqn:Hunit.
  destruct (download_verse_inv _ _ _ _ _ _ _ _ Hunit) as (m & evs1 & -> & Hpath).
  pose proof (extends_trans _ _ _ _ _ (extends_set_sigint st n)
                (extends_after _ _ _ _ _ _ _ _ _ Hpath)) as Hext1.
  simpl in Hext1.
  pose proof (unit_path_settle _ _ _ _ _ _ _ _ _ Hpath) as Hsettle.
  destruct r as [x|e].
  2:{ simplify_eq. exists evs1. split; [done|]. intros acc. by rewrite Hsettle. }
  destruct (gather _ (after (set_sigint n st) m evs1)) as [res2 st2] eqn:Hrest.
  destruct (IH _ _ _ Hrest) as (evs2 & Hext2 & Hres2).
  destruct res2 as [rs|e]; simplify_eq;
    (exists (evs1 ++ evs2); split; [apply (extends_trans _ _ _ _ _ Hext1 Hext2)|]).
  - destruct Hres2 as (Hlen & Hcount & Hfold). split_and!.
    + simpl. by rewrite Hlen.
    + rewrite tally_cons, Hcount, (unit_path_tag _ _ _ _ _ _ _ _ _ Hpath x eq_refl).
      simpl length. lia.
    + intros acc. rewrite fold_left_app, Hsettle, Hfold. simpl.
      by rewrite <- app_assoc.
  - intros acc. by rewrite fold_left_app, Hsettle, Hres2.
Qed.

Lemma checkpoint_uninterrupted (st : state) :
  sigint st = None → checkpoint st = (Ret (), st).
Proof. intros Hs. unfold checkpoint. by rewrite Hs. Qed.

Lemma download_path_differs (r r' : string) (s s' v v' : Z) :
  (r', s') ≠ (r, s) ∨ v' ≠ v → get_download_path r' s' v' ≠ get_download_path r s v.
Proof. intros Hne Heq. apply download_path_inj in Heq as (-> & -> & ->). by destruct Hne. Qed.

(** With the interrupt away and the directories free, every unit of the
    surah returns, and what it returns is read off the mirror the surah
    started on: the units work on files of their own. *)
Lemma gather_units_free (server : string → response) (reciter : string) (surah_num : Z)
  (vs : list Z) (st : state) :
  NoDup vs → sigint st = None → dirs_free (fs st) →
  ∃ rs st',
    gather (verse_tasks server reciter surah_num vs) st = (Ret rs, st')
    ∧ sigint st' = None ∧ dirs_free (fs st')
    ∧ (∀ r' s' v', (r', s') ≠ (reciter, surah_num) ∨ v' ∉ vs →
         fs st' !! get_download_path r' s' v' = fs st !! get_download_path r' s' v')
    ∧ (∀ i v r, vs !! i = Some v → rs !! i = Some r →
         unit_outcome server st st' reciter surah_num v r)
    ∧ ((∀ v, v ∈ vs → is_Some (fs st !! get_download_path reciter surah_num v)) →
       fs st' = fs st).
Proof.
  revert st. induction vs as [|v vs IH]; intros st Hnd Hsig Hfree.
  { exists [], st. split_and!; try done. }
  apply NoDup_cons in Hnd as [Hv Hnd].
  change (verse_tasks server reciter surah_num (v :: vs))
    with (download_verse server reciter surah_num v
            (calculate_global_verse_number surah_num v)
          :: verse_tasks server reciter surah_num vs).
  rewrite gather_cons, (checkpoint_uninterrupted st Hsig).
  destruct (download_verse server reciter surah_num v
              (calculate_global_verse_number surah_num v) st) as [r st1] eqn:Hunit.
  destruct (download_verse_inv _ _ _ _ _ _ _ _ Hunit) as (m & evs1 & -> & Hpath).
  destruct (unit_path_returns _ _ _ _ _ _ _ _ _ Hpath Hfree) as [x ->].
  pose proof (unit_path_dirs_free _ _ _ _ _ _ _ _ _ Hpath Hfree) as Hfree1.
  destruct (IH (after st m evs1) Hnd Hsig Hfree1)
    as (rs & st' & Hg & Hsig' & Hfree' & Hframe & Hout & Hsame).
  destruct (gather_units _ _ _ _ _ _ _ Hg) as (evs2 & (_ & _ & _ & Hkeep) & _).
  rewrite Hg. exists (x :: rs), st'. split_and!; [done..| | |].
  - intros r' s' v' Hne. rewrite Hframe.
    + simpl. apply (unit_path_frame _ _ _ _ _ _ _ _ _ Hpath).
      apply download_path_differs. destruct Hne as [Hne|Hne]; [by left|].
      right. intros ->. apply Hne. list_has.
    + destruct Hne as [Hne|Hne]; [by left|]. right. intros Hin. apply Hne.
      by apply list_elem_of_further.
  - intros [|i] v0 r0 Hv0 Hr0; simpl in Hv0, Hr0; simplify_eq.
    + unfold unit_outcome.
      destruct (fs st !! get_download_path reciter surah_num v0) as [y|] eqn:Hp.
      * left. split; [eauto|].
        destruct (unit_path_present _ _ _ _ _ _ _ _ _ Hpath) as (Hr & _); [by rewrite Hp|].
        by simplify_eq.
      * right. destruct (unit_path_absent _ _ _ _ _ _ _ _ _ Hpath Hp Hfree)
          as [(Hr & content & Hd & Hfile)|((msg & Hr) & Hd & Hfile)]; simplify_eq.
        -- left. split_and!; [done..|]. exists content. split; [done|].
           by apply Hkeep.
        -- right. split_and!; [done..|]. rewrite Hframe by (by right). done.
    + pose proof (Hout i v0 r0 Hv0 Hr0) as Ho.
      assert (Hne : v0 ≠ v).
      { intros ->. apply Hv. by eapply list_elem_of_lookup_2. }
      assert (Hfs : fs (after st m evs1) !! get_download_path reciter surah_num v0
                    = fs st !! get_download_path reciter surah_num v0).
      { simpl. apply (unit_path_frame _ _ _ _ _ _ _ _ _ Hpath).
        apply download_path_differs. by right. }
      unfold unit_outcome, delivers in Ho |- *. rewrite Hfs in Ho. exact Ho.
  - intros Hall.
    destruct (unit_path_present _ _ _ _ _ _ _ _ _ Hpath) as (_ & -> & _).
    { apply Hall. list_has. }
    rewrite Hsame; [done|]. intros v0 Hv0. simpl. apply Hall.
    by apply list_elem_of_further.
Qed.

Lemma index_elem_of {A} (l : list A) (i : Z) (x : A) : Py.index l i = Some x → x ∈ l.
Proof.
  unfold Py.index. repeat case_decide; try done; apply list_elem_of_lookup_2.
Qed.

Lemma index_VERSE_COUNTS_pos (i n : Z) : Py.index VERSE_COUNTS i = Some n → 0 < n.
Proof.
  intros H%index_elem_of. pose proof VERSE_COUNTS_pos as Hpos.
  rewrite Forall_forall in Hpos. by apply Hpos.
Qed.

Lemma index_VERSE_COUNTS_valid (surah_num : Z) :
  1 <= surah_num <= 114 →
  ∃ n, Py.index VERSE_COUNTS (surah_num - 1) = Some n ∧ 0 < n.
Proof.
  intros Hs. rewrite index_nonneg by lia.
  destruct (lookup_lt_is_Some_2 VERSE_COUNTS (Z.to_nat (surah_num - 1))) as [n Hn].
  { rewrite VERSE_COUNTS_length. lia. }
  exists n. split; [done|]. apply (index_VERSE_COUNTS_pos (surah_num - 1)).
  by rewrite index_nonneg by lia.
Qed.

Lemma download_surah_unfold (server : string → response) (reciter : string)
  (surah_num : Z) (st : state) :
  download_surah server reciter surah_num st
  = match Py.index VERSE_COUNTS (surah_num - 1) with
    | Some n =>
        match gather (verse_tasks server reciter surah_num (Py.range 1 (n + 1))) st with
        | (Ret rs, st') =>
            (Ret (SurahResult (Py.count is_downloaded rs) (Py.count is_skipped rs)
                              (Py.count is_failed rs) n), st')
        | (Raise e, st') => (Raise e, st')
        end
    | None => (Raise (Exception "list index out of range"), st)
    end.
Proof.
  unfold download_surah, verse_tasks, mbind, M_bind, bind, mret, M_ret, ret, raise.
  destruct (Py.index VERSE_COUNTS (surah_num - 1)) as [n|]; [|done].
  by destruct (gather _ st) as [[rs|e] st'].
Qed.

(** Whatever happens around it, what [download_surah] returns counts each
    of its units under one tag. *)
Lemma download_surah_general (server : string → response) (reciter : string)
  (surah_num : Z) (st st' : state) (res : res surah_result) :
  download_surah server reciter surah_num st = (res, st') →
  ∃ evs, extends st st' evs
    ∧ match res with
      | Ret r =>
          downloaded r + skipped r + failed r = total r
          ∧ total r = item_count VERSE_COUNTS surah_num
          ∧ ∃ rs, (downloaded r, skipped r, failed r) = tally rs
                  ∧ ∀ acc, fold_left settle_step evs acc = (acc.1, acc.2 ++ rs)
      | Raise _ => ∀ acc, (fold_left settle_step evs acc).1 = acc.1
      end.
Proof.
  rewrite download_surah_unfold. intros H.
  destruct (Py.index VERSE_COUNTS (surah_num - 1)) as [n|] eqn:Hn.
  2:{ simplify_eq. exists []. split; [apply extends_refl|done]. }
  destruct (gather _ st) as [res1 st1] eqn:Hg.
  destruct (gather_units _ _ _ _ _ _ _ Hg) as (evs & Hext & Hres).
  pose proof (index_VERSE_COUNTS_pos _ _ Hn) as Hpos.
  destruct res1 as [rs|e]; simplify_eq; exists evs; (split; [done|]); [|done].
  destruct Hres as (Hlen & Hcount & Hfold). cbn [downloaded skipped failed total].
  rewrite range_length in Hcount. split_and!.
  - lia.
  - unfold item_count. by rewrite Hn.
  - by exists rs.
Qed.

Lemma count_all {A} (p : A → bool) (l : list A) :
  (∀ i x, l !! i = Some x → p x = true) → Py.count p l = Z.of_nat (length l).
Proof.
  induction l as [|x l IH]; intros H; [done|].
  rewrite count_cons, (H 0%nat x eq_refl), IH; [simpl length; lia|].
  intros i y. apply (H (S i)).
Qed.

Lemma count_none {A} (p : A → bool) (l : list A) :
  (∀ i x, l !! i = Some x → p x = false) → Py.count p l = 0.
Proof.
  induction l as [|x l IH]; intros H; [done|].
  rewrite count_cons, (H 0%nat x eq_refl), IH; [lia|].
  intros i y. apply (H (S i)).
Qed.


(** With the interrupt away and the directories free, a surah that exists
    completes, and each verse ends as the mirror and the endpoint say. *)
Lemma download_surah_free (server : string → response) (reciter : string)
  (surah_num : Z) (st : state) :
  1 <= surah_num <= 114 → sigint st = None → dirs_free (fs st) →
  ∃ r rs st',
    download_surah server reciter surah_num st = (Ret r, st')
    ∧ sigint st' = None ∧ dirs_free (fs st')
    ∧ total r = item_count VERSE_COUNTS surah_num
    ∧ (downloaded r, skipped r, failed r) = tally rs
    ∧ length rs = Z.to_nat (total r)
    ∧ (∀ r' s' v', (r', s') ≠ (reciter, surah_num) →
         fs st' !! get_download_path r' s' v' = fs st !! get_download_path r' s' v')
    ∧ (∀ i v x, Py.range 1 (total r + 1) !! i = Some v → rs !! i = Some x →
         unit_outcome server st st' reciter surah_num v x)
    ∧ ((∀ v, 1 <= v <= total r →
          is_Some (fs st !! get_download_path reciter surah_num v)) →
       fs st' = fs st).
Proof.
  intros Hs Hsig Hfree. rewrite download_surah_unfold.
  destruct (index_VERSE_COUNTS_valid surah_num Hs) as (n & Hn & Hpos). rewrite Hn.
  destruct (gather_units_free server reciter surah_num (Py.range 1 (n + 1)) st
              (range_NoDup _ _) Hsig Hfree)
    as (rs & st' & Hg & Hsig' & Hfree' & Hframe & Hout & Hsame).
  destruct (gather_units _ _ _ _ _ _ _ Hg) as (evs & _ & Hlen & _).
  rewrite Hg. eexists _, rs, st'. cbn [downloaded skipped failed total].
  split_and!; [done..| | | | |done|].
  - unfold item_count. by rewrite Hn.
  - done.
  - rewrite Hlen, range_length. cbn [total]. f_equal. lia.
  - intros r' s' v' Hne. apply Hframe. by left.
  - intros Hall. apply Hsame. intros v Hv%elem_of_range. apply Hall.
    cbn [total]. lia.
Qed.

(** [asyncio.gather] runs the units of a surah concurrently; [gather] runs
    them one after the other. The order does not matter: each verse gets the
    same tag, and its file ends the same, in whatever order the units of the
    surah are taken. *)
Lemma gather_order_irrelevant (server : string → response) (reciter : string)
  (surah_num : Z) (vs vs' : list Z) (st st1 st1' : state)
  (rs rs' : list (bool * string)) :
  NoDup vs → vs ≡ₚ vs' → sigint st = None → dirs_free (fs st) →
  gather (verse_tasks server reciter surah_num vs) st = (Ret rs, st1) →
  gather (verse_tasks server reciter surah_num vs') st = (Ret rs', st1') →
  ∀ i j v r r',
    vs !! i = Some v → vs' !! j = Some v → rs !! i = Some r → rs' !! j = Some r' →
    is_downloaded r = is_downloaded r' ∧ is_skipped r = is_skipped r'
    ∧ is_failed r = is_failed r'
    ∧ fs st1 !! get_download_path reciter surah_num v
      = fs st1' !! get_download_path reciter surah_num v.
Proof.
  intros Hnd Hperm Hsig Hfree Hg Hg' i j v r r' Hi Hj Hr Hr'.
  assert (Hnd' : NoDup vs') by (by rewrite <- Hperm).
  destruct (gather_units_free server reciter surah_num vs st Hnd Hsig Hfree)
    as (rs0 & st0 & Hg0 & _ & _ & _ & Hout & _).
  destruct (gather_units_free server reciter surah_num vs' st Hnd' Hsig Hfree)
    as (rs0' & st0' & Hg0' & _ & _ & _ & Hout' & _).
  rewrite Hg in Hg0. rewrite Hg' in Hg0'. simplify_eq.
  destruct (gather_units _ _ _ _ _ _ _ Hg) as (evs & (_ & _ & _ & Hkeep) & _).
  destruct (gather_units _ _ _ _ _ _ _ Hg') as (evs' & (_ & _ & _ & Hkeep') & _).
  destruct (Hout i v r Hi Hr)
    as [[[x Hx] ->]|[(Hn & -> & c & Hd & Hf)|(Hn & Hfl & Hno & Hf)]];
    destruct (Hout' j v r' Hj Hr')
      as [[[x' Hx'] ->]|[(Hn' & -> & c' & Hd' & Hf')|(Hn' & Hfl' & Hno' & Hf')]];
    try congruence.
  - split_and!; [done..|]. rewrite (Hkeep _ _ Hx), (Hkeep' _ _ Hx'). congruence.
  - split_and!; [done..|]. destruct Hd as [_ Hc], Hd' as [_ Hc']. congruence.
  - by destruct (Hno' c).
  - by destruct (Hno c').
  - destruct r as [[] msg], r' as [[] msg']; simpl in *; try done.
    split_and!; [done..|]. congruence.
Qed.

(** * The results of the units of a surah *)

Lemma returns_app (tr tr' : list event) : returns (tr ++ tr') = returns tr ++ returns tr'.
Proof. unfold returns. apply omap_app. Qed.

(** A unit that returns leaves its result in the trace, once, and the
    result carries exactly one of the three tags. *)
Lemma unit_path_result (server : string → response) (st : state) (reciter : string)
  (surah_num verse_num g : Z) (x : bool * string)
  (m : gmap (list string) node) (evs : list event) :
  unit_path server st reciter surah_num verse_num g (Ret x) m evs →
  returns evs = [x]
  ∧ (if is_downloaded x then 1 else 0) + (if is_skipped x then 1 else 0)
    + (if is_failed x then 1 else 0) = 1.
Proof.
  intros Hpath. inversion Hpath; subst; [done|done|].
  split; [by destruct (session st)|done].
Qed.

Lemma gather_results (server : string → response) (reciter : string) (surah_num : Z)
  (vs : list Z) (st st' : state) (rs : list (bool * string)) :
  gather (verse_tasks server reciter surah_num vs) st = (Ret rs, st') →
  returns (drop (length (trace st)) (trace st')) = rs
  ∧ Forall (λ x, (if is_downloaded x then 1 else 0) + (if is_skipped x then 1 else 0)
                 + (if is_failed x then 1 else 0) = 1) rs.
Proof.
  intros H.
  assert (∃ evs, trace st' = trace st ++ evs ∧ returns evs = rs
            ∧ Forall (λ x, (if is_downloaded x then 1 else 0)
                           + (if is_skipped x then 1 else 0)
                           + (if is_failed x then 1 else 0) = 1) rs)
    as (evs & -> & Hret & Htags).
  2:{ by rewrite drop_app_length. }
  revert st rs st' H. induction vs as [|v vs IH]; intros st rs st' H.
  { simpl in H. unfold mret, M_ret, ret in H. simplify_eq.
    exists []. by rewrite app_nil_r. }
  change (verse_tasks server reciter surah_num (v :: vs))
    with (download_verse server reciter surah_num v
            (calculate_global_verse_number surah_num v)
          :: verse_tasks server reciter surah_num vs) in H.
  rewrite gather_cons in H.
  destruct (checkpoint_cases st) as [[n Hc]|Hc]; rewrite Hc in H; [|done].
  destruct (download_verse _ _ _ _ _ (set_sigint n st)) as [r st1] eqn:Hunit.
  destruct (download_verse_inv _ _ _ _ _ _ _ _ Hunit) as (m & evs1 & -> & Hpath).
  destruct r as [x|e]; [|done].
  destruct (unit_path_result _ _ _ _ _ _ _ _ _ Hpath) as [Hr1 Ht1].
  destruct (gather _ (after (set_sigint n st) m evs1)) as [[rs2|e] st2] eqn:Hrest;
    [|done].
  destruct (IH (after (set_sigint n st) m evs1) rs2 st2 Hrest)
    as (evs2 & Htr2 & Hr2 & Ht2).
  simplify_eq. exists (evs1 ++ evs2). rewrite returns_app, Hr1.
  split_and!; [|done|by constructor]. rewrite Htr2. simpl. by rewrite app_assoc.
Qed.

(** * Properties of one surah *)

(** C10. For every surah and whatever the fetches bring, the result of
    [download_surah] has downloaded + skipped + failed = total, and total is
    the item count of the surah. The three counters are the tallies of the
    results of the units that were launched, one unit per verse 1..total:
    those results are what the units left in the trace, there are total of
    them, and each carries exactly one of the three tags. With the
    directories free and no interrupt, the surah does produce a result. *)
Theorem surah_counters_partition (server : string → response) (reciter : string)
  (surah_num : Z) (st : state) :
  (∀ r st', download_surah server reciter surah_num st = (Ret r, st') →
     downloaded r + skipped r + failed r = total r
     ∧ total r = item_count VERSE_COUNTS surah_num
     ∧ ∃ rs,
         gather (verse_tasks server reciter surah_num (Py.range 1 (total r + 1))) st
         = (Ret rs, st')
         ∧ returns (drop (length (trace st)) (trace st')) = rs
         ∧ Z.of_nat (length rs) = total r
         ∧ (downloaded r, skipped r, failed r) = tally rs
         ∧ Forall (λ x, (if is_downloaded x then 1 else 0)
                        + (if is_skipped x then 1 else 0)
                        + (if is_failed x then 1 else 0) = 1) rs)
  ∧ (1 <= surah_num <= 114 → sigint st = None → dirs_free (fs st) →
     ∃ r st', download_surah server reciter surah_num st = (Ret r, st')).
Proof.
  split.
  - intros r st' H.
    destruct (download_surah_general _ _ _ _ _ _ H) as (evs & _ & Hsum & Htotal & _).
    split_and!; [done..|].
    rewrite download_surah_unfold in H.
    destruct (Py.index VERSE_COUNTS (surah_num - 1)) as [n|] eqn:Hn; [|done].
    destruct (gather _ st) as [[rs|e] st1] eqn:Hg; [|done].
    injection H as <- <-. cbn [total downloaded skipped failed].
    pose proof (index_VERSE_COUNTS_pos _ _ Hn) as Hpos.
    destruct (gather_units _ _ _ _ _ _ _ Hg) as (evs' & _ & Hlen & _).
    destruct (gather_results _ _ _ _ _ _ _ Hg) as [Hret Htags].
    exists rs. split_and!; [done|done| |done|done].
    rewrite Hlen, range_length. lia.
  - intros Hs Hsig Hfree.
    destruct (download_surah_free server reciter surah_num st Hs Hsig Hfree)
      as (r & rs & st' & H & _).
    eauto.
Qed.

Lemma surah_counters_partition_witness :
  ∃ r st',
    download_surah (always_200 []) "ar.alafasy" 1 (ready ∅) = (Ret r, st')
    ∧ downloaded r + skipped r + failed r = 7.
Proof.
  destruct (surah_counters_partition (always_200 []) "ar.alafasy" 1 (ready ∅))
    as [Hsum Hruns].
  destruct Hruns as (r & st' & Hrun);
    [lia|reflexivity|apply dirs_free_empty|].
  exists r, st'. split; [exact Hrun|].
  destruct (Hsum r st' Hrun) as (-> & -> & _). reflexivity.
Defined.




(** * The loops of [download_all] *)

Lemma surah_iteration_unfold (server : string → response) (reciter : string)
  (surah_num : Z) (st : state) :
  surah_iteration server reciter surah_num st
  = match download_surah server reciter surah_num st with
    | (Ret r, st1) => (Ret (), after_surah surah_num r st1)
    | (Raise e, st1) => (Raise e, st1)
    end.
Proof.
  unfold surah_iteration. unfold_script.
  destruct (download_surah server reciter surah_num st) as [[r|e] st1]; [|done].
  unfold after_surah. simpl. destruct (too_many_failures r); simpl; [|done].
  by rewrite <- app_assoc.
Qed.

Lemma too_many_failures_spec (r : surah_result) :
  too_many_failures r = true ↔ (inject_Z (total r) * (1 # 2) < inject_Z (failed r))%Q.
Proof.
  unfold too_many_failures.
  destruct (Qlt_le_dec (inject_Z (total r) * (1 # 2)) (inject_Z (failed r))) as [Hlt|Hle].
  - done.
  - split; [done|]. intros Hlt. by apply Qle_not_lt in Hle.
Qed.

Lemma half_total_lt_failed (r : surah_result) :
  (inject_Z (total r) * (1 # 2) < inject_Z (failed r))%Q ↔ total r < 2 * failed r.
Proof. unfold Qlt. simpl. lia. Qed.

(** C5. When a surah has completed with result [r], the pass of the loop
    prints its progress line and then sleeps for the cooldown if and only if
    failed > 0.5 * total; with failed <= 0.5 * total nothing follows the
    progress line, and the next surah starts at once. The cooldown is fixed:
    5 seconds, whatever the surah and however many units failed. *)
Theorem cooldown_iff_majority_failed (server : string → response) (reciter : string)
  (surah_num : Z) (st st1 : state) (r : surah_result) :
  download_surah server reciter surah_num st = (Ret r, st1) →
  ∃ st',
    surah_iteration server reciter surah_num st = (Ret (), st')
    ∧ drop (length (trace st1)) (trace st')
      = EProgress surah_num (downloaded r) (skipped r) (failed r) (total r)
        :: (if too_many_failures r then [ESleep COOLDOWN] else [])
    ∧ (ESleep COOLDOWN ∈ drop (length (trace st1)) (trace st')
       ↔ (inject_Z (total r) * (1 # 2) < inject_Z (failed r))%Q)
    ∧ ((inject_Z (total r) * (1 # 2) < inject_Z (failed r))%Q ↔ total r < 2 * failed r)
    ∧ COOLDOWN = 5 # 1
    ∧ (too_many_failures r = true →
       ESleep (5 # 1) ∈ drop (length (trace st1)) (trace st')).
Proof.
  intros Hrun. exists (after_surah surah_num r st1).
  rewrite surah_iteration_unfold, Hrun. unfold after_surah. simpl.
  rewrite drop_app_length.
  split_and!; [done..| |apply half_total_lt_failed|done|intros ->; list_has].
  rewrite <- too_many_failures_spec. destruct (too_many_failures r).
  - split; [done|]. intros _. list_has.
  - split; [|done]. intros H. in_list H.
Qed.

Lemma cooldown_iff_majority_failed_witness :
  ∃ st',
    surah_iteration always_404 "ar.alafasy" 1 (ready ∅) = (Ret (), st')
    ∧ ESleep COOLDOWN
      ∈ drop (length (trace (download_surah always_404 "ar.alafasy" 1 (ready ∅)).2))
             (trace st').
Proof.
  destruct (cooldown_iff_majority_failed always_404 "ar.alafasy" 1 (ready ∅)
              (download_surah always_404 "ar.alafasy" 1 (ready ∅)).2
              (SurahResult 0 0 7 7))
    as (st' & Hrun & _ & Hsleep & _).
  - vm_compute. reflexivity.
  - exists st'. split; [exact Hrun|]. apply Hsleep. vm_compute. reflexivity.
Defined.

(** ** The totals and the trace *)












(** * Two runs over the same mirror *)

Section Resume.

Variable server : string → response.

(** The endpoint answers every request with status 200 and a body. *)
Hypothesis serves_all : ∀ url, ∃ content, server url = Response 200 (Body content).

Lemma outcome_index (r : surah_result) (rs : list (bool * string)) (i : nat)
  (x : bool * string) :
  0 <= total r → length rs = Z.to_nat (total r) → rs !! i = Some x →
  ∃ v, Py.range 1 (total r + 1) !! i = Some v ∧ 1 <= v <= total r.
Proof.
  intros Hpos Hlen Hx. apply lookup_lt_Some in Hx.
  exists (1 + Z.of_nat i). split; [|lia].
  unfold Py.range. rewrite list_lookup_fmap, (lookup_seq_lt 0); [done|lia].
Qed.

Lemma range_index (n v : Z) :
  1 <= v <= n → Py.range 1 (n + 1) !! Z.to_nat (v - 1) = Some v.
Proof.
  intros Hv. unfold Py.range. rewrite list_lookup_fmap, (lookup_seq_lt 0); [|lia].
  simpl. f_equal. lia.
Qed.

(** A surah none of whose files is on the mirror: all are downloaded. *)
Lemma surah_fresh (reciter : string) (surah_num : Z) (st : state) :
  1 <= surah_num <= 114 → sigint st = None → dirs_free (fs st) → session st = Open →
  (∀ v, fs st !! get_download_path reciter surah_num v = None) →
  ∃ st',
    surah_iteration server reciter surah_num st = (Ret (), st')
    ∧ sigint st' = None ∧ dirs_free (fs st') ∧ session st' = Open
    ∧ totals st' = (total_downloaded st + item_count VERSE_COUNTS surah_num,
                    total_skipped st, total_failed st)
    ∧ (∀ q x, fs st !! q = Some x → fs st' !! q = Some x)
    ∧ (∀ r' s' v', (r', s') ≠ (reciter, surah_num) →
         fs st' !! get_download_path r' s' v' = fs st !! get_download_path r' s' v')
    ∧ (∀ v, 1 <= v <= item_count VERSE_COUNTS surah_num →
         is_Some (fs st' !! get_download_path reciter surah_num v)).
Proof.
  intros Hs Hsig Hfree Hsess Habsent.
  destruct (download_surah_free server reciter surah_num st Hs Hsig Hfree)
    as (r & rs & st1 & Hrun & Hsig1 & Hfree1 & Htotal & Htally & Hlen & Hframe & Hout & _).
  destruct (download_surah_general _ _ _ _ _ _ Hrun)
    as (evs & (Hsess1 & Ht1 & _ & Hkeep) & _).
  destruct (index_VERSE_COUNTS_valid surah_num Hs) as (n & Hn & Hpos).
  assert (Hn' : total r = n) by (rewrite Htotal; unfold item_count; by rewrite Hn).
  assert (Hall : ∀ i x, rs !! i = Some x → x = (true, "downloaded"%string)).
  { intros i x Hx. destruct (outcome_index r rs i x) as (v & Hv & _); [lia|done..|].
    destruct (Hout i v x Hv Hx) as [[[y Hy] _]|[(_ & -> & _)|(_ & _ & Hno & _)]].
    - by rewrite Habsent in Hy.
    - done.
    - destruct (serves_all (verse_url reciter
                              (calculate_global_verse_number surah_num v))) as [c Hc].
      by destruct (Hno c). }
  assert (Hcounts : tally rs = (total r, 0, 0)).
  { unfold tally. rewrite (count_all is_downloaded), (count_none is_skipped),
      (count_none is_failed); [f_equal; f_equal; lia|..];
      intros i x Hx; by rewrite (Hall i x Hx). }
  rewrite Hcounts in Htally. injection Htally as Hd Hsk Hf.
  exists (after_surah surah_num r st1). rewrite surah_iteration_unfold, Hrun.
  unfold after_surah, totals in *. simpl.
  injection Ht1 as -> -> ->. rewrite Hd, Hsk, Hf, <- Htotal, !Z.add_0_r.
  split_and!; [done..| congruence |done|done|done|].
  intros v Hv. destruct (lookup_lt_is_Some_2 rs (Z.to_nat (v - 1))) as [x Hx]; [lia|].
  destruct (Hout _ v x (range_index _ v Hv) Hx)
    as [[[y Hy] _]|[(_ & _ & c & _ & Hfile)|(_ & Hfl & _)]].
  - by rewrite Habsent in Hy.
  - eauto.
  - by rewrite (Hall _ x Hx) in Hfl.
Qed.

(** A surah all of whose files are on the mirror: all are skipped, and the
    mirror is left as it is. *)
Lemma surah_resumed (reciter : string) (surah_num : Z) (st : state) :
  1 <= surah_num <= 114 → sigint st = None → dirs_free (fs st) → session st = Open →
  (∀ v, 1 <= v <= item_count VERSE_COUNTS surah_num →
     is_Some (fs st !! get_download_path reciter surah_num v)) →
  ∃ st',
    surah_iteration server reciter surah_num st = (Ret (), st')
    ∧ sigint st' = None ∧ session st' = Open ∧ fs st' = fs st
    ∧ totals st' = (total_downloaded st,
                    total_skipped st + item_count VERSE_COUNTS surah_num,
                    total_failed st).
Proof.
  intros Hs Hsig Hfree Hsess Hpresent.
  destruct (download_surah_free server reciter surah_num st Hs Hsig Hfree)
    as (r & rs & st1 & Hrun & Hsig1 & Hfree1 & Htotal & Htally & Hlen & _ & Hout & Hsame).
  destruct (download_surah_general _ _ _ _ _ _ Hrun)
    as (evs & (Hsess1 & Ht1 & _ & _) & _).
  destruct (index_VERSE_COUNTS_valid surah_num Hs) as (n & Hn & Hpos).
  assert (Hn' : total r = n) by (rewrite Htotal; unfold item_count; by rewrite Hn).
  assert (Hall : ∀ i x, rs !! i = Some x → x = (true, "skipped"%string)).
  { intros i x Hx. destruct (outcome_index r rs i x) as (v & Hv & Hvr); [lia|done..|].
    rewrite Htotal in Hvr.
    destruct (Hout i v x Hv Hx) as [[_ ->]|[(Hnone & _)|(Hnone & _)]]; [done|..];
      destruct (Hpresent v Hvr) as [y Hy]; congruence. }
  assert (Hcounts : tally rs = (0, total r, 0)).
  { unfold tally. rewrite (count_none is_downloaded), (count_all is_skipped),
      (count_none is_failed); [f_equal; f_equal; lia|..];
      intros i x Hx; by rewrite (Hall i x Hx). }
  rewrite Hcounts in Htally. injection Htally as Hd Hsk Hf.
  exists (after_surah surah_num r st1). rewrite surah_iteration_unfold, Hrun.
  unfold after_surah, totals in *. simpl.
  injection Ht1 as -> -> ->. rewrite Hd, Hsk, Hf, <- Htotal, !Z.add_0_r.
  split_and!; [done|done|congruence| |done].
  apply Hsame. intros v Hv. apply Hpresent. by rewrite <- Htotal.
Qed.

Lemma for_each_cons {A} (body : A → M ()) (x : A) (l : list A) (st : state) :
  for_each (x :: l) body st
  = match body x st with
    | (Ret _, st1) => for_each l body st1
    | (Raise e, st1) => (Raise e, st1)
    end.
Proof. reflexivity. Qed.

Lemma surahs_fresh (reciter : string) (ss : list Z) (st : state) :
  (∀ s, s ∈ ss → 1 <= s <= 114) → NoDup ss →
  sigint st = None → dirs_free (fs st) → session st = Open →
  (∀ s v, s ∈ ss → fs st !! get_download_path reciter s v = None) →
  ∃ st',
    for_each ss (λ s, surah_iteration server reciter s) st = (Ret (), st')
    ∧ sigint st' = None ∧ dirs_free (fs st') ∧ session st' = Open
    ∧ totals st' = (total_downloaded st + Py.sum (item_count VERSE_COUNTS <$> ss),
                    total_skipped st, total_failed st)
    ∧ (∀ q x, fs st !! q = Some x → fs st' !! q = Some x)
    ∧ (∀ r' s' v', r' ≠ reciter ∨ s' ∉ ss →
         fs st' !! get_download_path r' s' v' = fs st !! get_download_path r' s' v')
    ∧ (∀ s v, s ∈ ss → 1 <= v <= item_count VERSE_COUNTS s →
         is_Some (fs st' !! get_download_path reciter s v)).
Proof.
  revert st. induction ss as [|s ss IH]; intros st Hvalid Hnd Hsig Hfree Hsess Habsent.
  { exists st. unfold totals. simpl. rewrite Z.add_0_r.
    split_and!; try done. intros s v Hin. by apply elem_of_nil in Hin. }
  apply NoDup_cons in Hnd as [Hs Hnd].
  destruct (surah_fresh reciter s st) as
    (st1 & Hstep & Hsig1 & Hfree1 & Hsess1 & Ht1 & Hkeep1 & Hframe1 & Hpres1);
    [apply Hvalid; list_has|done..| |].
  { intros v. apply Habsent. list_has. }
  destruct (IH st1) as (st' & Hloop & Hsig' & Hfree' & Hsess' & Ht' & Hkeep' & Hframe' & Hpres');
    [|done..| |].
  { intros s0 Hs0. apply Hvalid. by apply list_elem_of_further. }
  { intros s0 v Hs0. rewrite Hframe1.
    - apply Habsent. by apply list_elem_of_further.
    - intros [= ->]. done. }
  exists st'. rewrite for_each_cons, Hstep, Hloop.
  split_and!; [done..| | | |].
  - rewrite Ht'. unfold totals in Ht1. injection Ht1 as -> -> ->.
    rewrite fmap_cons, sum_cons. f_equal; [f_equal|..]; lia.
  - auto.
  - intros r' s' v' Hne. rewrite Hframe', Hframe1; [done| |].
    + destruct Hne as [Hne|Hne]; [by intros [= -> _]|].
      intros [= _ ->]. apply Hne. list_has.
    + destruct Hne as [Hne|Hne]; [by left|]. right. intros Hin. apply Hne.
      by apply list_elem_of_further.
  - intros s0 v Hs0 Hv. apply elem_of_cons in Hs0 as [->|Hs0].
    + destruct (Hpres1 v Hv) as [x Hx]. exists x. by apply Hkeep'.
    + by apply Hpres'.
Qed.

Lemma surahs_resumed (reciter : string) (ss : list Z) (st : state) :
  (∀ s, s ∈ ss → 1 <= s <= 114) →
  sigint st = None → dirs_free (fs st) → session st = Open →
  (∀ s v, s ∈ ss → 1 <= v <= item_count VERSE_COUNTS s →
     is_Some (fs st !! get_download_path reciter s v)) →
  ∃ st',
    for_each ss (λ s, surah_iteration server reciter s) st = (Ret (), st')
    ∧ sigint st' = None ∧ session st' = Open ∧ fs st' = fs st
    ∧ totals st' = (total_downloaded st,
                    total_skipped st + Py.sum (item_count VERSE_COUNTS <$> ss),
                    total_failed st).
Proof.
  revert st. induction ss as [|s ss IH]; intros st Hvalid Hsig Hfree Hsess Hpresent.
  { exists st. unfold totals. simpl. rewrite Z.add_0_r. done. }
  destruct (surah_resumed reciter s st) as (st1 & Hstep & Hsig1 & Hsess1 & Hfs1 & Ht1);
    [apply Hvalid; list_has|done..| |].
  { intros v. apply Hpresent. list_has. }
  destruct (IH st1) as (st' & Hloop & Hsig' & Hsess' & Hfs' & Ht');
    [|done|by rewrite Hfs1|done| |].
  { intros s0 Hs0. apply Hvalid. by apply list_elem_of_further. }
  { intros s0 v Hs0. rewrite Hfs1. apply Hpresent. by apply list_elem_of_further. }
  exists st'. rewrite for_each_cons, Hstep, Hloop.
  split_and!; [done..|congruence|].
  rewrite Ht'. unfold totals in Ht1. injection Ht1 as -> -> ->.
  rewrite fmap_cons, sum_cons. f_equal; [f_equal|..]; lia.
Qed.

Lemma all_surahs_valid (s : Z) : s ∈ Py.range 1 115 → 1 <= s <= 114.
Proof. intros H%elem_of_range. lia. Qed.

Lemma all_surahs_count : Py.sum (item_count VERSE_COUNTS <$> Py.range 1 115) = 6236.
Proof. by vm_compute. Qed.

Lemma reciters_fresh (rs : list string) (st : state) :
  NoDup rs → sigint st = None → dirs_free (fs st) → session st = Open →
  (∀ r s v, r ∈ rs → fs st !! get_download_path r s v = None) →
  ∃ st',
    for_each rs (λ r, for_each (Py.range 1 115) (λ s, surah_iteration server r s)) st
    = (Ret (), st')
    ∧ sigint st' = None ∧ dirs_free (fs st') ∧ session st' = Open
    ∧ totals st' = (total_downloaded st + 6236 * Z.of_nat (length rs),
                    total_skipped st, total_failed st)
    ∧ (∀ q x, fs st !! q = Some x → fs st' !! q = Some x)
    ∧ (∀ r' s' v', r' ∉ rs →
         fs st' !! get_download_path r' s' v' = fs st !! get_download_path r' s' v')
    ∧ (∀ r s v, r ∈ rs → 1 <= s <= 114 → 1 <= v <= item_count VERSE_COUNTS s →
         is_Some (fs st' !! get_download_path r s v)).
Proof.
  revert st. induction rs as [|r rs IH]; intros st Hnd Hsig Hfree Hsess Habsent.
  { exists st. unfold totals. simpl. rewrite Z.add_0_r.
    split_and!; try done. intros r s v Hin. by apply elem_of_nil in Hin. }
  apply NoDup_cons in Hnd as [Hr Hnd].
  destruct (surahs_fresh r (Py.range 1 115) st all_surahs_valid (range_NoDup _ _)
              Hsig Hfree Hsess)
    as (st1 & Hstep & Hsig1 & Hfree1 & Hsess1 & Ht1 & Hkeep1 & Hframe1 & Hpres1).
  { intros s v _. apply Habsent. list_has. }
  destruct (IH st1) as (st' & Hloop & Hsig' & Hfree' & Hsess' & Ht' & Hkeep' & Hframe' & Hpres');
    [done..| |].
  { intros r0 s v Hr0. rewrite Hframe1.
    - apply Habsent. by apply list_elem_of_further.
    - left. by intros ->. }
  exists st'. rewrite for_each_cons, Hstep, Hloop.
  split_and!; [done..| | | |].
  - rewrite Ht'. rewrite all_surahs_count in Ht1.
    unfold totals in Ht1. injection Ht1 as -> -> ->.
    simpl length. f_equal; [f_equal|..]; lia.
  - auto.
  - intros r' s' v' Hne. rewrite Hframe', Hframe1; [done| |].
    + left. intros ->. apply Hne. list_has.
    + intros Hin. apply Hne. by apply list_elem_of_further.
  - intros r0 s v Hr0 Hs Hv. apply elem_of_cons in Hr0 as [->|Hr0].
    + destruct (Hpres1 s v) as [x Hx]; [apply elem_of_range; lia|done|].
      exists x. by apply Hkeep'.
    + by apply Hpres'.
Qed.

Lemma reciters_resumed (rs : list string) (st : state) :
  sigint st = None → dirs_free (fs st) → session st = Open →
  (∀ r s v, r ∈ rs → 1 <= s <= 114 → 1 <= v <= item_count VERSE_COUNTS s →
     is_Some (fs st !! get_download_path r s v)) →
  ∃ st',
    for_each rs (λ r, for_each (Py.range 1 115) (λ s, surah_iteration server r s)) st
    = (Ret (), st')
    ∧ sigint st' = None ∧ session st' = Open ∧ fs st' = fs st
    ∧ totals st' = (total_downloaded st,
                    total_skipped st + 6236 * Z.of_nat (length rs),
                    total_failed st).
Proof.
  revert st. induction rs as [|r rs IH]; intros st Hsig Hfree Hsess Hpresent.
  { exists st. unfold totals. simpl. rewrite Z.add_0_r. done. }
  destruct (surahs_resumed r (Py.range 1 115) st all_surahs_valid Hsig Hfree Hsess)
    as (st1 & Hstep & Hsig1 & Hsess1 & Hfs1 & Ht1).
  { intros s v Hs%all_surahs_valid. apply Hpresent; [list_has|done]. }
  destruct (IH st1) as (st' & Hloop & Hsig' & Hsess' & Hfs' & Ht');
    [done|by rewrite Hfs1|done| |].
  { intros r0 s v Hr0. rewrite Hfs1. apply Hpresent. by apply list_elem_of_further. }
  exists st'. rewrite for_each_cons, Hstep, Hloop.
  split_and!; [done..|congruence|].
  rewrite Ht'. rewrite all_surahs_count in Ht1.
  unfold totals in Ht1. injection Ht1 as -> -> ->.
  simpl length. f_equal; [f_equal|..]; lia.
Qed.

End Resume.

Lemma RECITERS_NoDup : NoDup RECITERS.
Proof.
  unfold RECITERS. apply NoDup_cons. split.
  - intros H. in_list H.
  - apply NoDup_singleton.
Qed.

Lemma download_all_unfold (server : string → response) (st : state) :
  download_all server st
  = match for_each RECITERS
            (λ reciter, for_each (Py.range 1 115)
                          (λ surah_num, surah_iteration server reciter surah_num))
            (set_session Open (set_trace (trace st ++ [ESessionOpen]) st)) with
    | (res1, st1) =>
        match close_session st1 with
        | (Ret _, st2) =>
            match res1 with
            | Ret _ => print_summary st2
            | Raise e => (Raise e, st2)
            end
        | (Raise e, st2) => (Raise e, st2)
        end
    end.
Proof.
  unfold download_all, mbind, M_bind, bind, try_finally, create_session.
  destruct (for_each RECITERS _ _) as [res1 st1].
  destruct (close_session st1) as [[[]|e] st2]; [|done].
  by destruct res1 as [[]|e].
Qed.

(** A run on a mirror that holds none of the files, against an endpoint
    that serves them all: everything is downloaded, and is on the mirror
    afterwards. *)
Lemma main_fresh (server : string → response) (mirror : gmap (list string) node) :
  (∀ url, ∃ content, server url = Response 200 (Body content)) →
  dirs_free mirror →
  (∀ r s v, mirror !! get_download_path r s v = None) →
  ∃ st,
    main server mirror None = (Finished, st)
    ∧ totals st = (6236 * Z.of_nat (length RECITERS), 0, 0)
    ∧ dirs_free (fs st)
    ∧ (∀ r s v, r ∈ RECITERS → 1 <= s <= 114 → 1 <= v <= item_count VERSE_COUNTS s →
         is_Some (fs st !! get_download_path r s v)).
Proof.
  intros Hserves Hfree Habsent. unfold main. rewrite download_all_unfold.
  destruct (reciters_fresh server Hserves RECITERS
              (set_session Open
                 (set_trace (trace (init mirror None) ++ [ESessionOpen]) (init mirror None)))
              RECITERS_NoDup eq_refl Hfree eq_refl)
    as (st1 & Hloop & _ & Hfree1 & Hsess1 & Ht1 & _ & _ & Hpres1).
  { intros r s v _. apply Habsent. }
  rewrite Hloop. unfold close_session. rewrite Hsess1.
  unfold print_summary, emit. eexists. split; [done|]. simpl.
  split_and!; [|done..]. exact Ht1.
Qed.

(** A run on a mirror that holds all the files: everything is skipped, and
    the mirror is as before. *)
Lemma main_resumed (server : string → response) (mirror : gmap (list string) node) :
  dirs_free mirror →
  (∀ r s v, r ∈ RECITERS → 1 <= s <= 114 → 1 <= v <= item_count VERSE_COUNTS s →
     is_Some (mirror !! get_download_path r s v)) →
  ∃ st,
    main server mirror None = (Finished, st)
    ∧ totals st = (0, 6236 * Z.of_nat (length RECITERS), 0)
    ∧ fs st = mirror.
Proof.
  intros Hfree Hpresent. unfold main. rewrite download_all_unfold.
  destruct (reciters_resumed server RECITERS
              (set_session Open
                 (set_trace (trace (init mirror None) ++ [ESessionOpen]) (init mirror None)))
              eq_refl Hfree eq_refl)
    as (st1 & Hloop & _ & Hsess1 & Hfs1 & Ht1).
  { exact Hpresent. }
  rewrite Hloop. unfold close_session. rewrite Hsess1.
  unfold print_summary, emit. eexists. split; [done|]. simpl.
  split; [exact Ht1|exact Hfs1].
Qed.

(** C3. Two runs, one after the other, on a mirror that starts without any
    of the files, with every fetch answered by status 200 and a body: the
    first run downloads every item (downloaded = total items = 12472,
    skipped = 0), the second skips every item (skipped = 12472,
    downloaded = 0, failed = 0). *)
Theorem second_run_skips_everything (server : string → response)
  (mirror : gmap (list string) node) :
  (∀ url, ∃ content, server url = Response 200 (Body content)) →
  dirs_free mirror →
  (∀ r s v, mirror !! get_download_path r s v = None) →
  let total_items := Py.sum VERSE_COUNTS * Z.of_nat (length RECITERS) in
  let run1 := main server mirror None in
  let run2 := main server (fs run1.2) None in
  total_items = 12472
  ∧ run1.1 = Finished ∧ totals run1.2 = (total_items, 0, 0)
  ∧ run2.1 = Finished ∧ totals run2.2 = (0, total_items, 0).
Proof.
  intros Hserves Hfree Habsent total_items run1 run2.
  destruct (main_fresh server mirror Hserves Hfree Habsent)
    as (st1 & Hrun1 & Ht1 & Hfree1 & Hpres1).
  subst run2. fold run1 in Hrun1. rewrite Hrun1. simpl.
  destruct (main_resumed server (fs st1) Hfree1 Hpres1) as (st2 & Hrun2 & Ht2 & _).
  rewrite Hrun2. simpl. split_and!; done.
Qed.

Lemma second_run_skips_everything_witness :
  (main (always_200 []) ∅ None).1 = Finished
  ∧ totals (main (always_200 []) ∅ None).2 = (12472, 0, 0).
Proof.
  destruct (second_run_skips_everything (always_200 []) ∅) as (_ & H1 & H2 & _).
  - intros url. exists []. reflexivity.
  - apply dirs_free_empty.
  - intros r s v. apply lookup_empty.
  - split; [exact H1|exact H2].
Defined.

(** * The semaphore bounds the requests in flight *)

Lemma quiet_count_acquire (l : list event) :
  quiet l → Py.count (λ e, match e with EAcquire => true | _ => false end) l = 0.
Proof.
  intros H. apply count_none. intros i e He.
  pose proof (Forall_lookup_1 _ _ _ _ H He) as Hq. by destruct e.
Qed.

Lemma quiet_count_release (l : list event) :
  quiet l → Py.count (λ e, match e with ERelease => true | _ => false end) l = 0.
Proof.
  intros H. apply count_none. intros i e He.
  pose proof (Forall_lookup_1 _ _ _ _ H He) as Hq. by destruct e.
Qed.

Lemma permits_held_snoc (d rest rest' : list event) (e : event) :
  Limiter.permits_held (Limiter.Task (d ++ [e]) rest)
  = Limiter.permits_held (Limiter.Task d rest')
    + match e with EAcquire => 1 | ERelease => -1 | _ => 0 end.
Proof.
  unfold Limiter.permits_held. simpl. rewrite !count_app, !count_cons, !count_nil.
  destruct e; lia.
Qed.

(** A task in any of its phases holds no permit or one, and holds one while
    its request is in flight. *)
Lemma phase_permits (t : Limiter.task) :
  Limiter.phase_ok t →
  (Limiter.permits_held t = 0 ∨ Limiter.permits_held t = 1)
  ∧ (Limiter.in_flight t = true → Limiter.permits_held t = 1).
Proof.
  unfold Limiter.permits_held, Limiter.in_flight.
  intros [[Hd _]|[(mid1 & mid2 & tail & Hd & _ & Hq1 & _)
               |(mid & tail1 & Hd & Hq & Hq1 & _ & Hget)]]; rewrite Hd.
  - split; [by left|done].
  - rewrite !count_cons, quiet_count_acquire, quiet_count_release by done.
    split; [right|intros _]; lia.
  - rewrite !count_cons, !count_app, !count_cons,
      !quiet_count_acquire, !quiet_count_release by done.
    split; [left; lia|].
    rewrite app_comm_cons, last_app_cons, last_cons.
    destruct (last tail1) as [e|] eqn:He; [|done].
    apply last_Some_elem_of in He.
    apply Forall_app in Hget as [Hget _].
    rewrite Forall_forall in Hget. specialize (Hget e He). by destruct e.
Qed.

(** One more effect of a task keeps it in a phase. *)
Lemma phase_advance (d rest : list event) (e : event) :
  Limiter.phase_ok (Limiter.Task d (e :: rest)) →
  Limiter.phase_ok (Limiter.Task (d ++ [e]) rest).
Proof.
  unfold Limiter.phase_ok. simpl.
  intros [[-> (mid & tail & Heq & Hq & Hqt & Hget)]
         |[(mid1 & mid2 & tail & -> & Heq & Hq1 & Hq2 & Hqt & Hget)
          |(mid & tail1 & -> & Hq & Hq1 & Hq2 & Hget)]].
  - injection Heq as -> ->. right; left. exists [], mid, tail.
    split_and!; [done..|by constructor|done|done|done].
  - destruct mid2 as [|e2 mid2]; simpl in Heq; injection Heq as -> ->.
    + right; right. exists mid1, []. simpl.
      split_and!; [done..|by constructor|done|done].
    + right; left. exists (mid1 ++ [e2]), mid2, tail.
      apply Forall_cons in Hq2 as [He2 Hq2].
      split_and!; [done|done| |done|done|done].
      apply Forall_app. split; [done|]. by constructor.
  - right; right. exists mid, (tail1 ++ [e]).
    apply Forall_cons in Hq2 as [He Hq2].
    split_and!; [simpl; by rewrite <- app_assoc| done | | done |].
    + apply Forall_app. split; [done|]. by constructor.
    + by rewrite <- app_assoc.
Qed.

Lemma sum_fmap_insert {A} (f : A → Z) (l : list A) (i : nat) (t t' : A) :
  l !! i = Some t → Py.sum (f <$> <[i := t']> l) = Py.sum (f <$> l) - f t + f t'.
Proof.
  revert i. induction l as [|x l IH]; intros [|i] Hi; try done; simpl in Hi.
  - injection Hi as ->. change (<[0%nat := t']> (t :: l)) with (t' :: l).
    rewrite !fmap_cons, !sum_cons. lia.
  - change (<[S i := t']> (x :: l)) with (x :: <[i := t']> l).
    rewrite !fmap_cons, !sum_cons, (IH i Hi). lia.
Qed.

Lemma count_le_sum {A} (p : A → bool) (f : A → Z) (l : list A) :
  Forall (λ t, (if p t then 1 else 0) <= f t) l → Py.count p l <= Py.sum (f <$> l).
Proof.
  induction 1 as [|x l Hx Hl IH]; [done|].
  rewrite count_cons, fmap_cons, sum_cons. lia.
Qed.

Lemma advance_inv (s s' : Limiter.sched) (i : nat) :
  Limiter.advance s i = Some s' →
  ∃ d e rest,
    Limiter.tasks s !! i = Some (Limiter.Task d (e :: rest))
    ∧ Limiter.tasks s' = <[i := Limiter.Task (d ++ [e]) rest]> (Limiter.tasks s)
    ∧ Limiter.value s'
      = Limiter.value s - match e with EAcquire => 1 | ERelease => -1 | _ => 0 end
    ∧ (e = EAcquire → 0 < Limiter.value s).
Proof.
  unfold Limiter.advance.
  destruct (Limiter.tasks s !! i) as [[d [|e rest]]|] eqn:Hi; try done.
  intros H. exists d, e, rest.
  destruct e; try case_decide; simplify_eq/=; split_and!; try done; lia.
Qed.

Lemma advance_invariant (s s' : Limiter.sched) (i : nat) :
  Limiter.advance s i = Some s' → Limiter.invariant s → Limiter.invariant s'.
Proof.
  intros (d & e & rest & Hi & Hts & Hv & Hacq)%advance_inv (Hpos & Hsum & Hph).
  unfold Limiter.invariant. rewrite Hts, Hv.
  rewrite (sum_fmap_insert _ _ _ _ _ Hi), (permits_held_snoc d rest (e :: rest) e).
  split_and!.
  - destruct e; try lia. specialize (Hacq eq_refl). lia.
  - lia.
  - apply Forall_insert; [done|]. apply phase_advance.
    by apply (Forall_lookup_1 _ _ _ _ Hph Hi).
Qed.

Lemma run_invariant (schedule : list nat) (s s' : Limiter.sched) :
  Limiter.run schedule s = Some s' → Limiter.invariant s → Limiter.invariant s'.
Proof.
  revert s. induction schedule as [|i schedule IH]; intros s H Hinv; simpl in H.
  { by simplify_eq. }
  destruct (Limiter.advance s i) as [s1|] eqn:Hstep; [|done].
  apply (IH s1 H). by apply (advance_invariant s s1 i).
Qed.

Lemma start_invariant (traces : list (list event)) :
  Forall bracketed traces → Limiter.invariant (Limiter.start traces).
Proof.
  intros Hbr. unfold Limiter.invariant, Limiter.start. simpl.
  split_and!; [done| |].
  - assert (Py.sum (Limiter.permits_held <$> (Limiter.Task [] <$> traces)) = 0) as ->; [|done].
    induction traces as [|tr traces IH]; [done|].
    apply Forall_cons in Hbr as [_ Hbr]. rewrite !fmap_cons, sum_cons, (IH Hbr). done.
  - apply Forall_fmap. eapply Forall_impl; [done|]. intros tr Htr. by left.
Qed.

(** In a state that keeps the invariant, the requests in flight are at most
    the permits held, which are at most the limit. *)
Lemma invariant_bound (s : Limiter.sched) :
  Limiter.invariant s →
  0 <= Limiter.value s ∧ Limiter.requests_in_flight s <= MAX_CONCURRENT.
Proof.
  intros (Hpos & Hsum & Hph). split; [done|].
  unfold Limiter.requests_in_flight.
  etrans; [apply (count_le_sum _ Limiter.permits_held)|lia].
  eapply Forall_impl; [done|]. intros t Ht. simpl.
  destruct (phase_permits t Ht) as [H01 Hfl].
  destruct (Limiter.in_flight t); [rewrite Hfl by done|]; lia.
Qed.

Lemma unit_trace_bracketed (server : string → response) (u : state * string * Z * Z * Z) :
  bracketed (unit_trace server u).
Proof.
  destruct u as [[[[st reciter] surah_num] verse_num] global_verse_num]. simpl.
  destruct (unit_events_path server st reciter surah_num verse_num global_verse_num)
    as (r & m & _ & Hpath).
  by apply (unit_path_bracketed _ _ _ _ _ _ _ _ _ Hpath).
Qed.

(** C4. Let any number of transfer units, of any surahs and reciters, run
    as concurrent tasks that share the one semaphore of the downloader,
    created with MAX_CONCURRENT = 8 permits and never reset, and let the
    event loop resume them in any order. In every state the loop can reach,
    the number of requests in flight is at most 8. *)
Theorem requests_in_flight_bounded (server : string → response)
  (units : list (state * string * Z * Z * Z)) (schedule : list nat) (s : Limiter.sched) :
  Limiter.run schedule (Limiter.start (unit_trace server <$> units)) = Some s →
  0 <= Limiter.value s
  ∧ Limiter.requests_in_flight s <= MAX_CONCURRENT
  ∧ MAX_CONCURRENT = 8.
Proof.
  intros Hrun.
  assert (Hinv : Limiter.invariant s).
  { apply (run_invariant schedule _ s Hrun). apply start_invariant.
    apply Forall_fmap, Forall_forall. intros u _. apply unit_trace_bracketed. }
  destruct (invariant_bound s Hinv) as [Hv Hfl]. done.
Qed.

Lemma requests_in_flight_bounded_witness :
  ∃ s,
    Limiter.run [0; 1; 0; 0; 0; 0; 1; 1; 1; 1]%nat
      (Limiter.start (unit_trace (always_200 [])
                      <$> [ (ready ∅, "ar.alafasy"%string, 1, 1, 1);
                            (ready ∅, "ar.alafasy"%string, 1, 2, 2) ]))
    = Some s
    ∧ Limiter.requests_in_flight s = 2
    ∧ Limiter.requests_in_flight s <= MAX_CONCURRENT.
Proof.
  eexists. split; [vm_compute; reflexivity|]. split; [vm_compute; reflexivity|].
  eapply (requests_in_flight_bounded (always_200 [])
            [ (ready ∅, "ar.alafasy"%string, 1, 1, 1);
              (ready ∅, "ar.alafasy"%string, 1, 2, 2) ]
            [0; 1; 0; 0; 0; 0; 1; 1; 1; 1]%nat).
  vm_compute. reflexivity.
Defined.

(** * More on the address model *)

#[local] Transparent get_download_path surah_dir verse_url.

Lemma global_number_lt (counts : list Z) (c i c' i' : Z) :
  Forall (λ k, 0 < k) counts →
  valid_pair counts c i → valid_pair counts c' i' →
  c < c' ∨ (c = c' ∧ i < i') →
  global_number counts c i < global_number counts c' i'.
Proof.
  intros Hpos Hv Hv' [Hlt|[-> Hlt]].
  - destruct (global_number_bounds counts c i Hv) as [_ Hhi].
    destruct (global_number_bounds counts c' i' Hv') as [Hlo _].
    destruct Hv as [[Hc _] _].
    pose proof (verses_before_mono counts Hpos (S (Z.to_nat (c - 1))) (Z.to_nat (c' - 1))
                  ltac:(lia)).
    lia.
  - unfold global_number. lia.
Qed.

(** X1. The global verse number keeps the order of the catalog: of two valid
    (surah, verse) pairs, the one in the earlier surah, or earlier in the same
    surah, has the smaller number, and conversely. *)
Theorem global_verse_number_ordered (c i c' i' : Z) :
  1 <= c <= 114 → 1 <= i <= item_count VERSE_COUNTS c →
  1 <= c' <= 114 → 1 <= i' <= item_count VERSE_COUNTS c' →
  calculate_global_verse_number c i < calculate_global_verse_number c' i'
  ↔ c < c' ∨ (c = c' ∧ i < i').
Proof.
  intros Hc Hi Hc' Hi'. unfold calculate_global_verse_number.
  pose proof (valid_pair_VERSE_COUNTS c i Hc Hi) as Hv.
  pose proof (valid_pair_VERSE_COUNTS c' i' Hc' Hi') as Hv'.
  split; [|by apply global_number_lt; [apply VERSE_COUNTS_pos|..]].
  intros Hlt.
  destruct (Z.lt_trichotomy c c') as [?|[->|Hgt]]; [by left| |].
  - right. split; [done|]. unfold global_number in Hlt. lia.
  - pose proof (global_number_lt VERSE_COUNTS c' i' c i VERSE_COUNTS_pos Hv' Hv
                  ltac:(by left)). lia.
Qed.

Lemma global_verse_number_ordered_witness :
  calculate_global_verse_number 1 7 < calculate_global_verse_number 2 1.
Proof.
  apply (global_verse_number_ordered 1 7 2 1).
  - lia.
  - change (item_count VERSE_COUNTS 1) with 7. lia.
  - lia.
  - change (item_count VERSE_COUNTS 2) with 286. lia.
  - left. lia.
Defined.

(** X2. Outside 1..114 the function raises nothing, the slice of line 71
    decides: past the table the bound is clipped and the result is
    6236 + verse; from -113 to 0 the bound counts from the end of the table,
    so the surah behaves as surah_num + 114; below that the slice is empty. *)
Theorem global_verse_number_out_of_range (surah_num verse_num : Z) :
  (114 < surah_num →
     calculate_global_verse_number surah_num verse_num = 6236 + verse_num)
  ∧ (-113 <= surah_num <= 0 →
       calculate_global_verse_number surah_num verse_num
       = calculate_global_verse_number (surah_num + 114) verse_num)
  ∧ (surah_num < -113 →
       calculate_global_verse_number surah_num verse_num = verse_num).
Proof.
  unfold calculate_global_verse_number, global_number, Py.slice_to.
  rewrite VERSE_COUNTS_length. split_and!; intros Hs.
  - rewrite decide_True by lia. rewrite take_ge by (rewrite VERSE_COUNTS_length; lia).
    by rewrite VERSE_COUNTS_sum.
  - rewrite decide_False by lia. rewrite decide_True by lia.
    do 3 f_equal. lia.
  - rewrite decide_False by lia.
    replace (Z.to_nat (Z.of_nat 114 + (surah_num - 1))) with 0%nat by lia.
    reflexivity.
Qed.

Lemma global_verse_number_out_of_range_witness :
  calculate_global_verse_number 200 5 = 6241
  ∧ calculate_global_verse_number 0 1 = calculate_global_verse_number 114 1.
Proof.
  destruct (global_verse_number_out_of_range 200 5) as (Hhigh & _ & _).
  destruct (global_verse_number_out_of_range 0 1) as (_ & Hwrap & _).
  split; [apply Hhigh; lia|apply Hwrap; lia].
Defined.

Lemma surah_dir_inj (r r' : string) (s s' : Z) :
  surah_dir r s = surah_dir r' s' → r = r' ∧ s = s'.
Proof.
  unfold surah_dir. intros H. apply app_inv_head in H.
  injection H as -> Hs. split; [done|]. by apply (inj pretty).
Qed.

(** ** The path of line 77 under pathlib *)

Lemma split_slash_no_slash (s : string) :
  no_slash s = true → Pathlib.split_slash s = [s].
Proof.
  induction s as [|c s IH]; [done|]. simpl.
  destruct (Ascii.eqb c "/"); [done|]. simpl. intros H. by rewrite (IH H).
Qed.

Lemma root_no_slash (s : string) : no_slash s = true → Pathlib.root s = None.
Proof.
  destruct s as [|c s]; [done|]. intros H. unfold Pathlib.root.
  cbn [String.prefix]. destruct (ascii_dec "/" c) as [<-|Hc]; [|done].
  cbn in H. discriminate H.
Qed.

Lemma joinpath_component (base : list string) (s : string) :
  path_component s = true → Pathlib.joinpath base s = base ++ [s].
Proof.
  unfold path_component. rewrite !andb_true_iff, !negb_true_iff, !String.eqb_neq.
  intros [[[Hslash He] Hd] Hdd]. unfold Pathlib.joinpath, Pathlib.components.
  rewrite (root_no_slash s Hslash), (split_slash_no_slash s Hslash).
  by rewrite filter_cons_True, filter_nil.
Qed.

Lemma numeric_char_plain (c : ascii) :
  numeric_char c = true → Ascii.eqb c "/" = false ∧ Ascii.eqb c "." = false.
Proof. destruct c as [[] [] [] [] [] [] [] []]; by vm_compute. Qed.

Lemma numeric_no_slash (s : string) : numeric s = true → no_slash s = true.
Proof.
  induction s as [|c s IH]; [done|]. simpl. rewrite !andb_true_iff.
  intros [Hc Hs]. destruct (numeric_char_plain c Hc) as [-> _]. auto.
Qed.

Lemma numeric_app (s t : string) :
  numeric s = true → numeric t = true → numeric (s +:+ t) = true.
Proof.
  intros Hs Ht. induction s as [|c s IH]; [done|]. simpl in *.
  apply andb_true_iff in Hs as [-> Hs]. by apply IH.
Qed.

Lemma no_slash_app (s t : string) :
  no_slash s = true → no_slash t = true → no_slash (s +:+ t) = true.
Proof.
  intros Hs Ht. induction s as [|c s IH]; [done|]. simpl in *.
  apply andb_true_iff in Hs as [-> Hs]. by apply IH.
Qed.

(** A numeric string that is not empty, with anything without a slash after
    it, is a path component. *)
Lemma numeric_component (s t : string) :
  numeric s = true → s ≠ EmptyString → no_slash t = true →
  path_component (s +:+ t) = true ∧ path_component s = true.
Proof.
  intros Hnum Hne Ht. unfold path_component.
  rewrite (no_slash_app s t (numeric_no_slash s Hnum) Ht), (numeric_no_slash s Hnum).
  destruct s as [|c s]; [done|]. simpl in Hnum.
  apply andb_true_iff in Hnum as [Hc _].
  destruct (numeric_char_plain c Hc) as [_ Hdot]. simpl. by rewrite Hdot.
Qed.

Lemma pretty_N_char_numeric (x : N) : numeric_char (pretty_N_char x) = true.
Proof. unfold pretty_N_char. by repeat case_match. Qed.

Lemma pretty_N_go_numeric (x : N) (s : string) :
  numeric s = true → s ≠ EmptyString →
  numeric (pretty_N_go x s) = true ∧ pretty_N_go x s ≠ EmptyString.
Proof.
  revert s. induction (N.lt_wf_0 x) as [x _ IH]; intros s Hs Hne.
  assert (x = 0 ∨ 0 < x)%N as [->|Hx] by lia.
  - by rewrite pretty_N_go_0.
  - rewrite pretty_N_go_step by done. apply IH; [by apply N.div_lt| |done].
    simpl. by rewrite pretty_N_char_numeric.
Qed.

Lemma pretty_N_numeric (x : N) :
  numeric (pretty x) = true ∧ pretty x ≠ EmptyString.
Proof.
  unfold pretty, pretty_N. case_decide as Hx; [done|].
  rewrite pretty_N_go_step by lia. apply pretty_N_go_numeric; [|done].
  simpl. by rewrite pretty_N_char_numeric.
Qed.

(** [str(n)] is made of digits and a sign, and is not empty. *)
Lemma pretty_Z_numeric (z : Z) :
  numeric (pretty z) = true ∧ pretty z ≠ EmptyString.
Proof.
  destruct z as [|p|p]; [done| |].
  - apply (pretty_N_numeric (Npos p)).
  - destruct (pretty_N_numeric (Npos p)) as [Hnum _].
    change (pretty (Z.neg p)) with ("-" +:+ pretty (Npos p)). split; [|done].
    by apply (numeric_app "-").
Qed.

(** On a reciter that is one path component, the path pathlib builds is the
    base directory followed by the three arguments. *)
Lemma pathlib_download_path_component (r : string) (s v : Z) :
  path_component r = true → pathlib_download_path r s v = get_download_path r s v.
Proof.
  intros Hr. unfold pathlib_download_path, get_download_path.
  destruct (pretty_Z_numeric s) as [Hs Hs'].
  destruct (pretty_Z_numeric v) as [Hv Hv'].
  rewrite (joinpath_component _ r Hr).
  rewrite (joinpath_component _ (pretty s))
    by (by apply (numeric_component (pretty s) "")).
  rewrite (joinpath_component _ (pretty v +:+ ".mp3"))
    by (by apply (numeric_component (pretty v) ".mp3")).
  by rewrite <- !app_assoc.
Qed.

Lemma RECITERS_components (r : string) : r ∈ RECITERS → path_component r = true.
Proof. unfold RECITERS. intros H. in_list H; by vm_compute. Qed.

(** Without that condition pathlib drops a trailing slash, and a reciter
    with a root discards the base directory. *)
Lemma pathlib_normalises_reciter :
  pathlib_download_path "ar.alafasy/" 1 1 = pathlib_download_path "ar.alafasy" 1 1
  ∧ pathlib_download_path "/etc" 1 1 = [ "/"; "etc"; "1"; "1.mp3" ]%string.
Proof. by vm_compute. Qed.

(** X3. The mirror has one file per (reciter, surah, verse). For reciters
    that are single path components (no slash, not empty, not "." or ".."),
    as the reciters of the script are, the path pathlib builds at line 77 is
    the base directory followed by the reciter, the surah and the file name;
    two triples share a path only when they are the same triple; the file
    lies in the directory of its reciter and surah, below the base
    directory, and the directories of different reciters or surahs are
    different. *)
Theorem download_paths_distinct (r r' : string) (s s' v v' : Z) :
  path_component r = true → path_component r' = true →
  pathlib_download_path r s v = get_download_path r s v
  ∧ (pathlib_download_path r s v = pathlib_download_path r' s' v'
     ↔ r = r' ∧ s = s' ∧ v = v')
  ∧ (parent (pathlib_download_path r s v) = parent (pathlib_download_path r' s' v')
     ↔ r = r' ∧ s = s')
  ∧ parent (pathlib_download_path r s v) = surah_dir r s
  ∧ BASE_DIR `prefix_of` pathlib_download_path r s v
  ∧ pathlib_download_path r s v ≠ parent (pathlib_download_path r' s' v').
Proof.
  intros Hr Hr'. rewrite !(pathlib_download_path_component r) by done.
  rewrite !(pathlib_download_path_component r') by done.
  rewrite !parent_download_path.
  split_and!.
  - done.
  - split; [apply download_path_inj|]. by intros (-> & -> & ->).
  - split; [apply surah_dir_inj|]. by intros (-> & ->).
  - reflexivity.
  - by apply prefix_app_r.
  - intros H%(f_equal length). by rewrite download_path_length, surah_dir_length in H.
Qed.

Lemma download_paths_distinct_witness :
  pathlib_download_path "ar.alafasy" 2 255
  = BASE_DIR ++ [ "ar.alafasy"; "2"; "255.mp3" ]%string
  ∧ pathlib_download_path "ar.alafasy" 2 255 ≠ pathlib_download_path "ar.husary" 2 255.
Proof.
  destruct (download_paths_distinct "ar.alafasy" "ar.husary" 2 2 255 255)
    as (Heq & Hinj & _); [reflexivity..|].
  split; [exact Heq|]. intros H. apply Hinj in H as [H _]. discriminate H.
Defined.

Lemma RECITERS_urls_differ (r r' : string) (g g' : Z) :
  r ∈ RECITERS → r' ∈ RECITERS → verse_url r g = verse_url r' g' → r = r'.
Proof.
  intros Hr Hr' H. unfold RECITERS in *. in_list Hr; in_list Hr'; try done;
    unfold verse_url, BASE_URL in H; cbn in H; simplify_eq.
Qed.

(** X4. In a run no two transfer units ask for the same URL: for reciters
    of the script and valid (surah, verse) pairs, the URL of line 101, built
    from the global verse number, determines the reciter, the surah and the
    verse. *)
Theorem unit_urls_distinct (r r' : string) (s v s' v' : Z) :
  r ∈ RECITERS → r' ∈ RECITERS →
  1 <= s <= 114 → 1 <= v <= item_count VERSE_COUNTS s →
  1 <= s' <= 114 → 1 <= v' <= item_count VERSE_COUNTS s' →
  verse_url r (calculate_global_verse_number s v)
  = verse_url r' (calculate_global_verse_number s' v') →
  r = r' ∧ s = s' ∧ v = v'.
Proof.
  intros Hr Hr' Hs Hv Hs' Hv' H.
  pose proof (RECITERS_urls_differ _ _ _ _ Hr Hr' H) as ->.
  apply verse_url_inj in H. split; [done|].
  apply (global_number_inj VERSE_COUNTS VERSE_COUNTS_pos); [..|done];
    by apply valid_pair_VERSE_COUNTS.
Qed.

Lemma unit_urls_distinct_witness :
  verse_url "ar.alafasy" (calculate_global_verse_number 1 7)
  ≠ verse_url "ar.husary" (calculate_global_verse_number 1 7).
Proof.
  intros H.
  assert (Hitem : 1 <= 7 <= item_count VERSE_COUNTS 1).
  { change (item_count VERSE_COUNTS 1) with 7. lia. }
  destruct (unit_urls_distinct "ar.alafasy" "ar.husary" 1 7 1 7) as (Hr & _ & _);
    [unfold RECITERS; list_has|unfold RECITERS; list_has|lia|exact Hitem|lia|exact Hitem
    |exact H|].
  discriminate Hr.
Defined.

(** * More on the transfer unit *)

#[local] Opaque get_download_path surah_dir verse_url.

(** X5. What a fetch that is attempted (file absent, directory made,
    session open) returns and leaves, by what the endpoint does. It returns
    "downloaded" for status 200 with its body; "HTTP <status>" for any other
    status, whatever the body; "timeout" when the request or the reading of
    the body times out; and the text of the exception in every other case.
    For status 200 with its body the mirror afterwards is the mirror with
    the directory made and the body at the path of the verse, written once;
    in every other case it is the mirror with the directory made and no
    more: nothing is written and the file is still absent. *)
Theorem fetch_result_by_response (server : string → response) (st : state)
  (reciter : string) (surah_num verse_num global_verse_num : Z)
  (m : gmap (list string) node) :
  let p := get_download_path reciter surah_num verse_num in
  let url := verse_url reciter global_verse_num in
  let run := download_verse server reciter surah_num verse_num global_verse_num st in
  let evs := unit_events server st reciter surah_num verse_num global_verse_num in
  fs st !! p = None →
  mkdirs (fs st) [] (surah_dir reciter surah_num) = Some m →
  session st = Open →
  run.1 = Ret match server url with
              | Response status b =>
                  if decide (status = 200) then
                    match b with
                    | Body _ => (true, "downloaded"%string)
                    | BodyTimeout => (false, "timeout"%string)
                    | BodyError msg => (false, msg)
                    end
                  else (false, "HTTP " +:+ pretty status)
              | Timeout => (false, "timeout"%string)
              | ClientError msg => (false, msg)
              end
  ∧ (∀ content, server url = Response 200 (Body content) →
       fs run.2 = <[p := File content]> m
       ∧ Py.count is_write evs = 1
       ∧ ∃ pre post, evs = pre ++ EWrite p content :: post)
  ∧ ((∀ content, server url ≠ Response 200 (Body content)) →
       fs run.2 = m ∧ fs run.2 !! p = None ∧ Py.count is_write evs = 0).
Proof.
  intros p url run evs Hnone Hm Hopen. subst p url.
  assert (Hfile : m !! get_download_path reciter surah_num verse_num = None).
  { by rewrite (mkdirs_download_path _ _ _ _ _ _ _ Hm). }
  assert (Hdir : m !! surah_dir reciter surah_num = Some Dir).
  { apply (mkdirs_makes _ _ [] _ Hm). by intros H%(f_equal length). }
  split.
  { unfold run. unfold download_verse. unfold_script.
    rewrite !parent_download_path. simpl.
    rewrite Hnone, bool_decide_eq_false_2 by (by intros [? ?]). simpl.
    rewrite Hm. simpl. rewrite Hopen. simpl.
    destruct (server (verse_url reciter global_verse_num)) as [status b| |msg]; simpl;
      [|done..].
    destruct (decide (status = 200)) as [->|Hne]; simpl; [|done].
    destruct b as [content| |msg]; simpl; [|done..].
    by rewrite Hfile, Hdir. }
  destruct (unit_events_path server st reciter surah_num verse_num global_verse_num)
    as (r & m' & Hrun & Hpath).
  fold evs in Hrun, Hpath. fold run in Hrun. rewrite Hrun. cbn [snd after fs].
  destruct Hpath as [[x Hp]|Hp Hm'|m1 c Hp Hm' [_ Hd]|m1 msg Hp Hm' Hd].
  - congruence.
  - congruence.
  - assert (m1 = m) as -> by congruence. split.
    + intros content Hsrv. rewrite Hd in Hsrv. injection Hsrv as <-.
      split_and!; [done..|].
      by exists [ EAcquire;
                  EExists (get_download_path reciter surah_num verse_num) false;
                  EMkdir (surah_dir reciter surah_num);
                  ESleep REQUEST_DELAY; EGet (verse_url reciter global_verse_num) ],
                [ ERelease; EReturn (true, "downloaded"%string) ].
    + intros Hno. by destruct (Hno c).
  - assert (m1 = m) as -> by congruence. split.
    + intros content Hsrv. by destruct (Hd content).
    + intros _. rewrite Hopen. done.
Qed.

Lemma fetch_result_by_response_witness :
  (download_verse always_404 "ar.alafasy" 1 1 1 (ready ∅)).1
  = Ret (false, "HTTP 404"%string)
  ∧ fs (download_verse always_404 "ar.alafasy" 1 1 1 (ready ∅)).2
    !! get_download_path "ar.alafasy" 1 1 = None.
Proof.
  destruct (mkdirs ∅ [] (surah_dir "ar.alafasy" 1)) as [m|] eqn:Hm.
  2:{ exfalso. destruct (dirs_free_mkdirs ∅ "ar.alafasy" 1 dirs_free_empty) as [m Hm'].
      rewrite Hm in Hm'. discriminate Hm'. }
  destruct (fetch_result_by_response always_404 (ready ∅) "ar.alafasy" 1 1 1 m)
    as (Hres & _ & Hfail).
  - apply lookup_empty.
  - exact Hm.
  - reflexivity.
  - split; [exact Hres|]. apply Hfail. intros content. discriminate.
Defined.

Lemma gets_app (tr tr' : list event) : gets (tr ++ tr') = gets tr ++ gets tr'.
Proof. unfold gets. apply omap_app. Qed.

Lemma gets_count (tr : list event) : Py.count is_get tr = Z.of_nat (length (gets tr)).
Proof.
  induction tr as [|e tr IH]; [done|].
  rewrite count_cons, IH. destruct e; simpl; lia.
Qed.

(** X6. A unit sends at most one request, to the URL made of the reciter
    and the global verse number, and only right after the delay of
    REQUEST_DELAY; it sends exactly one when the file is absent, the
    directory can be made and the session is open, and none when the file
    exists. There is no second attempt inside a unit. *)
Theorem one_request_per_unit (server : string → response) (st : state)
  (reciter : string) (surah_num verse_num global_verse_num : Z) :
  let p := get_download_path reciter surah_num verse_num in
  let url := verse_url reciter global_verse_num in
  let evs := unit_events server st reciter surah_num verse_num global_verse_num in
  (gets evs = [] ∨ gets evs = [url])
  ∧ (∀ u, EGet u ∈ evs →
       ∃ pre post, evs = pre ++ ESleep REQUEST_DELAY :: EGet u :: post)
  ∧ (is_Some (fs st !! p) → gets evs = [])
  ∧ (fs st !! p = None → is_Some (mkdirs (fs st) [] (surah_dir reciter surah_num)) →
     session st = Open → gets evs = [url]).
Proof.
  intros p url evs.
  destruct (unit_events_path server st reciter surah_num verse_num global_verse_num)
    as (r & m & _ & Hpath).
  fold evs in Hpath.
  destruct Hpath as [Hp|Hp Hm|m1 c Hp Hm Hd|m1 msg Hp Hm Hd]; fold p in Hp.
  - split_and!; [by left| |done|].
    + intros u Hu. in_list Hu.
    + intros Hn. destruct Hp. congruence.
  - split_and!; [by left| |done|].
    + intros u Hu. in_list Hu.
    + intros _ [? ?]. congruence.
  - split_and!; [by right| |intros [? ?]; congruence|done].
    intros u Hu. in_list Hu.
    by exists [EAcquire; EExists p false; EMkdir (surah_dir reciter surah_num)],
              [EWrite p c; ERelease; EReturn (true, "downloaded"%string)].
  - destruct (session st) eqn:Hs; simpl.
    + split_and!; [by left| |done|done]. intros u Hu. in_list Hu.
    + split_and!; [by right| |intros [? ?]; congruence|done].
      intros u Hu. in_list Hu.
      by exists [EAcquire; EExists p false; EMkdir (surah_dir reciter surah_num)],
                [ERelease; EReturn (false, msg)].
    + split_and!; [by left| |done|done]. intros u Hu. in_list Hu.
Qed.

Lemma one_request_per_unit_witness :
  gets (unit_events (always_200 []) (ready ∅) "ar.alafasy" 1 1 1)
  = [ verse_url "ar.alafasy" 1 ].
Proof.
  apply (one_request_per_unit (always_200 []) (ready ∅) "ar.alafasy" 1 1 1).
  - apply lookup_empty.
  - apply dirs_free_mkdirs, dirs_free_empty.
  - reflexivity.
Defined.

(** X7. A success stays: once a unit has returned success for a verse, any
    later unit for the same verse, whatever the endpoint and the global
    number it is given, returns skipped, sends no request and leaves the
    mirror as it is. A unit that returned a failure has left the file
    absent, so that a later unit tries again. *)
Theorem unit_success_is_kept (server server' : string → response) (st : state)
  (reciter : string) (surah_num verse_num g g' : Z) (msg : string) :
  let p := get_download_path reciter surah_num verse_num in
  let st' := (download_verse server reciter surah_num verse_num g st).2 in
  ((download_verse server reciter surah_num verse_num g st).1 = Ret (true, msg) →
     (download_verse server' reciter surah_num verse_num g' st').1
     = Ret (true, "skipped"%string)
     ∧ fs (download_verse server' reciter surah_num verse_num g' st').2 = fs st'
     ∧ gets (unit_events server' st' reciter surah_num verse_num g') = [])
  ∧ ((download_verse server reciter surah_num verse_num g st).1 = Ret (false, msg) →
     fs st' !! p = None).
Proof.
  intros p st'.
  destruct (download_verse_path server st reciter surah_num verse_num g)
    as (r & m & evs & Heq & Hpath).
  subst st'. rewrite Heq. simpl. split; intros ->.
  - assert (Hp : is_Some (fs (after st m evs) !! p)).
    { simpl. inversion Hpath; subst; [done|]. rewrite lookup_insert_eq. eauto. }
    destruct (unit_events_path server' (after st m evs) reciter surah_num verse_num g')
      as (r2 & m2 & Heq2 & Hpath2).
    destruct (unit_path_present _ _ _ _ _ _ _ _ _ Hpath2 Hp) as (-> & -> & Hev).
    rewrite Heq2. simpl. by rewrite Hev.
  - inversion Hpath as [| | |m1 msg' Hp Hm Hd]; subst.
    simpl. subst p. by rewrite (mkdirs_download_path _ _ _ _ _ _ _ Hm).
Qed.

Lemma unit_success_is_kept_witness :
  (download_verse always_404 "ar.alafasy" 1 1 1
     (download_verse (always_200 []) "ar.alafasy" 1 1 1 (ready ∅)).2).1
  = Ret (true, "skipped"%string).
Proof.
  apply (unit_success_is_kept (always_200 []) always_404 (ready ∅)
           "ar.alafasy" 1 1 1 1 "downloaded").
  vm_compute. reflexivity.
Defined.

(** * More on one surah *)

Lemma index_out_of_range {A} (l : list A) (i : Z) :
  Z.of_nat (length l) <= i ∨ i < - Z.of_nat (length l) → Py.index l i = None.
Proof.
  intros Hi. unfold Py.index. repeat case_decide; try lia; [|done].
  apply lookup_ge_None. lia.
Qed.

Lemma index_negative {A} (l : list A) (i : Z) :
  - Z.of_nat (length l) <= i < 0 → Py.index l i = Py.index l (Z.of_nat (length l) + i).
Proof.
  intros Hi. unfold Py.index. repeat case_decide; try lia. done.
Qed.

(** X8. [download_surah] outside the table. For surah_num above 114 or
    below -113 the lookup of line 126 raises IndexError before any unit is
    built: nothing is requested, nothing is written, the downloader is as
    before. From -113 to 0 the lookup raises nothing: the negative index
    counts from the end of the table, and the surah is given the verse count
    of surah surah_num + 114; with no interrupt due and the directories free
    the call returns a result with that total. *)
Theorem download_surah_outside_table (server : string → response) (reciter : string)
  (surah_num : Z) (st : state) :
  (114 < surah_num ∨ surah_num < -113 →
     download_surah server reciter surah_num st
     = (Raise (Exception "list index out of range"), st))
  ∧ (-113 <= surah_num <= 0 →
     item_count VERSE_COUNTS surah_num = item_count VERSE_COUNTS (surah_num + 114)
     ∧ (∀ r st', download_surah server reciter surah_num st = (Ret r, st') →
          total r = item_count VERSE_COUNTS (surah_num + 114))
     ∧ (sigint st = None → dirs_free (fs st) →
        ∃ r st', download_surah server reciter surah_num st = (Ret r, st')
                 ∧ total r = item_count VERSE_COUNTS (surah_num + 114))).
Proof.
  split.
  - intros Hs. rewrite download_surah_unfold, index_out_of_range; [done|].
    rewrite VERSE_COUNTS_length. lia.
  - intros Hs.
    assert (Hcount : item_count VERSE_COUNTS surah_num
                     = item_count VERSE_COUNTS (surah_num + 114)).
    { unfold item_count. rewrite index_negative by (rewrite VERSE_COUNTS_length; lia).
      rewrite VERSE_COUNTS_length. do 2 f_equal. lia. }
    assert (Htotal : ∀ r st', download_surah server reciter surah_num st = (Ret r, st') →
                       total r = item_count VERSE_COUNTS (surah_num + 114)).
    { intros r st' Hrun.
      destruct (download_surah_general _ _ _ _ _ _ Hrun) as (evs & _ & _ & Htotal & _).
      by rewrite Htotal. }
    split_and!; [done..|]. intros Hsig Hfree.
    destruct (index_VERSE_COUNTS_valid (surah_num + 114)) as (n & Hn & _); [lia|].
    assert (Hidx : Py.index VERSE_COUNTS (surah_num - 1) = Some n).
    { rewrite index_negative by (rewrite VERSE_COUNTS_length; lia).
      rewrite VERSE_COUNTS_length, <- Hn. f_equal. lia. }
    destruct (gather_units_free server reciter surah_num (Py.range 1 (n + 1)) st
                (range_NoDup _ _) Hsig Hfree) as (rs & st' & Hg & _).
    eexists _, st'. assert (Hrun := download_surah_unfold server reciter surah_num st).
    rewrite Hidx, Hg in Hrun. split; [exact Hrun|]. by apply (Htotal _ st').
Qed.

Lemma download_surah_outside_table_witness :
  download_surah (always_200 []) "ar.alafasy" 115 (ready ∅)
  = (Raise (Exception "list index out of range"), ready ∅)
  ∧ item_count VERSE_COUNTS 0 = item_count VERSE_COUNTS 114
  ∧ ∃ r st', download_surah (always_200 []) "ar.alafasy" 0 (ready ∅) = (Ret r, st')
             ∧ total r = item_count VERSE_COUNTS 114.
Proof.
  destruct (download_surah_outside_table (always_200 []) "ar.alafasy" 115 (ready ∅))
    as [Hraise _].
  destruct (download_surah_outside_table (always_200 []) "ar.alafasy" 0 (ready ∅))
    as [_ Hwrap].
  split; [apply Hraise; left; lia|].
  destruct Hwrap as (Hcount & _ & Hret); [lia|].
  split; [exact Hcount|]. apply Hret; [reflexivity|apply dirs_free_empty].
Defined.

(** * What every run does, whatever the mirror, the endpoint and the interrupt *)

Lemma steps_refl (P : event → bool) (st : state) : steps P st st.
Proof.
  split_and!; [done|done|by left|]. exists []. by rewrite app_nil_r.
Qed.

Lemma steps_trans (P : event → bool) (st st1 st2 : state) :
  steps P st st1 → steps P st1 st2 → steps P st st2.
Proof.
  intros (Hs1 & Hk1 & Hc1 & evs1 & Ht1 & Hp1) (Hs2 & Hk2 & Hc2 & evs2 & Ht2 & Hp2).
  split_and!.
  - congruence.
  - auto.
  - intros q. destruct (Hc2 q) as [Heq2|[Hn2 Hpre2]].
    + rewrite Heq2. apply Hc1.
    + right. split; [|done].
      destruct (fs st !! q) as [x|] eqn:Hq; [|done].
      apply Hk1 in Hq. congruence.
  - exists (evs1 ++ evs2). split; [by rewrite Ht2, Ht1, app_assoc|].
    by apply Forall_app.
Qed.

Lemma steps_weaken (P Q : event → bool) (st st' : state) :
  (∀ e, P e = true → Q e = true) → steps P st st' → steps Q st st'.
Proof.
  intros HPQ (Hs & Hk & Hc & evs & Ht & Hp). split_and!; [done..|].
  exists evs. split; [done|]. eapply Forall_impl; [done|]. auto.
Qed.

Lemma steps_events (P : event → bool) (st st' : state) (evs : list event) :
  session st' = session st → fs st' = fs st → trace st' = trace st ++ evs →
  Forall (λ e, P e = true) evs → steps P st st'.
Proof.
  intros Hs Hfs Ht Hp. split_and!; [done| | |by exists evs].
  - intros q x. by rewrite Hfs.
  - intros q. left. by rewrite Hfs.
Qed.

Lemma unit_event_is_loop_event (e : event) :
  is_unit_event e = true → is_loop_event e = true.
Proof. by destruct e. Qed.

Lemma download_verse_steps (server : string → response) (st st' : state)
  (reciter : string) (surah_num verse_num g : Z) (r : res (bool * string)) :
  download_verse server reciter surah_num verse_num g st = (r, st') →
  steps is_unit_event st st'.
Proof.
  intros H. destruct (download_verse_inv _ _ _ _ _ _ _ _ H) as (m & evs & -> & Hpath).
  split_and!; [done| | |].
  - intros q x. apply (unit_path_keeps _ _ _ _ _ _ _ _ _ Hpath).
  - intros q. simpl.
    destruct (unit_path_changes _ _ _ _ _ _ _ _ _ Hpath q)
      as [?|[(Hn & _ & Hpre)|(Hn & -> & _)]]; [by left|right..].
    + split; [done|]. exists reciter, surah_num, verse_num.
      etrans; [done|]. rewrite <- (parent_download_path reciter surah_num verse_num).
      unfold parent. rewrite <- (take_drop (length (get_download_path reciter surah_num
        verse_num) - 1) (get_download_path reciter surah_num verse_num)) at 2.
      rewrite removelast_firstn_len. apply prefix_app_r. done.
    + split; [done|]. by exists reciter, surah_num, verse_num.
  - exists evs. split; [done|].
    destruct Hpath as [Hp|Hp Hm|m1 c Hp Hm Hd|m1 msg Hp Hm Hd];
      try destruct (session st); by repeat constructor.
Qed.

Lemma gather_steps (server : string → response) (reciter : string) (surah_num : Z)
  (vs : list Z) (st st' : state) (res : res (list (bool * string))) :
  gather (verse_tasks server reciter surah_num vs) st = (res, st') →
  steps is_unit_event st st'.
Proof.
  revert st res st'. induction vs as [|v vs IH]; intros st res st' H.
  { simpl in H. unfold mret, M_ret, ret in H. simplify_eq. apply steps_refl. }
  change (verse_tasks server reciter surah_num (v :: vs))
    with (download_verse server reciter surah_num v
            (calculate_global_verse_number surah_num v)
          :: verse_tasks server reciter surah_num vs) in H.
  rewrite gather_cons in H.
  destruct (checkpoint_cases st) as [[n Hc]|Hc]; rewrite Hc in H.
  2:{ simplify_eq. apply steps_refl. }
  assert (H0 : steps is_unit_event st (set_sigint n st)).
  { by apply (steps_events _ _ _ []); [..|rewrite app_nil_r|]. }
  destruct (download_verse _ _ _ _ _ (set_sigint n st)) as [r st1] eqn:Hunit.
  pose proof (steps_trans _ _ _ _ H0 (download_verse_steps _ _ _ _ _ _ _ _ Hunit)) as H1.
  destruct r as [x|e]; [|by simplify_eq].
  destruct (gather _ st1) as [res2 st2] eqn:Hrest.
  pose proof (steps_trans _ _ _ _ H1 (IH _ _ _ Hrest)) as H2.
  destruct res2; by simplify_eq.
Qed.

Lemma download_surah_steps (server : string → response) (reciter : string)
  (surah_num : Z) (st st' : state) (res : res surah_result) :
  download_surah server reciter surah_num st = (res, st') → steps is_unit_event st st'.
Proof.
  rewrite download_surah_unfold.
  destruct (Py.index VERSE_COUNTS (surah_num - 1)) as [n|].
  2:{ intros [= <- <-]. apply steps_refl. }
  destruct (gather _ st) as [res1 st1] eqn:Hg. apply gather_steps in Hg.
  destruct res1; by intros [= <- <-].
Qed.

Lemma surah_iteration_steps (server : string → response) (reciter : string)
  (surah_num : Z) (st : state) (res : res ()) (st' : state) :
  surah_iteration server reciter surah_num st = (res, st') → steps is_loop_event st st'.
Proof.
  rewrite surah_iteration_unfold.
  destruct (download_surah server reciter surah_num st) as [res1 st1] eqn:Hrun.
  apply download_surah_steps, (steps_weaken _ is_loop_event) in Hrun;
    [|apply unit_event_is_loop_event].
  destruct res1 as [r|e]; intros [= <- <-]; [|done].
  apply (steps_trans _ _ _ _ Hrun).
  eapply steps_events; [done|done|done|].
  destruct (too_many_failures r); by repeat constructor.
Qed.

Lemma for_each_steps {A} (P : event → bool) (body : A → M ()) (l : list A) :
  (∀ x st res st', body x st = (res, st') → steps P st st') →
  ∀ st res st', for_each l body st = (res, st') → steps P st st'.
Proof.
  intros Hbody. induction l as [|x l IH]; intros st res st' H.
  { simpl in H. unfold mret, M_ret, ret in H. simplify_eq. apply steps_refl. }
  rewrite for_each_cons in H.
  destruct (body x st) as [[[]|e] st1] eqn:Hx.
  - apply (steps_trans _ _ _ _ (Hbody _ _ _ _ Hx)). by apply (IH st1 res).
  - simplify_eq. by apply (Hbody _ _ _ _ Hx).
Qed.

(** The state [main] ends in, from the state the loops end in. *)
Lemma main_shape (server : string → response) (mirror : gmap (list string) node)
  (interrupt : option nat) :
  ∃ st1 res1,
    for_each RECITERS
      (λ reciter, for_each (Py.range 1 115)
                    (λ surah_num, surah_iteration server reciter surah_num))
      (set_session Open
         (set_trace (trace (init mirror interrupt) ++ [ESessionOpen])
                    (init mirror interrupt)))
    = (res1, st1)
    ∧ steps is_loop_event
        (set_session Open
           (set_trace (trace (init mirror interrupt) ++ [ESessionOpen])
                      (init mirror interrupt))) st1
    ∧ session (main server mirror interrupt).2 = Closed
    ∧ fs (main server mirror interrupt).2 = fs st1
    ∧ totals (main server mirror interrupt).2 = totals st1
    ∧ (main server mirror interrupt).1
      = match res1 with
        | Ret _ => Finished
        | Raise KeyboardInterrupt =>
            Interrupted (total_downloaded st1) (total_skipped st1) (total_failed st1)
        | Raise TimeoutError => Fatal ""
        | Raise (Exception msg) => Fatal msg
        end
    ∧ ∃ tail,
        trace (main server mirror interrupt).2 = trace st1 ++ ESessionClose :: tail
        ∧ gets tail = [] ∧ progress_surahs tail = [].
Proof.
  unfold main. rewrite download_all_unfold.
  destruct (for_each RECITERS _ _) as [res1 st1] eqn:Hloop.
  exists st1, res1. split; [done|].
  assert (Hsteps : steps is_loop_event
            (set_session Open
               (set_trace (trace (init mirror interrupt) ++ [ESessionOpen])
                          (init mirror interrupt))) st1).
  { revert Hloop. apply for_each_steps. intros x st res st'.
    apply for_each_steps. intros y. apply surah_iteration_steps. }
  split; [done|].
  destruct Hsteps as (Hs & _). simpl in Hs.
  unfold close_session. rewrite Hs.
  destruct res1 as [[]|[| |msg]]; simpl; (split_and!; [done..|]).
  - eexists. split; [by rewrite <- app_assoc|done].
  - by exists [].
  - by exists [].
  - by exists [].
Qed.

(** X9. The session is opened once and closed once on every run, also when
    the run is interrupted or dies of an exception (the [finally] of line
    195): at the end the session is closed, and the trace of the run is the
    opening of the session, then the events of the loops, none of which
    opens or closes a session, then the closing, after which nothing is
    requested. *)
Theorem session_closed_on_every_run (server : string → response)
  (mirror : gmap (list string) node) (interrupt : option nat) :
  session (main server mirror interrupt).2 = Closed
  ∧ ∃ evs tail,
      trace (main server mirror interrupt).2
      = ESessionOpen :: evs ++ ESessionClose :: tail
      ∧ Forall (λ e, is_loop_event e = true) evs
      ∧ gets tail = [].
Proof.
  destruct (main_shape server mirror interrupt)
    as (st1 & res1 & _ & (_ & _ & _ & evs & Ht1 & Hevs) & Hclosed & _ & _ & _
        & tail & Htrace & Hgets & _).
  split; [done|]. exists evs, tail. split_and!; [|done..].
  rewrite Htrace, Ht1. done.
Qed.

(** X10. A run never removes or changes what it finds on the mirror,
    whatever the endpoint does and whenever it is interrupted; and whatever
    it adds lies on the way to a verse file: the file itself or one of the
    directories above it. *)
Theorem run_only_adds_to_mirror (server : string → response)
  (mirror : gmap (list string) node) (interrupt : option nat) :
  (∀ q x, mirror !! q = Some x → fs (main server mirror interrupt).2 !! q = Some x)
  ∧ (∀ q, fs (main server mirror interrupt).2 !! q = mirror !! q
          ∨ (mirror !! q = None ∧ ∃ r s v, q `prefix_of` get_download_path r s v)).
Proof.
  destruct (main_shape server mirror interrupt)
    as (st1 & res1 & _ & (_ & Hkeep & Hchange & _) & _ & -> & _).
  split; [exact Hkeep|exact Hchange].
Qed.

(** ** With the directories free nothing is fatal *)

Lemma gather_no_fatal (server : string → response) (reciter : string) (surah_num : Z)
  (vs : list Z) (st st' : state) (res : res (list (bool * string))) :
  dirs_free (fs st) →
  gather (verse_tasks server reciter surah_num vs) st = (res, st') →
  dirs_free (fs st') ∧ ∀ e, res = Raise e → e = KeyboardInterrupt.
Proof.
  revert st res st'. induction vs as [|v vs IH]; intros st res st' Hfree H.
  { simpl in H. unfold mret, M_ret, ret in H. by simplify_eq. }
  change (verse_tasks server reciter surah_num (v :: vs))
    with (download_verse server reciter surah_num v
            (calculate_global_verse_number surah_num v)
          :: verse_tasks server reciter surah_num vs) in H.
  rewrite gather_cons in H.
  destruct (checkpoint_cases st) as [[n Hc]|Hc]; rewrite Hc in H.
  2:{ simplify_eq. split; [done|]. by intros e [= <-]. }
  destruct (download_verse _ _ _ _ _ (set_sigint n st)) as [r st1] eqn:Hunit.
  destruct (download_verse_inv _ _ _ _ _ _ _ _ Hunit) as (m & evs & -> & Hpath).
  destruct (unit_path_returns _ _ _ _ _ _ _ _ _ Hpath Hfree) as [x ->].
  pose proof (unit_path_dirs_free _ _ _ _ _ _ _ _ _ Hpath Hfree) as Hfree1.
  destruct (gather _ (after (set_sigint n st) m evs)) as [res2 st2] eqn:Hrest.
  destruct (IH (after (set_sigint n st) m evs) res2 st2 Hfree1 Hrest) as [Hfree2 Hres2].
  destruct res2 as [rs|e]; simplify_eq; (split; [done|]); [done|].
  intros e' [= <-]. by apply Hres2.
Qed.

Lemma surah_iteration_no_fatal (server : string → response) (reciter : string)
  (surah_num : Z) (st : state) (res : res ()) (st' : state) :
  1 <= surah_num <= 114 → dirs_free (fs st) →
  surah_iteration server reciter surah_num st = (res, st') →
  dirs_free (fs st') ∧ ∀ e, res = Raise e → e = KeyboardInterrupt.
Proof.
  intros Hs Hfree. rewrite surah_iteration_unfold, download_surah_unfold.
  destruct (index_VERSE_COUNTS_valid surah_num Hs) as (n & -> & _).
  destruct (gather _ st) as [res1 st1] eqn:Hg.
  destruct (gather_no_fatal _ _ _ _ _ _ _ Hfree Hg) as [Hfree1 Hres1].
  destruct res1 as [rs|e]; intros [= <- <-]; (split; [done|]); [done|].
  intros e' [= <-]. by apply Hres1.
Qed.

Lemma for_each_no_fatal {A} (ok : A → Prop) (body : A → M ()) (l : list A) :
  (∀ x st res st', ok x → dirs_free (fs st) → body x st = (res, st') →
     dirs_free (fs st') ∧ ∀ e, res = Raise e → e = KeyboardInterrupt) →
  Forall ok l →
  ∀ st res st', dirs_free (fs st) → for_each l body st = (res, st') →
    dirs_free (fs st') ∧ ∀ e, res = Raise e → e = KeyboardInterrupt.
Proof.
  intros Hbody Hok. induction Hok as [|x l Hx Hl IH]; intros st res st' Hfree H.
  { simpl in H. unfold mret, M_ret, ret in H. by simplify_eq. }
  rewrite for_each_cons in H.
  destruct (body x st) as [[[]|e] st1] eqn:Hbx;
    destruct (Hbody _ _ _ _ Hx Hfree Hbx) as [Hfree1 Hres1].
  - by apply (IH st1).
  - by simplify_eq.
Qed.


(** * The totals of a run, from the mirror and the endpoint *)

Lemma tag_count_app (t : tag) (l l' : list tag) :
  tag_count t (l ++ l') = tag_count t l + tag_count t l'.
Proof. apply count_app. Qed.

Lemma tag_count_total (l : list tag) :
  tag_count Downloaded l + tag_count Skipped l + tag_count Failed l
  = Z.of_nat (length l).
Proof.
  unfold tag_count. induction l as [|x l IH]; [done|].
  rewrite !count_cons. simpl length. destruct x; simpl; lia.
Qed.

Lemma progress_surahs_app (tr tr' : list event) :
  progress_surahs (tr ++ tr') = progress_surahs tr ++ progress_surahs tr'.
Proof. unfold progress_surahs. apply omap_app. Qed.

Lemma ran_refl (st : state) :
  sigint st = None → dirs_free (fs st) → session st = Open → ran st st [] [].
Proof.
  intros Hsig Hfree Hopen. unfold ran, tag_count. rewrite !count_nil, !Z.add_0_r.
  split_and!; try done. exists []. by rewrite app_nil_r.
Qed.

Lemma ran_trans (st st1 st2 : state) (tags1 tags2 : list tag) (ss1 ss2 : list Z) :
  ran st st1 tags1 ss1 → ran st1 st2 tags2 ss2 →
  ran st st2 (tags1 ++ tags2) (ss1 ++ ss2).
Proof.
  intros (_ & _ & _ & Hd1 & Hs1 & Hf1 & Hk1 & evs1 & Ht1 & Hg1 & Hp1)
         (Hsig & Hfree & Hopen & Hd2 & Hs2 & Hf2 & Hk2 & evs2 & Ht2 & Hg2 & Hp2).
  unfold ran. rewrite !tag_count_app. split_and!; [done..|lia|lia|lia|auto|].
  exists (evs1 ++ evs2). rewrite count_app, progress_surahs_app.
  split_and!; [by rewrite Ht2, Ht1, app_assoc|lia|congruence].
Qed.

Lemma expected_agree (server : string → response) (m m' : gmap (list string) node)
  (reciter : string) (surah_num verse_num : Z) :
  m' !! get_download_path reciter surah_num verse_num
  = m !! get_download_path reciter surah_num verse_num →
  expected server m' reciter surah_num verse_num
  = expected server m reciter surah_num verse_num.
Proof. intros H. unfold expected. by rewrite H. Qed.

Lemma surahs_tags_agree (server : string → response) (m m' : gmap (list string) node)
  (reciter : string) (ss : list Z) :
  (∀ s v, s ∈ ss → m' !! get_download_path reciter s v
                   = m !! get_download_path reciter s v) →
  surahs_tags server m' reciter ss = surahs_tags server m reciter ss.
Proof.
  intros H. unfold surahs_tags, surah_tags. f_equal. apply list_fmap_ext.
  intros j s Hs%list_elem_of_lookup_2. apply list_fmap_ext.
  intros i v _. apply expected_agree. by apply H.
Qed.

Lemma serves_delivers (server : string → response) (st : state) (url : string) :
  session st = Open →
  serves server url = true ↔ ∃ content, delivers server st url content.
Proof.
  intros Hopen. unfold serves, delivers. split.
  - destruct (server url) as [status [content| |msg]| |msg]; try done.
    intros ->%bool_decide_eq_true. eauto.
  - intros (content & _ & ->). by apply bool_decide_eq_true.
Qed.

(** The result of a unit and the expected tag say the same. *)
Lemma outcome_expected (server : string → response) (st st' : state)
  (reciter : string) (surah_num verse_num : Z) (x : bool * string) :
  session st = Open →
  unit_outcome server st st' reciter surah_num verse_num x →
  is_downloaded x
  = bool_decide (expected server (fs st) reciter surah_num verse_num = Downloaded)
  ∧ is_skipped x
    = bool_decide (expected server (fs st) reciter surah_num verse_num = Skipped)
  ∧ is_failed x
    = bool_decide (expected server (fs st) reciter surah_num verse_num = Failed).
Proof.
  intros Hopen Hout. unfold expected.
  destruct Hout as [[Hp ->]|[(Hn & -> & c & Hd & _)|(Hn & Hfl & Hno & _)]].
  - rewrite (bool_decide_eq_true_2 (is_Some _)) by done. by vm_compute.
  - rewrite (bool_decide_eq_false_2 (is_Some _)) by (rewrite Hn; by intros [? ?]).
    assert (serves server (verse_url reciter
              (calculate_global_verse_number surah_num verse_num)) = true) as ->;
      [|by vm_compute].
    apply (serves_delivers server st _ Hopen). eauto.
  - rewrite (bool_decide_eq_false_2 (is_Some _)) by (rewrite Hn; by intros [? ?]).
    destruct (serves server _) eqn:Hsrv.
    { apply (serves_delivers server st _ Hopen) in Hsrv as [c Hc]. by destruct (Hno c). }
    destruct x as [[] msg]; simpl in *; [done|by vm_compute].
Qed.

Lemma tally_tags (f : Z → tag) (vs : list Z) (rs : list (bool * string)) :
  length rs = length vs →
  (∀ i v x, vs !! i = Some v → rs !! i = Some x →
     is_downloaded x = bool_decide (f v = Downloaded)
     ∧ is_skipped x = bool_decide (f v = Skipped)
     ∧ is_failed x = bool_decide (f v = Failed)) →
  tally rs = (tag_count Downloaded (f <$> vs), tag_count Skipped (f <$> vs),
              tag_count Failed (f <$> vs)).
Proof.
  revert rs. induction vs as [|v vs IH]; intros [|x rs] Hlen H; try done.
  injection Hlen as Hlen.
  assert (Hrest := IH rs Hlen (λ i, H (S i))).
  destruct (H 0%nat v x eq_refl eq_refl) as (Hd & Hs & Hf).
  unfold tally, tag_count in *. rewrite fmap_cons, !count_cons, Hd, Hs, Hf.
  injection Hrest as -> -> ->. done.
Qed.

Lemma unit_path_gets (server : string → response) (st : state) (reciter : string)
  (surah_num verse_num g : Z) (x : bool * string)
  (m : gmap (list string) node) (evs : list event) :
  unit_path server st reciter surah_num verse_num g (Ret x) m evs →
  session st = Open →
  Py.count is_get evs
  = (if is_downloaded x then 1 else 0) + (if is_failed x then 1 else 0)
  ∧ progress_surahs evs = [].
Proof.
  intros Hpath Hopen. inversion Hpath; subst; rewrite ?Hopen; done.
Qed.

Lemma gather_gets (server : string → response) (reciter : string) (surah_num : Z)
  (vs : list Z) (st st' : state) (rs : list (bool * string)) :
  session st = Open →
  gather (verse_tasks server reciter surah_num vs) st = (Ret rs, st') →
  ∃ evs, trace st' = trace st ++ evs
    ∧ Py.count is_get evs = Py.count is_downloaded rs + Py.count is_failed rs
    ∧ progress_surahs evs = [].
Proof.
  revert st rs st'. induction vs as [|v vs IH]; intros st rs st' Hopen H.
  { simpl in H. unfold mret, M_ret, ret in H. simplify_eq.
    exists []. by rewrite app_nil_r. }
  change (verse_tasks server reciter surah_num (v :: vs))
    with (download_verse server reciter surah_num v
            (calculate_global_verse_number surah_num v)
          :: verse_tasks server reciter surah_num vs) in H.
  rewrite gather_cons in H.
  destruct (checkpoint_cases st) as [[n Hc]|Hc]; rewrite Hc in H; [|done].
  destruct (download_verse _ _ _ _ _ (set_sigint n st)) as [r st1] eqn:Hunit.
  destruct (download_verse_inv _ _ _ _ _ _ _ _ Hunit) as (m & evs1 & -> & Hpath).
  destruct r as [x|e]; [|done].
  destruct (unit_path_gets _ _ _ _ _ _ _ _ _ Hpath Hopen) as [Hg1 Hp1].
  destruct (gather _ (after (set_sigint n st) m evs1)) as [[rs2|e] st2] eqn:Hrest;
    [|done].
  destruct (IH (after (set_sigint n st) m evs1) rs2 st2 Hopen Hrest)
    as (evs2 & Ht2 & Hg2 & Hp2).
  simplify_eq. exists (evs1 ++ evs2).
  rewrite count_app, progress_surahs_app, !count_cons, Hg1, Hg2, Hp1, Hp2.
  split_and!; [|lia|done]. rewrite Ht2. simpl. by rewrite app_assoc.
Qed.

Lemma download_surah_gets (server : string → response) (reciter : string)
  (surah_num : Z) (st st' : state) (r : surah_result) :
  session st = Open →
  download_surah server reciter surah_num st = (Ret r, st') →
  ∃ evs, trace st' = trace st ++ evs
    ∧ Py.count is_get evs = downloaded r + failed r
    ∧ progress_surahs evs = [].
Proof.
  intros Hopen. rewrite download_surah_unfold.
  destruct (Py.index VERSE_COUNTS (surah_num - 1)) as [n|]; [|done].
  destruct (gather _ st) as [[rs|e] st1] eqn:Hg; [|done].
  intros [= <- <-]. cbn [downloaded failed].
  by apply (gather_gets server reciter surah_num (Py.range 1 (n + 1)) st).
Qed.

(** One pass of the inner loop in good order. *)
Lemma surah_run (server : string → response) (reciter : string) (s : Z) (st : state) :
  1 <= s <= 114 → sigint st = None → dirs_free (fs st) → session st = Open →
  ∃ st',
    surah_iteration server reciter s st = (Ret (), st')
    ∧ ran st st' (surah_tags server (fs st) reciter s) [s]
    ∧ (∀ r' s' v', (r', s') ≠ (reciter, s) →
         fs st' !! get_download_path r' s' v' = fs st !! get_download_path r' s' v')
    ∧ (∀ v, 1 <= v <= item_count VERSE_COUNTS s →
         (is_Some (fs st' !! get_download_path reciter s v)
          ↔ expected server (fs st) reciter s v ≠ Failed)
         ∧ ∀ content,
             fs st !! get_download_path reciter s v = None →
             server (verse_url reciter (calculate_global_verse_number s v))
             = Response 200 (Body content) →
             fs st' !! get_download_path reciter s v = Some (File content)).
Proof.
  intros Hs Hsig Hfree Hopen.
  destruct (download_surah_free server reciter s st Hs Hsig Hfree)
    as (r & rs & st1 & Hrun & Hsig1 & Hfree1 & Htotal & Htally & Hlen & Hframe
        & Hout & _).
  destruct (download_surah_general _ _ _ _ _ _ Hrun)
    as (evs0 & (Hsess1 & Ht1 & _ & Hkeep) & _).
  destruct (download_surah_gets _ _ _ _ _ _ Hopen Hrun) as (evs & Htr & Hg & Hp).
  assert (Htags : (downloaded r, skipped r, failed r)
                  = (tag_count Downloaded (surah_tags server (fs st) reciter s),
                     tag_count Skipped (surah_tags server (fs st) reciter s),
                     tag_count Failed (surah_tags server (fs st) reciter s))).
  { rewrite Htally. unfold surah_tags, surah_verses. rewrite <- Htotal.
    apply tally_tags.
    - rewrite Hlen, range_length. f_equal. lia.
    - intros i v x Hv Hx. apply (outcome_expected server st st1); [done|].
      by apply (Hout i). }
  injection Htags as Hd Hsk Hf. unfold totals in Ht1. injection Ht1 as Htd Hts Htf.
  exists (after_surah s r st1). rewrite surah_iteration_unfold, Hrun.
  split_and!; [done| |done|].
  - unfold ran, after_surah. cbn [sigint fs session total_downloaded total_skipped
                                  total_failed trace].
    split_and!; [done|done|congruence|lia|lia|lia|done|].
    eexists. rewrite Htr, <- app_assoc. split; [done|].
    rewrite count_app, progress_surahs_app, Hg, Hp.
    split; [|by destruct (too_many_failures r)].
    destruct (too_many_failures r); vm_compute Py.count at 1; lia.
  - intros v Hv. cbn [after_surah fs].
    destruct (lookup_lt_is_Some_2 (Py.range 1 (total r + 1)) (Z.to_nat (v - 1)))
      as [v' Hv'].
    { rewrite range_length. lia. }
    assert (v' = v) as ->.
    { unfold Py.range in Hv'. rewrite list_lookup_fmap in Hv'.
      destruct (seq _ _ !! _) eqn:Hseq; [|done].
      apply lookup_seq in Hseq as [-> _]. simpl in Hv'. simplify_eq. lia. }
    destruct (lookup_lt_is_Some_2 rs (Z.to_nat (v - 1))) as [x Hx].
    { rewrite Hlen. lia. }
    pose proof (Hout _ _ _ Hv' Hx) as Hu.
    destruct (outcome_expected server st st1 _ _ _ _ Hopen Hu) as (Ed & Es & Ef).
    destruct Hu as [[Hp' ->]|[(Hn & -> & c & [_ Hc] & Hfile)|(Hn & Hfl & Hno & Hnone)]].
    + symmetry in Es. apply bool_decide_eq_true in Es. rewrite Es. split.
      * split; [done|]. intros _. destruct Hp' as [y Hy]. exists y. by apply Hkeep.
      * intros content Hnone. rewrite Hnone in Hp'. by destruct Hp'.
    + symmetry in Ed. apply bool_decide_eq_true in Ed. rewrite Ed, Hfile. split.
      * split; [done|]. by eexists.
      * intros content _ Hsrv. rewrite Hc in Hsrv. by simplify_eq.
    + destruct x as [ok msg]. simpl in Hfl. subst ok.
      symmetry in Ef. apply bool_decide_eq_true in Ef. rewrite Ef, Hnone. split.
      * split; [by intros [? ?]|done].
      * intros content _ Hsrv. by destruct (Hno content).
Qed.

(** The inner loop over a list of surahs in good order. *)
Lemma surahs_run (server : string → response) (reciter : string) (ss : list Z)
  (st : state) :
  (∀ s, s ∈ ss → 1 <= s <= 114) → NoDup ss →
  sigint st = None → dirs_free (fs st) → session st = Open →
  ∃ st',
    for_each ss (λ s, surah_iteration server reciter s) st = (Ret (), st')
    ∧ ran st st' (surahs_tags server (fs st) reciter ss) ss
    ∧ (∀ r' s' v', r' ≠ reciter ∨ s' ∉ ss →
         fs st' !! get_download_path r' s' v' = fs st !! get_download_path r' s' v')
    ∧ (∀ s v, s ∈ ss → 1 <= v <= item_count VERSE_COUNTS s →
         (is_Some (fs st' !! get_download_path reciter s v)
          ↔ expected server (fs st) reciter s v ≠ Failed)
         ∧ ∀ content,
             fs st !! get_download_path reciter s v = None →
             server (verse_url reciter (calculate_global_verse_number s v))
             = Response 200 (Body content) →
             fs st' !! get_download_path reciter s v = Some (File content)).
Proof.
  revert st. induction ss as [|s ss IH]; intros st Hvalid Hnd Hsig Hfree Hopen.
  { exists st. split_and!; [done|by apply ran_refl|done|].
    intros s v Hin. by apply elem_of_nil in Hin. }
  apply NoDup_cons in Hnd as [Hs Hnd].
  destruct (surah_run server reciter s st) as (st1 & Hrun1 & Hran1 & Hframe1 & Hiff1);
    [apply Hvalid; list_has|done..|].
  pose proof Hran1 as (Hsig1 & Hfree1 & Hopen1 & _).
  destruct (IH st1) as (st' & Hrun & Hran & Hframe & Hiff); [|done..|].
  { intros s' Hs'. apply Hvalid. by apply list_elem_of_further. }
  assert (Hsame : ∀ s' v, s' ∈ ss →
            fs st1 !! get_download_path reciter s' v
            = fs st !! get_download_path reciter s' v).
  { intros s' v Hs'. apply Hframe1. intros [= ->]. done. }
  exists st'. rewrite for_each_cons, Hrun1. split_and!; [done| | |].
  - change (surahs_tags server (fs st) reciter (s :: ss))
      with (surah_tags server (fs st) reciter s ++ surahs_tags server (fs st) reciter ss).
    rewrite <- (surahs_tags_agree server (fs st) (fs st1) reciter ss Hsame).
    apply (ran_trans st st1 st' _ _ [s] ss Hran1 Hran).
  - intros r' s' v' Hne. rewrite Hframe, Hframe1; [done| |].
    + intros [= -> ->]. destruct Hne as [Hne|Hne]; [done|]. apply Hne. list_has.
    + destruct Hne as [Hne|Hne]; [by left|]. right. intros Hin. apply Hne.
      by apply list_elem_of_further.
  - intros s' v Hin Hv. apply elem_of_cons in Hin as [->|Hin].
    + rewrite Hframe by (by right). by apply Hiff1.
    + destruct (Hiff s' v Hin Hv) as [Hi Hc].
      rewrite <- (expected_agree server (fs st) (fs st1) reciter s' v (Hsame s' v Hin)).
      split; [done|]. intros content Hnone. apply Hc. by rewrite Hsame.
Qed.

Lemma run_tags_agree (server : string → response) (m m' : gmap (list string) node)
  (rs : list string) :
  (∀ r s v, r ∈ rs → m' !! get_download_path r s v = m !! get_download_path r s v) →
  run_tags server m' rs = run_tags server m rs.
Proof.
  intros H. unfold run_tags. f_equal. apply list_fmap_ext.
  intros j r Hr%list_elem_of_lookup_2. apply surahs_tags_agree.
  intros s v _. by apply H.
Qed.

(** The outer loop over a list of reciters in good order. *)
Lemma reciters_run (server : string → response) (rs : list string) (st : state) :
  NoDup rs → sigint st = None → dirs_free (fs st) → session st = Open →
  ∃ st',
    for_each rs (λ r, for_each (Py.range 1 115) (λ s, surah_iteration server r s)) st
    = (Ret (), st')
    ∧ ran st st' (run_tags server (fs st) rs) (concat ((λ _, Py.range 1 115) <$> rs))
    ∧ (∀ r' s' v', r' ∉ rs →
         fs st' !! get_download_path r' s' v' = fs st !! get_download_path r' s' v')
    ∧ (∀ r s v, r ∈ rs → 1 <= s <= 114 → 1 <= v <= item_count VERSE_COUNTS s →
         (is_Some (fs st' !! get_download_path r s v)
          ↔ expected server (fs st) r s v ≠ Failed)
         ∧ ∀ content,
             fs st !! get_download_path r s v = None →
             server (verse_url r (calculate_global_verse_number s v))
             = Response 200 (Body content) →
             fs st' !! get_download_path r s v = Some (File content)).
Proof.
  revert st. induction rs as [|r rs IH]; intros st Hnd Hsig Hfree Hopen.
  { exists st. split_and!; [done|by apply ran_refl|done|].
    intros r s v Hin. by apply elem_of_nil in Hin. }
  apply NoDup_cons in Hnd as [Hr Hnd].
  destruct (surahs_run server r (Py.range 1 115) st all_surahs_valid (range_NoDup _ _)
              Hsig Hfree Hopen) as (st1 & Hrun1 & Hran1 & Hframe1 & Hiff1).
  pose proof Hran1 as (Hsig1 & Hfree1 & Hopen1 & _).
  destruct (IH st1 Hnd Hsig1 Hfree1 Hopen1) as (st' & Hrun & Hran & Hframe & Hiff).
  assert (Hsame : ∀ r' s v, r' ∈ rs →
            fs st1 !! get_download_path r' s v = fs st !! get_download_path r' s v).
  { intros r' s v Hr'. apply Hframe1. left. by intros ->. }
  exists st'. rewrite for_each_cons, Hrun1. split_and!; [done| | |].
  - change (run_tags server (fs st) (r :: rs))
      with (surahs_tags server (fs st) r (Py.range 1 115) ++ run_tags server (fs st) rs).
    rewrite <- (run_tags_agree server (fs st) (fs st1) rs Hsame).
    rewrite fmap_cons. apply (ran_trans st st1 st' _ _ _ _ Hran1 Hran).
  - intros r' s' v' Hne. rewrite Hframe, Hframe1; [done| |].
    + left. intros ->. apply Hne. list_has.
    + intros Hin. apply Hne. by apply list_elem_of_further.
  - intros r' s v Hin Hs Hv. apply elem_of_cons in Hin as [->|Hin].
    + rewrite Hframe by done. apply Hiff1; [|done]. apply elem_of_range. lia.
    + destruct (Hiff r' s v Hin Hs Hv) as [Hi Hc].
      rewrite <- (expected_agree server (fs st) (fs st1) r' s v (Hsame r' s v Hin)).
      split; [done|]. intros content Hnone. apply Hc. by rewrite Hsame.
Qed.

(** A whole run without an interrupt on a mirror with free directories. *)
Lemma main_run (server : string → response) (mirror : gmap (list string) node) :
  dirs_free mirror →
  ∃ st,
    main server mirror None = (Finished, st)
    ∧ session st = Closed ∧ dirs_free (fs st)
    ∧ totals st = (tag_count Downloaded (run_tags server mirror RECITERS),
                   tag_count Skipped (run_tags server mirror RECITERS),
                   tag_count Failed (run_tags server mirror RECITERS))
    ∧ (∀ q x, mirror !! q = Some x → fs st !! q = Some x)
    ∧ (∀ r s v, r ∈ RECITERS → 1 <= s <= 114 → 1 <= v <= item_count VERSE_COUNTS s →
         (is_Some (fs st !! get_download_path r s v)
          ↔ expected server mirror r s v ≠ Failed)
         ∧ ∀ content,
             mirror !! get_download_path r s v = None →
             server (verse_url r (calculate_global_verse_number s v))
             = Response 200 (Body content) →
             fs st !! get_download_path r s v = Some (File content))
    ∧ Py.count is_get (trace st)
      = tag_count Downloaded (run_tags server mirror RECITERS)
        + tag_count Failed (run_tags server mirror RECITERS)
    ∧ progress_surahs (trace st) = Py.range 1 115 ++ Py.range 1 115.
Proof.
  intros Hfree.
  destruct (main_shape server mirror None)
    as (st1 & res1 & Hloop & _ & Hsess & Hfs & Htot & Hout & tail & Htr & Hg & Hp).
  destruct (reciters_run server RECITERS
              (set_session Open (set_trace (trace (init mirror None) ++ [ESessionOpen])
                                           (init mirror None)))
              RECITERS_NoDup eq_refl Hfree eq_refl)
    as (st1' & Hloop' & Hran & _ & Hiff).
  rewrite Hloop in Hloop'. injection Hloop' as -> <-. clear Hloop.
  destruct Hran as (_ & Hfree1 & _ & Hd & Hs & Hf & Hkeep & evs & Hevs & Hgets & Hprog).
  cbn [set_session set_trace init total_downloaded total_skipped total_failed
       trace fs app] in Hd, Hs, Hf, Hkeep, Hevs, Hiff, Hgets, Hprog.
  cbn iota in Hout.
  exists (main server mirror None).2. rewrite Hfs, Htot. unfold totals.
  rewrite Hd, Hs, Hf, !Z.add_0_l.
  split_and!; [by rewrite <- Hout; apply surjective_pairing|done..| |].
  - rewrite Htr, Hevs, count_app, !count_cons, Hgets.
    assert (Py.count is_get tail = 0) as ->; [|simpl; lia].
    clear -Hg. induction tail as [|e tail IH]; [done|].
    rewrite count_cons. destruct e; simpl in *; try done; by rewrite IH.
  - rewrite Htr, Hevs.
    change ((ESessionOpen :: evs) ++ ESessionClose :: tail)
      with ([ESessionOpen] ++ evs ++ [ESessionClose] ++ tail).
    rewrite !progress_surahs_app, Hprog, Hp.
    change (progress_surahs [ESessionOpen]) with (@nil Z).
    change (progress_surahs [ESessionClose]) with (@nil Z).
    unfold RECITERS. rewrite !fmap_cons, fmap_nil. simpl concat.
    by rewrite !app_nil_r.
Qed.

(** * The units of a run, one by one *)

Lemma count_fmap {A B} (p : B → bool) (f : A → B) (l : list A) :
  Py.count p (f <$> l) = Py.count (λ x, p (f x)) l.
Proof. induction l as [|x l IH]; [done|]. by rewrite fmap_cons, !count_cons, IH. Qed.

Lemma count_ext_in {A} (p q : A → bool) (l : list A) :
  (∀ x, x ∈ l → p x = q x) → Py.count p l = Py.count q l.
Proof.
  induction l as [|x l IH]; intros H; [done|].
  rewrite !count_cons, (H x) by list_has. rewrite IH; [done|].
  intros y Hy. apply H. by apply list_elem_of_further.
Qed.

Lemma elem_of_concat {A} (x : A) (ls : list (list A)) :
  x ∈ concat ls ↔ ∃ l, l ∈ ls ∧ x ∈ l.
Proof.
  induction ls as [|l ls IH]; simpl.
  - split; [by intros H%elem_of_nil|]. by intros (l & H%elem_of_nil & _).
  - rewrite elem_of_app, IH. split.
    + intros [H|(l' & Hl' & H)]; [exists l; split; [list_has|done]|].
      exists l'. split; [by apply list_elem_of_further|done].
    + intros (l' & [->|Hl']%elem_of_cons & H); [by left|]. right. by exists l'.
Qed.

Lemma surahs_tags_units (server : string → response) (m : gmap (list string) node)
  (reciter : string) (ss : list Z) :
  surahs_tags server m reciter ss
  = unit_tag server m
    <$> concat ((λ surah_num, (λ verse_num, (reciter, surah_num, verse_num))
                              <$> surah_verses surah_num) <$> ss).
Proof.
  unfold surahs_tags. induction ss as [|s ss IH]; [done|].
  rewrite !fmap_cons. simpl concat. rewrite fmap_app, IH. f_equal.
  unfold surah_tags. by rewrite <- list_fmap_compose.
Qed.

Lemma run_tags_units (server : string → response) (m : gmap (list string) node)
  (rs : list string) :
  run_tags server m rs = unit_tag server m <$> run_units rs.
Proof.
  induction rs as [|r rs IH]; [done|].
  change (run_tags server m (r :: rs))
    with (surahs_tags server m r (Py.range 1 115) ++ run_tags server m rs).
  change (run_units (r :: rs))
    with (concat ((λ surah_num, (λ verse_num, (r, surah_num, verse_num))
                                <$> surah_verses surah_num) <$> Py.range 1 115)
          ++ run_units rs).
  by rewrite fmap_app, IH, surahs_tags_units.
Qed.

Lemma elem_of_run_units (u : string * Z * Z) (rs : list string) :
  u ∈ run_units rs ↔
  u.1.1 ∈ rs ∧ 1 <= u.1.2 <= 114 ∧ 1 <= u.2 <= item_count VERSE_COUNTS u.1.2.
Proof.
  unfold run_units, surah_verses. rewrite elem_of_concat. split.
  - intros (l & (r & -> & Hr)%list_elem_of_fmap & Hu).
    apply elem_of_concat in Hu as (l & (s & -> & Hs)%list_elem_of_fmap & Hu).
    apply list_elem_of_fmap in Hu as (v & -> & Hv).
    apply elem_of_range in Hs, Hv. cbn [fst snd]. split_and!; [done|lia..].
  - destruct u as [[r s] v]. cbn [fst snd]. intros (Hr & Hs & Hv).
    exists (concat ((λ surah_num, (λ verse_num, (r, surah_num, verse_num))
                                  <$> Py.range 1 (item_count VERSE_COUNTS surah_num + 1))
                    <$> Py.range 1 115)).
    split; [apply list_elem_of_fmap; by exists r|].
    apply elem_of_concat.
    exists ((λ verse_num, (r, s, verse_num))
            <$> Py.range 1 (item_count VERSE_COUNTS s + 1)).
    split.
    + apply list_elem_of_fmap. exists s. split; [done|]. apply elem_of_range. lia.
    + apply list_elem_of_fmap. exists v. split; [done|]. apply elem_of_range. lia.
Qed.

Lemma run_units_length : Z.of_nat (length (run_units RECITERS)) = 12472.
Proof. by vm_compute. Qed.

Lemma run_tags_length (server : string → response) (m : gmap (list string) node) :
  Z.of_nat (length (run_tags server m RECITERS)) = 12472.
Proof. by rewrite run_tags_units, length_fmap, run_units_length. Qed.

Lemma count_not_failed (l : list tag) :
  Py.count (λ t, bool_decide (t ≠ Failed)) l
  = tag_count Downloaded l + tag_count Skipped l.
Proof.
  unfold tag_count. induction l as [|t l IH]; [done|].
  rewrite !count_cons, IH. destruct t; simpl; lia.
Qed.

(** * What a whole run does *)

(** X11. With no regular file in the place of a directory of the mirror, a
    run never ends as a fatal error, whatever the endpoint answers: it
    finishes, or it is interrupted by the operator. Without an interrupt it
    finishes. The directories are still free afterwards. *)
Theorem run_never_fatal (server : string → response)
  (mirror : gmap (list string) node) (interrupt : option nat) :
  dirs_free mirror →
  (∀ msg, (main server mirror interrupt).1 ≠ Fatal msg)
  ∧ (interrupt = None → (main server mirror interrupt).1 = Finished)
  ∧ dirs_free (fs (main server mirror interrupt).2).
Proof.
  intros Hfree.
  destruct (main_shape server mirror interrupt)
    as (st1 & res1 & Hloop & (Hsess & _ & _ & _) & _ & Hfs & _ & Hout & _).
  assert (Hsafe : dirs_free (fs st1) ∧ ∀ e, res1 = Raise e → e = KeyboardInterrupt).
  { revert Hloop.
    apply (for_each_no_fatal (λ _, True)); [|by apply Forall_true|done].
    intros r st res st' _ Hst.
    apply (for_each_no_fatal (λ s, 1 <= s <= 114)); [| |done].
    - intros s st2 res2 st2' Hs. by apply surah_iteration_no_fatal.
    - apply Forall_forall. intros s. apply all_surahs_valid. }
  destruct Hsafe as [Hfree1 Hres1]. rewrite Hout, Hfs. split_and!; [| |done].
  - intros msg. destruct res1 as [[]|e]; [done|].
    by rewrite (Hres1 e eq_refl).
  - intros ->. rewrite <- Hout.
    destruct (main_run server mirror Hfree) as (st & Hmain & _). by rewrite Hmain.
Qed.

Lemma run_never_fatal_witness :
  (main always_404 ∅ (Some 3%nat)).1 = Interrupted 0 0 0
  ∧ ∀ msg, (main always_404 ∅ (Some 3%nat)).1 ≠ Fatal msg.
Proof.
  split; [by vm_compute|].
  apply (run_never_fatal always_404 ∅ (Some 3%nat) dirs_free_empty).
Defined.

(** X12. The totals of a run that is not interrupted, on a mirror with free
    directories, are read off the mirror it finds and the endpoint: over the
    12472 units of the run (two reciters, 6236 verses each), the skipped are
    those whose file exists at the start, the downloaded are those whose
    file does not exist and whose URL is answered with status 200 and a body
    that arrives, the failed are the others. The three totals add up to
    12472. *)
Theorem run_totals_from_mirror (server : string → response)
  (mirror : gmap (list string) node) :
  dirs_free mirror →
  (main server mirror None).1 = Finished
  ∧ totals (main server mirror None).2
    = (tag_count Downloaded (unit_tag server mirror <$> run_units RECITERS),
       tag_count Skipped (unit_tag server mirror <$> run_units RECITERS),
       tag_count Failed (unit_tag server mirror <$> run_units RECITERS))
  ∧ total_downloaded (main server mirror None).2
    + total_skipped (main server mirror None).2
    + total_failed (main server mirror None).2 = 12472.
Proof.
  intros Hfree.
  destruct (main_run server mirror Hfree) as (st & Hmain & _ & _ & Htot & _).
  rewrite Hmain. cbn [fst snd]. rewrite <- !run_tags_units. split_and!; [done..|].
  unfold totals in Htot. injection Htot as -> -> ->.
  by rewrite tag_count_total, run_tags_length.
Qed.

Lemma run_totals_from_mirror_witness :
  dirs_free ∅
  ∧ (main refuses_first ∅ None).1 = Finished
  ∧ total_downloaded (main refuses_first ∅ None).2
    + total_skipped (main refuses_first ∅ None).2
    + total_failed (main refuses_first ∅ None).2 = 12472.
Proof.
  split; [exact dirs_free_empty|].
  destruct (run_totals_from_mirror refuses_first ∅ dirs_free_empty) as (H1 & _ & H3).
  split; [exact H1|exact H3].
Defined.

(** X13. The verse files after a run that is not interrupted, on a mirror
    with free directories: for every verse of every reciter of the script,
    the file exists at the end exactly when it existed at the start or the
    endpoint answers its URL with status 200 and a body that arrives; a file
    that existed is as it was, and a file that did not holds the body the
    endpoint gave. *)
Theorem mirror_after_run (server : string → response)
  (mirror : gmap (list string) node) (r : string) (s v : Z) :
  dirs_free mirror →
  r ∈ RECITERS → 1 <= s <= 114 → 1 <= v <= item_count VERSE_COUNTS s →
  (is_Some (fs (main server mirror None).2 !! get_download_path r s v)
   ↔ is_Some (mirror !! get_download_path r s v)
     ∨ serves server (verse_url r (calculate_global_verse_number s v)) = true)
  ∧ (∀ x, mirror !! get_download_path r s v = Some x →
       fs (main server mirror None).2 !! get_download_path r s v = Some x)
  ∧ (∀ content,
       mirror !! get_download_path r s v = None →
       server (verse_url r (calculate_global_verse_number s v))
       = Response 200 (Body content) →
       fs (main server mirror None).2 !! get_download_path r s v
       = Some (File content)).
Proof.
  intros Hfree Hr Hs Hv.
  destruct (main_run server mirror Hfree) as (st & Hmain & _ & _ & _ & Hkeep & Hiff & _).
  rewrite Hmain. cbn [snd]. destruct (Hiff r s v Hr Hs Hv) as [Hi Hc].
  split_and!; [|by apply Hkeep|done].
  rewrite Hi. unfold expected. case_bool_decide as Hp.
  - split; [by left|done].
  - destruct (serves server _); split; try done; [by right|by intros [?|?]].
Qed.

Lemma mirror_after_run_witness :
  dirs_free ∅
  ∧ fs (main (always_200 []) ∅ None).2 !! get_download_path "ar.alafasy" 114 6
    = Some (File []).
Proof.
  split; [exact dirs_free_empty|].
  destruct (mirror_after_run (always_200 []) ∅ "ar.alafasy" 114 6 dirs_free_empty)
    as (_ & _ & H).
  - unfold RECITERS. list_has.
  - lia.
  - by vm_compute.
  - apply H; [apply lookup_empty|reflexivity].
Defined.

(** X14. A run that is not interrupted, on a mirror with free directories,
    sends one request for each unit it counts as downloaded or failed, and
    none for a unit it counts as skipped: the number of requests of the
    whole run is the total of downloaded plus the total of failed. *)
Theorem requests_of_a_run (server : string → response)
  (mirror : gmap (list string) node) :
  dirs_free mirror →
  Py.count is_get (trace (main server mirror None).2)
  = total_downloaded (main server mirror None).2
    + total_failed (main server mirror None).2
  ∧ Py.count is_get (trace (main server mirror None).2)
    = 12472 - total_skipped (main server mirror None).2.
Proof.
  intros Hfree.
  destruct (main_run server mirror Hfree) as (st & Hmain & _ & _ & Htot & _ & _ & Hg & _).
  rewrite Hmain. cbn [snd]. unfold totals in Htot. injection Htot as -> -> ->.
  pose proof (tag_count_total (run_tags server mirror RECITERS)) as Hsum.
  rewrite run_tags_length in Hsum. lia.
Qed.

Lemma requests_of_a_run_witness :
  dirs_free ∅
  ∧ Py.count is_get (trace (main always_404 ∅ None).2)
    = 12472 - total_skipped (main always_404 ∅ None).2.
Proof.
  split; [exact dirs_free_empty|].
  destruct (requests_of_a_run always_404 ∅ dirs_free_empty) as [_ H].
  exact H.
Defined.

(** X15. A run that is not interrupted, on a mirror with free directories,
    prints one progress line per surah and reciter, whatever the endpoint
    answers: the surahs 1 to 114 in order for the first reciter, then again
    for the second. *)
Theorem progress_lines_of_a_run (server : string → response)
  (mirror : gmap (list string) node) :
  dirs_free mirror →
  progress_surahs (trace (main server mirror None).2)
  = Py.range 1 115 ++ Py.range 1 115.
Proof.
  intros Hfree.
  destruct (main_run server mirror Hfree) as (st & Hmain & _ & _ & _ & _ & _ & _ & Hp).
  by rewrite Hmain.
Qed.

Lemma progress_lines_of_a_run_witness :
  dirs_free ∅
  ∧ length (progress_surahs (trace (main always_404 ∅ None).2)) = 228%nat.
Proof.
  split; [exact dirs_free_empty|].
  rewrite (progress_lines_of_a_run always_404 ∅ dirs_free_empty). reflexivity.
Defined.

(** X16. Running again after a run, whatever the two endpoints answered
    (the second may answer differently from the first): both runs finish,
    the second skips exactly the units the first downloaded or skipped, and
    tries exactly the units the first counted as failed. *)
Theorem rerun_tries_only_failures (server server' : string → response)
  (mirror : gmap (list string) node) :
  dirs_free mirror →
  (main server mirror None).1 = Finished
  ∧ (main server' (fs (main server mirror None).2) None).1 = Finished
  ∧ total_skipped (main server' (fs (main server mirror None).2) None).2
    = total_downloaded (main server mirror None).2
      + total_skipped (main server mirror None).2
  ∧ total_downloaded (main server' (fs (main server mirror None).2) None).2
    + total_failed (main server' (fs (main server mirror None).2) None).2
    = total_failed (main server mirror None).2
  ∧ Py.count is_get (trace (main server' (fs (main server mirror None).2) None).2)
    = total_failed (main server mirror None).2.
Proof.
  intros Hfree.
  destruct (main_run server mirror Hfree)
    as (st & Hmain & _ & Hfree1 & Htot & _ & Hiff & _).
  rewrite Hmain. cbn [fst snd].
  destruct (main_run server' (fs st) Hfree1)
    as (st' & Hmain' & _ & _ & Htot' & _ & _ & Hg' & _).
  rewrite Hmain'. cbn [fst snd].
  unfold totals in Htot, Htot'. injection Htot as Hd Hs Hf.
  injection Htot' as Hd' Hs' Hf'.
  assert (Hskip : tag_count Skipped (run_tags server' (fs st) RECITERS)
                  = tag_count Downloaded (run_tags server mirror RECITERS)
                    + tag_count Skipped (run_tags server mirror RECITERS)).
  { rewrite <- count_not_failed. rewrite !run_tags_units. unfold tag_count.
    rewrite !count_fmap. apply count_ext_in.
    intros [[r s] v] (Hr & Hs0 & Hv)%elem_of_run_units. cbn [fst snd] in *.
    unfold unit_tag. cbn [fst snd].
    destruct (Hiff r s v Hr Hs0 Hv) as [Hi _].
    apply bool_decide_ext. rewrite <- Hi. unfold expected.
    case_bool_decide as Hp; [done|].
    by destruct (serves server' _). }
  pose proof (tag_count_total (run_tags server mirror RECITERS)) as Hsum.
  pose proof (tag_count_total (run_tags server' (fs st) RECITERS)) as Hsum'.
  rewrite run_tags_length in Hsum, Hsum'.
  split_and!; [done|done|lia..].
Qed.

Lemma rerun_tries_only_failures_witness :
  dirs_free ∅
  ∧ total_skipped (main (always_200 []) (fs (main refuses_first ∅ None).2) None).2
    = total_downloaded (main refuses_first ∅ None).2
      + total_skipped (main refuses_first ∅ None).2.
Proof.
  split; [exact dirs_free_empty|].
  destruct (rerun_tries_only_failures refuses_first (always_200 []) ∅ dirs_free_empty)
    as (_ & _ & H & _).
  exact H.
Defined.

(** * The semaphore lets every unit through *)

Lemma sum_pos_elem {A} (f : A → Z) (l : list A) :
  0 < Py.sum (f <$> l) → ∃ i t, l !! i = Some t ∧ 0 < f t.
Proof.
  induction l as [|x l IH]; [done|]. rewrite fmap_cons, sum_cons. intros H.
  destruct (decide (0 < f x)) as [Hx|Hx]; [by exists 0%nat, x|].
  destruct IH as (i & t & Hi & Ht); [lia|]. by exists (S i), t.
Qed.

(** A task that holds a permit has its release to come, and what comes
    first is not an acquire. *)
Lemma phase_holding (t : Limiter.task) :
  Limiter.phase_ok t → 0 < Limiter.permits_held t →
  ∃ e rest, Limiter.todo t = e :: rest ∧ e ≠ EAcquire.
Proof.
  unfold Limiter.permits_held.
  intros [[Hd _]|[(mid1 & mid2 & tail & Hd & Ht & _ & Hq2 & _)
               |(mid & tail1 & Hd & Hq & Hq1 & _)]]; rewrite Hd.
  - done.
  - intros _. rewrite Ht. destruct mid2 as [|e mid2]; [by eexists _, _|].
    exists e, (mid2 ++ ERelease :: tail). split; [done|].
    apply Forall_cons in Hq2 as [He _]. by intros ->.
  - rewrite !count_cons, !count_app, !count_cons,
      !quiet_count_acquire, !quiet_count_release by done. lia.
Qed.

(** A task with nothing to come holds no permit and has no request in
    flight. *)
Lemma phase_over (t : Limiter.task) :
  Limiter.phase_ok t → Limiter.todo t = [] →
  Limiter.permits_held t = 0 ∧ Limiter.in_flight t = false.
Proof.
  intros Hph Htodo.
  destruct (phase_permits t Hph) as [[H0|H1] Hfl].
  - split; [done|]. destruct (Limiter.in_flight t); [|done].
    specialize (Hfl eq_refl). lia.
  - destruct (phase_holding t Hph) as (e & rest & He & _); [lia|]. congruence.
Qed.

Lemma advance_possible (s : Limiter.sched) (i : nat) (d rest : list event) (e : event) :
  Limiter.tasks s !! i = Some (Limiter.Task d (e :: rest)) →
  e ≠ EAcquire ∨ 0 < Limiter.value s →
  is_Some (Limiter.advance s i).
Proof.
  intros Hi He. unfold Limiter.advance. rewrite Hi.
  destruct e; try done. destruct He as [He|He]; [done|]. by rewrite decide_True.
Qed.

(** While a task has effects to come, the loop can resume some task. *)
Lemma invariant_progress (s : Limiter.sched) :
  Limiter.invariant s →
  (∃ i t, Limiter.tasks s !! i = Some t ∧ Limiter.todo t ≠ []) →
  ∃ j, is_Some (Limiter.advance s j).
Proof.
  intros (Hpos & Hsum & Hph) (i & [d todo] & Hi & Htodo).
  destruct (decide (0 < Limiter.value s)) as [Hv|Hv].
  - destruct todo as [|e rest]; [done|]. exists i.
    apply (advance_possible s i d rest e Hi). by right.
  - destruct (sum_pos_elem Limiter.permits_held (Limiter.tasks s))
      as (j & [d' todo'] & Hj & Hheld).
    { unfold MAX_CONCURRENT in Hsum. lia. }
    destruct (phase_holding _ (Forall_lookup_1 _ _ _ _ Hph Hj) Hheld)
      as (e & rest & He & Hne).
    simpl in He. subst todo'. exists j.
    apply (advance_possible s j d' rest e Hj). by left.
Qed.

Lemma invariant_over (s : Limiter.sched) :
  Limiter.invariant s → all_done s →
  Limiter.value s = MAX_CONCURRENT ∧ Limiter.requests_in_flight s = 0.
Proof.
  intros (Hpos & Hsum & Hph) Hdone. unfold all_done in Hdone.
  assert (Hall : Forall (λ t, Limiter.permits_held t = 0 ∧ Limiter.in_flight t = false)
                   (Limiter.tasks s)).
  { apply Forall_forall. intros t Ht. rewrite Forall_forall in Hph, Hdone.
    apply phase_over; auto. }
  clear Hph Hdone. unfold Limiter.requests_in_flight.
  revert Hsum. induction Hall as [|t l [Hheld Hfl] Hl IH].
  - rewrite fmap_nil. change (Py.sum []) with 0. intros Hsum.
    split; [lia|done].
  - rewrite fmap_cons, sum_cons, count_cons, Hheld, Hfl. apply IH.
Qed.

Lemma pending_nonneg (s : Limiter.sched) : 0 <= pending s.
Proof.
  unfold pending. apply sum_nonneg, Forall_fmap, Forall_forall. intros t _. simpl. lia.
Qed.

Lemma advance_pending (s s' : Limiter.sched) (i : nat) :
  Limiter.advance s i = Some s' →
  pending s' = pending s - 1
  ∧ events_of <$> Limiter.tasks s' = events_of <$> Limiter.tasks s.
Proof.
  intros (d & e & rest & Hi & Hts & _)%advance_inv. unfold pending.
  rewrite Hts, (sum_fmap_insert _ _ _ _ _ Hi). simpl. split; [lia|].
  rewrite list_fmap_insert. apply list_insert_id.
  rewrite list_lookup_fmap, Hi. unfold events_of. simpl. by rewrite <- app_assoc.
Qed.

Lemma run_events (schedule : list nat) (s s' : Limiter.sched) :
  Limiter.run schedule s = Some s' →
  events_of <$> Limiter.tasks s' = events_of <$> Limiter.tasks s.
Proof.
  revert s. induction schedule as [|i schedule IH]; intros s H; simpl in H.
  { by simplify_eq. }
  destruct (Limiter.advance s i) as [s1|] eqn:Hstep; [|done].
  rewrite (IH s1 H). by apply (advance_pending s s1 i).
Qed.

Lemma some_pending (l : list Limiter.task) :
  Forall (λ t, Limiter.todo t = []) l
  ∨ ∃ i t, l !! i = Some t ∧ Limiter.todo t ≠ [].
Proof.
  induction l as [|t l [IH|(i & t' & Hi & Ht')]].
  - by left.
  - destruct (Limiter.todo t) eqn:Ht; [left; by constructor|].
    right. exists 0%nat, t. split; [done|]. by rewrite Ht.
  - right. by exists (S i), t'.
Qed.

(** From a state that keeps the invariant the loop can bring every task to
    its end. *)
Lemma invariant_completes (n : nat) (s : Limiter.sched) :
  Limiter.invariant s → pending s <= Z.of_nat n →
  ∃ schedule s', Limiter.run schedule s = Some s' ∧ all_done s'.
Proof.
  revert s. induction n as [|n IH]; intros s Hinv Hn;
    (destruct (some_pending (Limiter.tasks s)) as [Hdone|Hsome];
     [by exists [], s|]);
    destruct (invariant_progress s Hinv Hsome) as (j & s1 & Hstep);
    destruct (advance_pending s s1 j Hstep) as [Hp _].
  - pose proof (pending_nonneg s1). lia.
  - destruct (IH s1) as (schedule & s' & Hrun & Hdone);
      [by apply (advance_invariant s s1 j)|lia|].
    exists (j :: schedule), s'. simpl. by rewrite Hstep.
Qed.

Lemma start_units_invariant (server : string → response)
  (units : list (state * string * Z * Z * Z)) :
  Limiter.invariant (Limiter.start (unit_trace server <$> units)).
Proof.
  apply start_invariant. apply Forall_fmap, Forall_forall. intros u _.
  apply unit_trace_bracketed.
Qed.

Lemma start_events (traces : list (list event)) :
  events_of <$> Limiter.tasks (Limiter.start traces) = traces.
Proof.
  unfold Limiter.start. simpl. rewrite <- list_fmap_compose.
  induction traces as [|tr traces IH]; [done|]. by rewrite fmap_cons, IH.
Qed.

(** X17. The semaphore never blocks the run: let any number of transfer
    units run as tasks that share the semaphore, resumed in any order. In
    every state the loop can reach, as long as some task has effects to
    come, some task can be resumed; the tasks waiting for a permit are never
    all that is left. *)
Theorem semaphore_never_deadlocks (server : string → response)
  (units : list (state * string * Z * Z * Z)) (schedule : list nat)
  (s : Limiter.sched) :
  Limiter.run schedule (Limiter.start (unit_trace server <$> units)) = Some s →
  ¬ all_done s →
  ∃ j s', Limiter.advance s j = Some s'.
Proof.
  intros Hrun Hnot.
  assert (Hinv : Limiter.invariant s).
  { apply (run_invariant schedule _ s Hrun). apply start_units_invariant. }
  destruct (some_pending (Limiter.tasks s)) as [Hdone|Hsome]; [done|].
  destruct (invariant_progress s Hinv Hsome) as (j & s' & Hstep). by exists j, s'.
Qed.

Lemma semaphore_never_deadlocks_witness :
  ∃ s,
    Limiter.run [0; 0]%nat
      (Limiter.start (unit_trace (always_200 [])
                      <$> [ (ready one_file_mirror, "ar.alafasy"%string, 1, 1, 1) ]))
    = Some s
    ∧ ¬ all_done s
    ∧ ∃ j s', Limiter.advance s j = Some s'.
Proof.
  eexists. split; [vm_compute; reflexivity|].
  assert (Hnot : ¬ all_done
            (Limiter.Sched 7
               [Limiter.Task
                  [EAcquire; EExists (get_download_path "ar.alafasy" 1 1) true]
                  [ERelease; EReturn (true, "skipped"%string)]])).
  { intros [H _]%Forall_cons. discriminate H. }
  split; [exact Hnot|].
  apply (semaphore_never_deadlocks (always_200 [])
           [ (ready one_file_mirror, "ar.alafasy"%string, 1, 1, 1) ] [0; 0]%nat).
  - vm_compute. reflexivity.
  - exact Hnot.
Defined.

(** X18. Every permit comes back: in any state the loop can reach in which
    every task has run to its end, whichever way each unit ended, the
    semaphore has all its MAX_CONCURRENT permits again and no request is in
    flight. *)
Theorem permits_returned_at_end (server : string → response)
  (units : list (state * string * Z * Z * Z)) (schedule : list nat)
  (s : Limiter.sched) :
  Limiter.run schedule (Limiter.start (unit_trace server <$> units)) = Some s →
  all_done s →
  Limiter.value s = MAX_CONCURRENT ∧ Limiter.requests_in_flight s = 0.
Proof.
  intros Hrun Hdone. apply invariant_over; [|done].
  apply (run_invariant schedule _ s Hrun). apply start_units_invariant.
Qed.

Lemma permits_returned_at_end_witness :
  ∃ s,
    Limiter.run [0; 0; 0; 0]%nat
      (Limiter.start (unit_trace (always_200 [])
                      <$> [ (ready one_file_mirror, "ar.alafasy"%string, 1, 1, 1) ]))
    = Some s
    ∧ all_done s
    ∧ Limiter.value s = MAX_CONCURRENT.
Proof.
  eexists. split; [vm_compute; reflexivity|].
  assert (Hdone : all_done
            (Limiter.Sched 8
               [Limiter.Task
                  [EAcquire; EExists (get_download_path "ar.alafasy" 1 1) true;
                   ERelease; EReturn (true, "skipped"%string)] []])).
  { by repeat constructor. }
  split; [exact Hdone|].
  destruct (permits_returned_at_end (always_200 [])
              [ (ready one_file_mirror, "ar.alafasy"%string, 1, 1, 1) ]
              [0; 0; 0; 0]%nat
              (Limiter.Sched 8
                 [Limiter.Task
                    [EAcquire; EExists (get_download_path "ar.alafasy" 1 1) true;
                     ERelease; EReturn (true, "skipped"%string)] []]))
    as [H _].
  - vm_compute. reflexivity.
  - exact Hdone.
  - exact H.
Defined.

(** X19. Any number of transfer units, whatever they find and whatever the
    endpoint answers, can all be run to their end under the one semaphore:
    there is an order in which the loop resumes the tasks that never gets
    stuck and after which every task has done exactly the effects of its
    unit, and the semaphore has all its permits again. *)
Theorem units_all_complete (server : string → response)
  (units : list (state * string * Z * Z * Z)) :
  ∃ schedule s,
    Limiter.run schedule (Limiter.start (unit_trace server <$> units)) = Some s
    ∧ all_done s
    ∧ Limiter.done <$> Limiter.tasks s = unit_trace server <$> units
    ∧ Limiter.value s = MAX_CONCURRENT.
Proof.
  pose proof (start_units_invariant server units) as Hinv.
  destruct (invariant_completes
              (Z.to_nat (pending (Limiter.start (unit_trace server <$> units))))
              _ Hinv) as (schedule & s & Hrun & Hdone).
  { pose proof (pending_nonneg (Limiter.start (unit_trace server <$> units))). lia. }
  exists schedule, s. split_and!; [done..| |].
  - rewrite <- (start_events (unit_trace server <$> units)).
    rewrite <- (run_events schedule _ s Hrun).
    apply Forall_fmap_ext. eapply Forall_impl; [exact Hdone|].
    intros t Ht. unfold events_of. simpl in Ht. by rewrite Ht, app_nil_r.
  - apply invariant_over; [|done]. by apply (run_invariant schedule _ s Hrun).
Qed.
